(** * Itag finder: the tag table, the driver callbacks and the main loop

    A shallow embedding of the two sketches of the repository:
    - [Finder]: Itag/src/main.cpp, the NimBLE sketch with buzzer, LED and
      the deferred scan restart;
    - [Tester]: src/main.cpp, the earlier test sketch.

    The BLE library is outside the repository.  Everything the sketches
    ask of it is an input of the model: the time read by [millis()], the
    answers to a connect attempt ([attempt]), the callbacks the library
    delivers ([drv_event]) and, for an advertisement, the text that
    [onResult] finds behind its pointer ([advert]).  What the sketches
    ask the radio to do is recorded in a trace of [radio_op]; what they
    print is recorded in a trace of [msg]. *)

From Stdlib Require Import ZArith String Bool Lia.
From stdpp Require Import base list.

Local Open Scope Z_scope.

(** ** Machine integers *)

(** [uint32_t]: values are kept in [0, 2^32) by reducing every result. *)
Definition wrap32 (z : Z) : Z := z mod 2 ^ 32.

(** ** The tag table (struct itag_t and Itag[]) *)

(** A remote characteristic object of the library, known by its identity only. *)
Definition handle := nat.
Bind Scope nat_scope with handle.

(** struct itag_t.  [pServerAddress] and [pClient] are written once, by
    [setup()], one fresh object per entry, and never again; the client of
    entry [i] is therefore known by the index [i] and is not a field here.
    A NULL [pRemChar] is [None]. *)
Record itag_t := mk_itag {
  ItagAddress : string;
  pRemChar : option handle;
  advertized : bool;
  oldmillis : Z
}.

(** The Itag[] initialiser, the same in both sketches. *)
Definition Itag_table : list itag_t :=
  [ mk_itag "ff:ff:11:11:a2:fa" None false 0;
    mk_itag "ff:ff:22:21:ab:11" None false 0;
    mk_itag "ff:ff:77:70:4b:f0" None false 0 ].

(** [Itag[i].pRemChar == pBLERemChar], the argument being a live object. *)
Definition ptr_eqb (p : option handle) (h : handle) : bool :=
  match p with
  | Some h' => Nat.eqb h' h
  | None => false
  end.

(** ** Serial output *)

Inductive msg :=
| MsgStart
| MsgFound (addr : string)
| MsgScanEnded
| MsgStartScan
| MsgConnected (mac : string)
| MsgDisconnected (mac : string)
| MsgNotify (i : nat)
| MsgTry (i : nat) (mac : string)
| MsgNoConnection (i : nat)
| MsgNoBatteryService
| MsgBattery (perc : Z)
| MsgFoundButton
| MsgCanNotify
| MsgDescriptor (present : bool)
| MsgCallbackSet
| MsgCallbackFailed
| MsgNotifyOff
| MsgNoButtonService.

(** ** Requests to the radio *)

Inductive radio_op :=
| RScanStart (duration : Z)
| RScanStop
| RClearResults
| RConnect (i : nat)
| RDisconnect (i : nat)
| RReadValue
| RSubscribe (h : handle).

(** ** What the library delivers *)

(** An advertisement as [onResult] meets it.  The callback sets a pointer
    [p] to the text of [getAddress().toString()], a temporary that is gone
    when the loop over the table starts: what [strcmp] finds at [p] is not
    given by the advertising device, and C++ leaves the read undefined.
    Each read is taken to yield some text, which is an input here, one
    for each turn of the loop: [adv_read a i] is what the comparison with
    entry [i] reads.  [adv_device a] is [advDev->toString()], which
    Itag/src/main.cpp prints from the live object. *)
Record advert := mk_advert {
  adv_device : string;
  adv_read : nat -> string
}.

(** The advertisement of the device [addr] when every comparison still
    reads the text of its address at [p]. *)
Definition heard (addr : string) : advert :=
  mk_advert addr (fun _ => addr).

(** The advertisement of the device [addr] when the text at [p] is no
    longer that of its address. *)
Definition garbled (addr : string) : advert :=
  mk_advert addr (fun _ => "#"%string).

(** Callbacks that arrive on their own: an advertisement, the loss of the
    link of client [j], a notification of characteristic [h] at time
    [now]. *)
Inductive drv_event :=
| DAdvert (a : advert)
| DLost (j : nat)
| DNotify (h : handle) (now : Z).

(** The callback [d] is no advertisement in which the comparison with
    entry [i] reads [addr]. *)
Definition unheard (i : nat) (addr : string) (d : drv_event) : Prop :=
  match d with
  | DAdvert a => adv_read a i <> addr
  | _ => True
  end.

(** The button characteristic as the library presents it. *)
Record button_char := mk_button {
  bc_handle : handle;
  bc_canNotify : bool;
  bc_desc2902 : bool;
  bc_subscribe : bool
}.

(** The library's answers during one call of [connectToServer]:
    callbacks delivered while [connect] blocks, before and after the link
    comes up (if it does); the value [connect] returns; the battery
    service ([None]: no service, [Some None]: no characteristic,
    [Some (Some v)]: value read) and the button service likewise. *)
Record attempt := mk_attempt {
  before : list drv_event;
  up : bool;
  after : list drv_event;
  res : bool;
  battery : option (option Z);
  button : option (option button_char)
}.

(** One pass of [loop()]: the two readings of [millis()] and the answers
    for each entry, should it be tried. *)
Record tick_env := mk_tick {
  t_begin : Z;
  t_end : Z;
  answer : nat -> attempt
}.

(** Two values of an entry that differ in [oldmillis] at most. *)
Definition same_but_oldmillis (t t' : itag_t) : Prop :=
  ItagAddress t' = ItagAddress t /\ pRemChar t' = pRemChar t /\
  advertized t' = advertized t.

(** The requests made after the link is up: reading and subscribing. *)
Definition is_gatt_op (r : radio_op) : bool :=
  match r with
  | RReadValue | RSubscribe _ => true
  | _ => false
  end.

(** The entries a list of requests asks to connect, in order. *)
Definition conn_ids (l : list radio_op) : list nat :=
  flat_map (fun r => match r with RConnect i => [i] | _ => [] end) l.

(** An entry after the turn of [onResult] in which [strcmp] reads [p]. *)
Definition seen_from (p : string) (t : itag_t) : itag_t :=
  mk_itag (ItagAddress t) (pRemChar t)
          (advertized t || String.eqb (ItagAddress t) p) (oldmillis t).

(** The entries [onResult] reports as found: unadvertised, with an
    address equal to the text [p] read at the pointer. *)
Definition newly_found (p : string) (t : itag_t) : bool :=
  negb (advertized t) && String.eqb (ItagAddress t) p.

(** The entries that make [onResult] of the test sketch keep scanning:
    unadvertised, with an address other than the text [p] read at the
    pointer. *)
Definition still_missing (p : string) (t : itag_t) : bool :=
  negb (advertized t) && negb (String.eqb (ItagAddress t) p).

(** The table after the turns of [onResult] for the entries below [k],
    and after all of them. *)
Definition seen_upto (a : advert) (k : nat) (l : list itag_t) : list itag_t :=
  imap (fun i t => if (i <? k)%nat then seen_from (adv_read a i) t else t) l.

Definition seen_all (a : advert) (l : list itag_t) : list itag_t :=
  imap (fun i => seen_from (adv_read a i)) l.

(** The turns below [k] in which [onResult] reports an entry of [l] as
    found, and whether one of them leaves an entry missing. *)
Definition found_at (a : advert) (l : list itag_t) (i : nat) : bool :=
  match l !! i with
  | Some t => newly_found (adv_read a i) t
  | None => false
  end.

Definition found_ids (a : advert) (l : list itag_t) (k : nat) : list nat :=
  List.filter (found_at a l) (seq 0 k).

Definition missing_at (a : advert) (l : list itag_t) (i : nat) : bool :=
  match l !! i with
  | Some t => still_missing (adv_read a i) t
  | None => false
  end.

Definition some_missing (a : advert) (l : list itag_t) (k : nat) : bool :=
  existsb (missing_at a l) (seq 0 k).

(** The requests the callbacks of the test sketch make. *)
Definition is_callback_op (r : radio_op) : bool :=
  match r with
  | RScanStop | RDisconnect _ => true
  | _ => false
  end.

Definition is_scan_start (r : radio_op) : bool :=
  match r with
  | RScanStart _ => true
  | _ => false
  end.

(** ** Counted loops *)

(** for ( i = i0 ; i < i0 + n ; i++ ) body, where the body says whether it
    leaves the loop with [break]. *)
Fixpoint for_loop {St : Type} (body : nat -> St -> St * bool)
         (n : nat) (i : nat) (s : St) : St :=
  match n with
  | O => s
  | S n' =>
      let (s', brk) := body i s in
      if brk then s' else for_loop body n' (S i) s'
  end.

(** ** Itag/src/main.cpp *)

Module Finder.

(** #define NOTIFY 1 *)
Definition NOTIFY : bool := true.

(** Globals of the sketch, the two outputs, the serial line, and the
    library's side: the requests it received and [isConnected()] of each
    entry's client. *)
Record state := mk_state {
  Itag : list itag_t;
  restartscan : bool;
  beeptimer : Z;
  newcontime : Z;
  buzzer : Z;
  actled : bool;
  serial : list msg;
  radio : list radio_op;
  connected : list bool
}.

Definition NITAGS (s : state) : nat := length (Itag s).

Definition set_Itag (l : list itag_t) (s : state) : state :=
  mk_state l (restartscan s) (beeptimer s) (newcontime s) (buzzer s)
           (actled s) (serial s) (radio s) (connected s).

Definition set_restartscan (b : bool) (s : state) : state :=
  mk_state (Itag s) b (beeptimer s) (newcontime s) (buzzer s)
           (actled s) (serial s) (radio s) (connected s).

Definition set_beeptimer (z : Z) (s : state) : state :=
  mk_state (Itag s) (restartscan s) z (newcontime s) (buzzer s)
           (actled s) (serial s) (radio s) (connected s).

Definition set_newcontime (z : Z) (s : state) : state :=
  mk_state (Itag s) (restartscan s) (beeptimer s) z (buzzer s)
           (actled s) (serial s) (radio s) (connected s).

(** ledcWrite ( 0, duty ) *)
Definition ledcWrite (duty : Z) (s : state) : state :=
  mk_state (Itag s) (restartscan s) (beeptimer s) (newcontime s) duty
           (actled s) (serial s) (radio s) (connected s).

(** digitalWrite ( ACTLED, level ) *)
Definition digitalWrite (level : bool) (s : state) : state :=
  mk_state (Itag s) (restartscan s) (beeptimer s) (newcontime s) (buzzer s)
           level (serial s) (radio s) (connected s).

(** Serial.printf / Serial.println *)
Definition print (m : msg) (s : state) : state :=
  mk_state (Itag s) (restartscan s) (beeptimer s) (newcontime s) (buzzer s)
           (actled s) (serial s ++ [m]) (radio s) (connected s).

Definition request (r : radio_op) (s : state) : state :=
  mk_state (Itag s) (restartscan s) (beeptimer s) (newcontime s) (buzzer s)
           (actled s) (serial s) (radio s ++ [r]) (connected s).

Definition set_connected (i : nat) (b : bool) (s : state) : state :=
  mk_state (Itag s) (restartscan s) (beeptimer s) (newcontime s) (buzzer s)
           (actled s) (serial s) (radio s) (<[i:=b]> (connected s)).

(** Itag[i] = t *)
Definition set_tag (i : nat) (t : itag_t) (s : state) : state :=
  set_Itag (<[i:=t]> (Itag s)) s.

(** pClient->isConnected() of entry [i] *)
Definition isConnected (i : nat) (s : state) : bool :=
  match connected s !! i with
  | Some b => b
  | None => false
  end.

(** void beep ( int duration ) *)
Definition beep (duration : Z) (s : state) : state :=
  ledcWrite 10 (set_beeptimer duration s).

(** void handle_beeptimer() *)
Definition handle_beeptimer (s : state) : state :=
  if 0 <? beeptimer s then
    let s1 := set_beeptimer (beeptimer s - 100) s in
    if beeptimer s1 <=? 0 then ledcWrite 0 s1 else s1
  else s.

(** myADC::onResult.  [strcmp ( Itag[i].ItagAddress, p )] compares with
    the text found at [p] in turn [i], [adv_read a i]; the line printed
    is [advDev->toString()]. *)
Definition onResult_body (a : advert) (i : nat) (s : state) : state * bool :=
  match Itag s !! i with
  | Some t =>
      if negb (advertized t) then
        if String.eqb (ItagAddress t) (adv_read a i) then
          (print (MsgFound (adv_device a))
             (set_tag i (mk_itag (ItagAddress t) (pRemChar t) true (oldmillis t)) s),
           false)
        else (s, false)
      else (s, false)
  | None => (s, false)
  end.

Definition onResult (a : advert) (s : state) : state :=
  for_loop (onResult_body a) (NITAGS s) 0 s.

(** void scanEndedCB ( NimBLEScanResults results ) *)
Definition scanEndedCB (s : state) : state := print MsgScanEnded s.

(** MyClientCallbacks::onConnect; [macstr] is the peer address of the client. *)
Definition onConnect (macstr : string) (s : state) : state :=
  set_restartscan true (print (MsgConnected macstr) s).

(** MyClientCallbacks::onDisconnect *)
Definition onDisconnect_body (macstr : string) (i : nat) (s : state)
  : state * bool :=
  match Itag s !! i with
  | Some t =>
      if String.eqb (ItagAddress t) macstr then
        (set_tag i (mk_itag (ItagAddress t) (pRemChar t) false (oldmillis t)) s,
         true)
      else (s, false)
  | None => (s, false)
  end.

Definition onDisconnect (macstr : string) (s : state) : state :=
  let s1 := print (MsgDisconnected macstr) s in
  set_restartscan true (for_loop (onDisconnect_body macstr) (NITAGS s1) 0 s1).

(** static void notifyCallback; [now] is what [millis()] returns. *)
Definition notifyCallback_body (h : handle) (newmillis : Z) (i : nat)
           (s : state) : state * bool :=
  match Itag s !! i with
  | Some t =>
      if ptr_eqb (pRemChar t) h then
        (if wrap32 (oldmillis t + 500) <? newmillis then
           beep 500
             (print (MsgNotify i)
                (set_tag i (mk_itag (ItagAddress t) (pRemChar t)
                                    (advertized t) newmillis) s))
         else s,
         true)
      else (s, false)
  | None => (s, false)
  end.

Definition notifyCallback (h : handle) (now : Z) (s : state) : state :=
  let newmillis := wrap32 now in
  for_loop (notifyCallback_body h newmillis) (NITAGS s) 0 s.

(** *** The library's side of a callback *)

(** [pClient->getPeerAddress().toString()] of the client of entry [j]:
    the address the client was created for, in the lower-case form the
    table is written in. *)
Definition peer_mac (j : nat) (s : state) : option string :=
  ItagAddress <$> (Itag s !! j).

(** A link that is up is reported lost: the client is no longer connected
    and [onDisconnect] runs.  The other two events run their callback. *)
Definition deliver (e : drv_event) (s : state) : state :=
  match e with
  | DAdvert a => onResult a s
  | DLost j =>
      match peer_mac j s with
      | Some mac =>
          if isConnected j s then onDisconnect mac (set_connected j false s)
          else s
      | None => s
      end
  | DNotify h now => notifyCallback h now s
  end.

Definition deliver_all (es : list drv_event) (s : state) : state :=
  fold_left (fun s e => deliver e s) es s.

(** The link of client [i] comes up: the client is connected and
    [onConnect] runs. *)
Definition link_up (i : nat) (s : state) : state :=
  match peer_mac i s with
  | Some mac => onConnect mac (set_connected i true s)
  | None => s
  end.

(** Itag[i].pClient->connect ( *Itag[i].pServerAddress ), a blocking call. *)
Definition client_connect (i : nat) (a : attempt) (s : state) : state :=
  let s1 := deliver_all (before a) (request (RConnect i) s) in
  let s2 := if up a then link_up i s1 else s1 in
  deliver_all (after a) s2.

(** Itag[i].pRemChar = p *)
Definition set_pRemChar (i : nat) (p : option handle) (s : state) : state :=
  match Itag s !! i with
  | Some t => set_tag i (mk_itag (ItagAddress t) p (advertized t) (oldmillis t)) s
  | None => s
  end.

(** The battery part of [connectToServer]. *)
Definition read_battery (a : attempt) (s : state) : state :=
  match battery a with
  | None => print MsgNoBatteryService s
  | Some None => s
  | Some (Some v) => print (MsgBattery v) (request RReadValue s)
  end.

(** The part of [connectToServer] under [if ( Itag[i].pRemChar )]. *)
Definition subscribe_button (bc : button_char) (s : state) : state :=
  if bc_canNotify bc then
    let s1 := print MsgCanNotify s in
    let s2 := print (MsgDescriptor (bc_desc2902 bc)) s1 in
    let s3 := request (RSubscribe (bc_handle bc)) s2 in
    if bc_subscribe bc then print MsgCallbackSet s3
    else print MsgCallbackFailed s3
  else s.

(** void connectToServer ( int i ) *)
Definition connectToServer (i : nat) (a : attempt) (s : state) : state :=
  let s1 := client_connect i a s in
  if negb (isConnected i s1) || negb (res a) then
    print (MsgNoConnection i) s1
  else
    let s2 := read_battery a s1 in
    match button a with
    | Some c =>
        let s3 := print MsgFoundButton s2 in
        if NOTIFY then
          let s4 := set_pRemChar i (bc_handle <$> c) s3 in
          match c with
          | Some bc => subscribe_button bc s4
          | None => s4
          end
        else print MsgNotifyOff s3
    | None => print MsgNoButtonService s2
    end.

(** The body of the for loop of [loop()]. *)
Definition loop_body (env : tick_env) (i : nat) (s : state) : state * bool :=
  match Itag s !! i with
  | Some t =>
      if advertized t then
        let s1 := digitalWrite true s in
        if negb (isConnected i s1) then
          let s2 := print (MsgTry i (ItagAddress t)) s1 in
          (beep 1000 (connectToServer i (answer env i) s2), false)
        else (s1, false)
      else (s, false)
  | None => (s, false)
  end.

(** The first [if] of [loop()]. *)
Definition connect_phase (env : tick_env) (s : state) : state :=
  if newcontime s <? wrap32 (t_begin env) then
    let s1 := digitalWrite false s in
    let s2 := for_loop (loop_body env) (NITAGS s1) 0 s1 in
    set_newcontime (wrap32 (wrap32 (t_end env) + 5000)) s2
  else s.

(** The second [if] of [loop()]. *)
Definition restart_phase (s : state) : state :=
  if restartscan s then
    request (RScanStart 0)
      (request RClearResults (request RScanStop (set_restartscan false s)))
  else s.

(** void loop(); the closing [delay ( 100 )] only lets time pass. *)
Definition loop (env : tick_env) (s : state) : state :=
  handle_beeptimer (restart_phase (connect_phase env s)).

(** The state [setup()] leaves: the table as initialised, one idle client
    per entry, no request for a restart, the buzzer off, and the scan
    started. *)
Definition boot (table : list itag_t) : state :=
  mk_state table false 0 0 0 false [MsgStart] [RScanStart 0]
           (replicate (length table) false).

(** *** The sketch in its environment *)

Inductive event :=
| EDrv (e : drv_event)
| ETick (env : tick_env).

Definition step (e : event) (s : state) : state :=
  match e with
  | EDrv d => deliver d s
  | ETick env => loop env s
  end.

(** [reaches table hist s]: the sketch booted with [table] is in [s] after
    the events of [hist], the latest first. *)
Inductive reaches (table : list itag_t) : list event -> state -> Prop :=
| reaches_boot : reaches table [] (boot table)
| reaches_step hist s e :
    reaches table hist s -> reaches table (e :: hist) (step e s).

(** The state after the events of [hist], the latest first. *)
Definition run (table : list itag_t) (hist : list event) : state :=
  foldr step (boot table) hist.

(** *** Vocabulary of the statements *)

(** Entry [i] is the one a notification of [h] is attributed to: the first
    entry whose [pRemChar] is [h]. *)
Definition attributed (h : handle) (i : nat) (s : state) : Prop :=
  exists t, Itag s !! i = Some t /\ pRemChar t = Some h /\
    forall k tk, (k < i)%nat -> Itag s !! k = Some tk -> pRemChar tk <> Some h.

(** The step from [s] to [s'] accepted a button event of entry [i]: it is
    what prints the line of that entry. *)
Definition accepted (i : nat) (s s' : state) : Prop :=
  serial s' = serial s ++ [MsgNotify i].

Definition adv (i : nat) (s : state) : bool :=
  match Itag s !! i with
  | Some t => advertized t
  | None => false
  end.

Definition rem (i : nat) (s : state) : option (option handle) :=
  pRemChar <$> (Itag s !! i).

Definition old (i : nat) (s : state) : option Z :=
  oldmillis <$> (Itag s !! i).

(** Entry [i] is the one [onDisconnect] finds for [macstr]: the first entry
    with that address. *)
Definition found_by_address (macstr : string) (i : nat) (s : state) : Prop :=
  exists t, Itag s !! i = Some t /\ ItagAddress t = macstr /\
    forall k tk, (k < i)%nat -> Itag s !! k = Some tk -> ItagAddress tk <> macstr.

(** What no callback of the library touches, from [s] to [s']: the
    requests to the radio, the timer of [loop()], the LED, the addresses
    and the [pRemChar] of the entries (hence their number) and the number
    of clients; and a pending restart request stays pending. *)
Definition cb_frame (s s' : state) : Prop :=
  radio s' = radio s /\ newcontime s' = newcontime s /\
  actled s' = actled s /\
  (forall i, peer_mac i s' = peer_mac i s) /\
  (forall i, rem i s' = rem i s) /\
  (restartscan s = true -> restartscan s' = true) /\
  length (connected s') = length (connected s).

(** The requests that start, stop or reset the scan. *)
Definition is_scan_op (r : radio_op) : bool :=
  match r with
  | RScanStart _ | RScanStop | RClearResults => true
  | _ => false
  end.

(** No callback arrives on its own while the connect call blocks. *)
Definition quiet (a : attempt) : Prop := before a = [] /\ after a = [].


(** The library presented the button characteristic [h] for entry [i] in
    some pass of the history. *)
Definition offered (i : nat) (h : handle) (hist : list event) : Prop :=
  exists env bc, In (ETick env) hist /\
    button (answer env i) = Some (Some bc) /\ bc_handle bc = h.

(** The table still has the configured addresses and there is one client
    per entry. *)
Definition wired (table : list itag_t) (s : state) : Prop :=
  ItagAddress <$> Itag s = ItagAddress <$> table /\
  length (connected s) = length table.

(** Every entry whose client is connected is advertised. *)
Definition linked_advertised (s : state) : Prop :=
  forall i, isConnected i s = true -> adv i s = true.

(** Every [pRemChar] is NULL or a characteristic the library presented
    for that entry. *)
Definition handles_offered (hist : list event) (s : state) : Prop :=
  forall i h, rem i s = Some (Some h) -> offered i h hist.


(** The buzzer sounds exactly while the timer runs, and the timer is a
    whole number of passes of at most a second. *)
Definition buzzer_ok (s : state) : Prop :=
  exists k, 0 <= k <= 10 /\ beeptimer s = 100 * k /\
            buzzer s = if k =? 0 then 0 else 10.


(** The event brings no advertisement in which the comparison with entry
    [i] reads [addr]: neither as a callback of its own nor during a
    connect call of the pass. *)
Definition silent_for (i : nat) (addr : string) (e : event) : Prop :=
  match e with
  | EDrv d => unheard i addr d
  | ETick env =>
      forall k, Forall (unheard i addr)
                       (before (answer env k) ++ after (answer env k))
  end.

End Finder.

(** ** src/main.cpp *)

Module Tester.

(** The table, the static of [loop()], the serial line, and the library's
    side as in [Finder].  This sketch has neither buzzer nor LED nor a
    restart request. *)
Record state := mk_state {
  Itag : list itag_t;
  newcontime : Z;
  serial : list msg;
  radio : list radio_op;
  connected : list bool
}.

Definition NITAGS (s : state) : nat := length (Itag s).

Definition set_Itag (l : list itag_t) (s : state) : state :=
  mk_state l (newcontime s) (serial s) (radio s) (connected s).

Definition print (m : msg) (s : state) : state :=
  mk_state (Itag s) (newcontime s) (serial s ++ [m]) (radio s) (connected s).

Definition request (r : radio_op) (s : state) : state :=
  mk_state (Itag s) (newcontime s) (serial s) (radio s ++ [r]) (connected s).

Definition set_connected (i : nat) (b : bool) (s : state) : state :=
  mk_state (Itag s) (newcontime s) (serial s) (radio s) (<[i:=b]> (connected s)).

Definition set_tag (i : nat) (t : itag_t) (s : state) : state :=
  set_Itag (<[i:=t]> (Itag s)) s.

Definition isConnected (i : nat) (s : state) : bool :=
  match connected s !! i with
  | Some b => b
  | None => false
  end.

(** myADC::onResult; the second component of the loop state is [missing].
    [strcmp ( Itag[i].ItagAddress, p )] compares with the text found at
    [p] in turn [i], [adv_read a i], and the same text is printed. *)
Definition onResult_body (a : advert) (i : nat) (sm : state * bool)
  : (state * bool) * bool :=
  let (s, missing) := sm in
  match Itag s !! i with
  | Some t =>
      if negb (advertized t) then
        if String.eqb (ItagAddress t) (adv_read a i) then
          ((print (MsgFound (adv_read a i))
              (set_tag i (mk_itag (ItagAddress t) (pRemChar t) true (oldmillis t)) s),
            missing), false)
        else ((s, true), false)
      else (sm, false)
  | None => (sm, false)
  end.

Definition onResult (a : advert) (s : state) : state :=
  let (s1, missing) := for_loop (onResult_body a) (NITAGS s) 0 (s, false) in
  if negb missing then request RScanStop s1 else s1.

(** MyClientCallbacks::onConnect *)
Definition onConnect (macstr : string) (s : state) : state :=
  print (MsgConnected macstr) s.

(** MyClientCallbacks::onDisconnect, for the client of entry [j]. *)
Definition onDisconnect (j : nat) (macstr : string) (s : state) : state :=
  print (MsgDisconnected macstr) (request (RDisconnect j) s).

(** static void notifyCallback *)
Definition notifyCallback_body (h : handle) (newmillis : Z) (i : nat)
           (s : state) : state * bool :=
  match Itag s !! i with
  | Some t =>
      if ptr_eqb (pRemChar t) h then
        (if wrap32 (oldmillis t + 500) <? newmillis then
           print (MsgNotify i)
             (set_tag i (mk_itag (ItagAddress t) (pRemChar t)
                                 (advertized t) newmillis) s)
         else s,
         true)
      else (s, false)
  | None => (s, false)
  end.

Definition notifyCallback (h : handle) (now : Z) (s : state) : state :=
  let newmillis := wrap32 now in
  for_loop (notifyCallback_body h newmillis) (NITAGS s) 0 s.

Definition peer_mac (j : nat) (s : state) : option string :=
  ItagAddress <$> (Itag s !! j).

Definition deliver (e : drv_event) (s : state) : state :=
  match e with
  | DAdvert a => onResult a s
  | DLost j =>
      match peer_mac j s with
      | Some mac =>
          if isConnected j s then onDisconnect j mac (set_connected j false s)
          else s
      | None => s
      end
  | DNotify h now => notifyCallback h now s
  end.

Definition deliver_all (es : list drv_event) (s : state) : state :=
  fold_left (fun s e => deliver e s) es s.

Definition link_up (i : nat) (s : state) : state :=
  match peer_mac i s with
  | Some mac => onConnect mac (set_connected i true s)
  | None => s
  end.

Definition client_connect (i : nat) (a : attempt) (s : state) : state :=
  let s1 := deliver_all (before a) (request (RConnect i) s) in
  let s2 := if up a then link_up i s1 else s1 in
  deliver_all (after a) s2.

Definition set_pRemChar (i : nat) (p : option handle) (s : state) : state :=
  match Itag s !! i with
  | Some t => set_tag i (mk_itag (ItagAddress t) p (advertized t) (oldmillis t)) s
  | None => s
  end.

Definition read_battery (a : attempt) (s : state) : state :=
  match battery a with
  | None => print MsgNoBatteryService s
  | Some None => s
  | Some (Some v) => print (MsgBattery v) (request RReadValue s)
  end.

(** void connectToServer ( int i ); [registerForNotify] returns nothing. *)
Definition connectToServer (i : nat) (a : attempt) (s : state) : state :=
  let s1 := client_connect i a s in
  if negb (isConnected i s1) || negb (res a) then
    print (MsgNoConnection i) s1
  else
    let s2 := read_battery a s1 in
    match button a with
    | Some c =>
        let s3 := print MsgFoundButton s2 in
        let s4 := set_pRemChar i (bc_handle <$> c) s3 in
        match c with
        | Some bc => print MsgCallbackSet (request (RSubscribe (bc_handle bc)) s4)
        | None => s4
        end
    | None => print MsgNoButtonService s2
    end.

Definition set_newcontime (z : Z) (s : state) : state :=
  mk_state (Itag s) z (serial s) (radio s) (connected s).

(** The first for loop of [loop()]; the second component of the loop
    state is [scanrequired]. *)
Definition reset_body (i : nat) (sr : state * bool) : (state * bool) * bool :=
  let (s, scanrequired) := sr in
  match Itag s !! i with
  | Some t =>
      if negb (isConnected i s) then
        ((set_tag i (mk_itag (ItagAddress t) (pRemChar t) false (oldmillis t)) s,
          true), false)
      else (sr, false)
  | None => (sr, false)
  end.

(** The second for loop of [loop()]. *)
Definition connect_body (env : tick_env) (i : nat) (s : state) : state * bool :=
  match Itag s !! i with
  | Some t =>
      if advertized t then
        if negb (isConnected i s) then
          (connectToServer i (answer env i)
             (print (MsgTry i (ItagAddress t)) s), false)
        else (s, false)
      else (s, false)
  | None => (s, false)
  end.

(** void loop(); [scan] are the callbacks delivered while
    [pBLEScan->start ( 10 )] blocks. *)
Definition loop (env : tick_env) (scan : list drv_event) (s : state) : state :=
  if newcontime s <? wrap32 (t_begin env) then
    let (s1, scanrequired) := for_loop reset_body (NITAGS s) 0 (s, false) in
    let s2 :=
      if scanrequired then
        deliver_all scan (request (RScanStart 10) (print MsgStartScan s1))
      else s1 in
    let s3 := for_loop (connect_body env) (NITAGS s2) 0 s2 in
    set_newcontime (wrap32 (wrap32 (t_end env) + 5000)) s3
  else s.

(** The state [setup()] leaves; this sketch starts no scan there. *)
Definition boot (table : list itag_t) : state :=
  mk_state table 0 [MsgStart] [] (replicate (length table) false).

(** *** Vocabulary of the statements *)

Definition attributed (h : handle) (i : nat) (s : state) : Prop :=
  exists t, Itag s !! i = Some t /\ pRemChar t = Some h /\
    forall k tk, (k < i)%nat -> Itag s !! k = Some tk -> pRemChar tk <> Some h.

Definition accepted (i : nat) (s s' : state) : Prop :=
  serial s' = serial s ++ [MsgNotify i].

Definition rem (i : nat) (s : state) : option (option handle) :=
  pRemChar <$> (Itag s !! i).

Definition old (i : nat) (s : state) : option Z :=
  oldmillis <$> (Itag s !! i).


Definition adv (i : nat) (s : state) : bool :=
  match Itag s !! i with
  | Some t => advertized t
  | None => false
  end.

(** The table after the first for loop of [loop()]: the entries whose
    client is not connected are no longer advertised. *)
Definition forget_unlinked (s : state) : list itag_t :=
  imap (fun i t =>
          if isConnected i s then t
          else mk_itag (ItagAddress t) (pRemChar t) false (oldmillis t))
       (Itag s).

(** Some client is not connected: what that loop leaves in [scanrequired]. *)
Definition some_unlinked (s : state) : bool :=
  existsb (fun i => negb (isConnected i s)) (seq 0 (NITAGS s)).

End Tester.

(** ** Scenarios *)

(** The first configured address.  In the scenarios a device advertises
    as [heard]: the comparisons of [onResult] read its address. *)
Definition tag0_mac : string := "ff:ff:11:11:a2:fa".

(** A connect that succeeds with no other callback: battery at 87, the
    button characteristic 7 found, able to notify, without descriptor
    0x2902, and the subscription taken. *)
Definition bind7 : attempt :=
  mk_attempt [] true [] true (Some (Some 87))
             (Some (Some (mk_button 7 true false true))).

Definition tick_bind7 : tick_env := mk_tick 1 200 (fun _ => bind7).

(** Entry 0 advertises and the next pass connects it. *)
Definition finder_bound7 : Finder.state :=
  Finder.run Itag_table
    [Finder.ETick tick_bind7; Finder.EDrv (DAdvert (heard tag0_mac))].

(** The same in the test sketch. *)
Definition tester_bound7 : Tester.state :=
  Tester.connectToServer 0 bind7
    (Tester.deliver (DAdvert (heard tag0_mac)) (Tester.boot Itag_table)).

(** Entry 0 of the finder after a button event accepted at 1000 ms. *)
Definition finder_pressed_1000 : Finder.state :=
  Finder.run Itag_table
    [Finder.EDrv (DNotify 7 1000); Finder.ETick tick_bind7;
     Finder.EDrv (DAdvert (heard tag0_mac))].


(** Entry 0 has advertised; nothing else has happened. *)
Definition finder_seen0 : Finder.state :=
  Finder.run Itag_table [Finder.EDrv (DAdvert (heard tag0_mac))].

Definition tester_seen0 : Tester.state :=
  Tester.deliver (DAdvert (heard tag0_mac)) (Tester.boot Itag_table).

(** A connect that succeeds and finds the button characteristic 7, which
    cannot notify. *)
Definition bind7_mute : attempt :=
  mk_attempt [] true [] true (Some (Some 87))
             (Some (Some (mk_button 7 false false false))).


(** A connect that fails: the link does not come up, [connect] returns
    false, no callback arrives. *)
Definition no_link : attempt := mk_attempt [] false [] false None None.

Definition tick_no_link : tick_env := mk_tick 1 5001 (fun _ => no_link).


(** Entry 0 was connected and its link is lost. *)
Definition finder_lost0 : Finder.state :=
  Finder.run Itag_table
    [Finder.EDrv (DLost 0); Finder.ETick tick_bind7;
     Finder.EDrv (DAdvert (heard tag0_mac))].

(** A pass at 1300 ms, before the connect timer of 5200 ms is due. *)
Definition tick_idle : tick_env := mk_tick 1300 1300 (fun _ => no_link).


(** Entry 0 has advertised and a first try to connect it has failed. *)
Definition finder_failed0 : Finder.state :=
  Finder.run Itag_table
    [Finder.ETick tick_no_link; Finder.EDrv (DAdvert (heard tag0_mac))].

(** The pass after the 5 s have gone by. *)
Definition tick_retry : tick_env := mk_tick 10100 11000 (fun _ => bind7).

(** A connect during which the link of client 0 comes up and is lost
    again before the call returns. *)
Definition dropped_in_call : attempt :=
  mk_attempt [] true [DLost 0] true None None.

(** A connect that returns false although the link has come up. *)
Definition refused_with_link : attempt :=
  mk_attempt [] true [] false None None.

Definition tick_refused : tick_env :=
  mk_tick 1 200 (fun _ => refused_with_link).

(** Entry 0 has advertised, its connect was refused with the link up, and
    the pass after the 5 s has gone by. *)
Definition finder_refused0_retry : Finder.state :=
  Finder.run Itag_table
    [Finder.ETick tick_retry; Finder.ETick tick_refused;
     Finder.EDrv (DAdvert (heard tag0_mac))].


(** A connect that succeeds on a tag without button service. *)
Definition no_button : attempt := mk_attempt [] true [] true None None.

Definition tick_no_button : tick_env := mk_tick 7000 7500 (fun _ => no_button).

(** Entry 0 connects and binds characteristic 7, loses the link,
    advertises again and is connected again, this time without button
    service. *)
Definition finder_reconnected0 : Finder.state :=
  Finder.run Itag_table
    [Finder.ETick tick_no_button; Finder.EDrv (DAdvert (heard tag0_mac));
     Finder.EDrv (DLost 0); Finder.ETick tick_bind7;
     Finder.EDrv (DAdvert (heard tag0_mac))].


(** A pass that ends 5001 ms before the clock wraps; its connect fails. *)
Definition tick_late : tick_env := mk_tick 1 (2 ^ 32 - 5001) (fun _ => no_link).

(** Entry 0 has advertised and that pass has gone by. *)
Definition finder_timer_at_max : Finder.state :=
  Finder.run Itag_table
    [Finder.ETick tick_late; Finder.EDrv (DAdvert (heard tag0_mac))].


(** The test sketch with every client connected and entry 0 bound. *)
Definition tester_all_linked : Tester.state :=
  Tester.mk_state
    [ mk_itag "ff:ff:11:11:a2:fa" (Some 7%nat) true 0;
      mk_itag "ff:ff:22:21:ab:11" None true 0;
      mk_itag "ff:ff:77:70:4b:f0" None true 0 ]
    5200 [MsgStart] [RConnect 0; RConnect 1; RConnect 2] [true; true; true].

(** During the scan [onResult] runs once and reads the address of
    entry 1. *)
Definition scan_hears_1 : list drv_event :=
  [DAdvert (heard "ff:ff:22:21:ab:11")].

(** * Properties *)

(** ** Counted loops *)

Section ForLoop.
Context {St : Type}.
Variable body : nat -> St -> St * bool.

(** A property kept by every pass of the body is kept by the loop. *)
Lemma for_loop_inv (P : St -> Prop) :
  (forall i s, P s -> P (body i s).1) ->
  forall n i s, P s -> P (for_loop body n i s).
Proof.
  intros Hbody n. induction n as [|n IH]; intros i s Hs; simpl; [exact Hs|].
  pose proof (Hbody i s Hs) as Hstep.
  destruct (body i s) as [s' brk]. simpl in Hstep.
  destruct brk; [exact Hstep|]. apply IH, Hstep.
Qed.

(** Passes that neither change the state nor break leave it as it is. *)
Lemma for_loop_none n : forall i s,
  (forall k, (i <= k < i + n)%nat -> body k s = (s, false)) ->
  for_loop body n i s = s.
Proof.
  induction n as [|n IH]; intros i s Hidle; simpl; [reflexivity|].
  rewrite (Hidle i) by lia. apply IH. intros k Hk. apply Hidle. lia.
Qed.

(** The loop ends at the first pass that breaks. *)
Lemma for_loop_first n : forall i m s s',
  (i <= m < i + n)%nat ->
  (forall k, (i <= k < m)%nat -> body k s = (s, false)) ->
  body m s = (s', true) ->
  for_loop body n i s = s'.
Proof.
  induction n as [|n IH]; intros i m s s' Hm Hidle Hhit; [lia|].
  simpl. destruct (decide (i = m)) as [->|Hne].
  - rewrite Hhit. reflexivity.
  - rewrite (Hidle i) by lia. apply (IH (S i) m); [lia| |exact Hhit].
    intros k Hk. apply Hidle. lia.
Qed.
End ForLoop.

(** ** Machine integers *)

Lemma wrap32_small z : 0 <= z < 2 ^ 32 -> wrap32 z = z.
Proof. intros Hz. unfold wrap32. apply Z.mod_small, Hz. Qed.

Lemma wrap32_range z : 0 <= wrap32 z < 2 ^ 32.
Proof. unfold wrap32. apply Z.mod_pos_bound. lia. Qed.

(** ** Pointers *)

Lemma ptr_eqb_true p h : ptr_eqb p h = true <-> p = Some h.
Proof.
  destruct p as [h'|]; simpl; [|split; discriminate].
  rewrite Nat.eqb_eq. split; congruence.
Qed.

Lemma ptr_eqb_false p h : ptr_eqb p h = false <-> p <> Some h.
Proof.
  rewrite <- ptr_eqb_true. destruct (ptr_eqb p h); split; congruence.
Qed.

(** ** notifyCallback, Itag/src/main.cpp *)

Section FinderNotify.
Import Finder.

Lemma finder_notify_unmatched h now s :
  (forall i t, Itag s !! i = Some t -> pRemChar t <> Some h) ->
  notifyCallback h now s = s.
Proof.
  intros Hno. apply for_loop_none. intros k _. unfold notifyCallback_body.
  destruct (Itag s !! k) as [t|] eqn:Hk; [|reflexivity].
  apply Hno, ptr_eqb_false in Hk. rewrite Hk. reflexivity.
Qed.

Lemma finder_notify_matched h now s i t :
  Itag s !! i = Some t -> pRemChar t = Some h ->
  (forall k tk, (k < i)%nat -> Itag s !! k = Some tk -> pRemChar tk <> Some h) ->
  notifyCallback h now s =
    if wrap32 (oldmillis t + 500) <? wrap32 now then
      beep 500 (print (MsgNotify i)
        (set_tag i (mk_itag (ItagAddress t) (pRemChar t) (advertized t)
                            (wrap32 now)) s))
    else s.
Proof.
  intros Hi Hh Hfirst. unfold notifyCallback.
  apply (for_loop_first _ _ 0%nat i).
  - apply lookup_lt_Some in Hi. unfold NITAGS. lia.
  - intros k Hk. unfold notifyCallback_body.
    destruct (Itag s !! k) as [tk|] eqn:Hlk; [|reflexivity].
    apply (Hfirst k tk) in Hlk; [|lia]. apply ptr_eqb_false in Hlk.
    rewrite Hlk. reflexivity.
  - unfold notifyCallback_body. rewrite Hi.
    apply ptr_eqb_true in Hh. rewrite Hh. reflexivity.
Qed.

(** Below any index either no entry holds [h] or some entry does. *)
Lemma finder_holder_below h s i :
  (forall k tk, (k < i)%nat -> Itag s !! k = Some tk -> pRemChar tk <> Some h) \/
  (exists k tk, (k < i)%nat /\ Itag s !! k = Some tk /\ pRemChar tk = Some h).
Proof.
  induction i as [|i [Hnone|(k & tk & Hk & Hlk & Hh)]].
  - left. intros k tk Hk. lia.
  - destruct (Itag s !! i) as [t|] eqn:Hi.
    + destruct (ptr_eqb (pRemChar t) h) eqn:Hp.
      * right. exists i, t. apply ptr_eqb_true in Hp. auto.
      * left. intros k tk Hk Hlk. destruct (decide (k = i)) as [->|Hne].
        -- apply ptr_eqb_false. congruence.
        -- apply (Hnone k); [lia|exact Hlk].
    + left. intros k tk Hk Hlk. destruct (decide (k = i)) as [->|Hne].
      * congruence.
      * apply (Hnone k); [lia|exact Hlk].
  - right. exists k, tk. auto.
Qed.

(** A handle some entry holds is attributed to exactly one entry. *)
Lemma finder_attributed_exists h s :
  (exists i t, Itag s !! i = Some t /\ pRemChar t = Some h) ->
  exists i, attributed h i s.
Proof.
  intros (i & Hex). revert Hex.
  induction i as [i IH] using lt_wf_ind. intros (t & Hi & Hh).
  destruct (finder_holder_below h s i) as [Hnone|(k & tk & Hk & Hex)].
  - exists i, t. auto.
  - apply (IH k Hk). eauto.
Qed.
End FinderNotify.

(** ** notifyCallback, src/main.cpp *)

Section TesterNotify.
Import Tester.

Lemma tester_notify_unmatched h now s :
  (forall i t, Itag s !! i = Some t -> pRemChar t <> Some h) ->
  notifyCallback h now s = s.
Proof.
  intros Hno. apply for_loop_none. intros k _. unfold notifyCallback_body.
  destruct (Itag s !! k) as [t|] eqn:Hk; [|reflexivity].
  apply Hno, ptr_eqb_false in Hk. rewrite Hk. reflexivity.
Qed.

Lemma tester_notify_matched h now s i t :
  Itag s !! i = Some t -> pRemChar t = Some h ->
  (forall k tk, (k < i)%nat -> Itag s !! k = Some tk -> pRemChar tk <> Some h) ->
  notifyCallback h now s =
    if wrap32 (oldmillis t + 500) <? wrap32 now then
      print (MsgNotify i)
        (set_tag i (mk_itag (ItagAddress t) (pRemChar t) (advertized t)
                            (wrap32 now)) s)
    else s.
Proof.
  intros Hi Hh Hfirst. unfold notifyCallback.
  apply (for_loop_first _ _ 0%nat i).
  - apply lookup_lt_Some in Hi. unfold NITAGS. lia.
  - intros k Hk. unfold notifyCallback_body.
    destruct (Itag s !! k) as [tk|] eqn:Hlk; [|reflexivity].
    apply (Hfirst k tk) in Hlk; [|lia]. apply ptr_eqb_false in Hlk.
    rewrite Hlk. reflexivity.
  - unfold notifyCallback_body. rewrite Hi.
    apply ptr_eqb_true in Hh. rewrite Hh. reflexivity.
Qed.

Lemma tester_holder_below h s i :
  (forall k tk, (k < i)%nat -> Itag s !! k = Some tk -> pRemChar tk <> Some h) \/
  (exists k tk, (k < i)%nat /\ Itag s !! k = Some tk /\ pRemChar tk = Some h).
Proof.
  induction i as [|i [Hnone|(k & tk & Hk & Hlk & Hh)]].
  - left. intros k tk Hk. lia.
  - destruct (Itag s !! i) as [t|] eqn:Hi.
    + destruct (ptr_eqb (pRemChar t) h) eqn:Hp.
      * right. exists i, t. apply ptr_eqb_true in Hp. auto.
      * left. intros k tk Hk Hlk. destruct (decide (k = i)) as [->|Hne].
        -- apply ptr_eqb_false. congruence.
        -- apply (Hnone k); [lia|exact Hlk].
    + left. intros k tk Hk Hlk. destruct (decide (k = i)) as [->|Hne].
      * congruence.
      * apply (Hnone k); [lia|exact Hlk].
  - right. exists k, tk. auto.
Qed.

Lemma tester_attributed_exists h s :
  (exists i t, Itag s !! i = Some t /\ pRemChar t = Some h) ->
  exists i, attributed h i s.
Proof.
  intros (i & Hex). revert Hex.
  induction i as [i IH] using lt_wf_ind. intros (t & Hi & Hh).
  destruct (tester_holder_below h s i) as [Hnone|(k & tk & Hk & Hex)].
  - exists i, t. auto.
  - apply (IH k Hk). eauto.
Qed.
End TesterNotify.

(** ** The frame of a notification *)

Lemma not_self_append {A} (l : list A) (x : A) : l <> l ++ [x].
Proof.
  intros Heq. apply (f_equal length) in Heq.
  rewrite length_app in Heq. simpl in Heq. lia.
Qed.

Lemma finder_notify_frame h now s i :
  Finder.attributed h i s ->
  (forall j, j <> i ->
     Finder.Itag (Finder.notifyCallback h now s) !! j = Finder.Itag s !! j) /\
  (exists t t', Finder.Itag s !! i = Some t /\
     Finder.Itag (Finder.notifyCallback h now s) !! i = Some t' /\
     same_but_oldmillis t t').
Proof.
  intros (t & Hi & Hh & Hfirst).
  rewrite (finder_notify_matched h now s i t Hi Hh Hfirst).
  destruct (wrap32 (oldmillis t + 500) <? wrap32 now).
  - simpl. split.
    + intros j Hne. apply list_lookup_insert_ne. congruence.
    + exists t. eexists. split; [exact Hi|]. split.
      * apply list_lookup_insert_eq. eapply lookup_lt_Some, Hi.
      * repeat split.
  - split; [reflexivity|]. exists t, t. repeat split; assumption.
Qed.

Lemma tester_notify_frame h now s i :
  Tester.attributed h i s ->
  (forall j, j <> i ->
     Tester.Itag (Tester.notifyCallback h now s) !! j = Tester.Itag s !! j) /\
  (exists t t', Tester.Itag s !! i = Some t /\
     Tester.Itag (Tester.notifyCallback h now s) !! i = Some t' /\
     same_but_oldmillis t t').
Proof.
  intros (t & Hi & Hh & Hfirst).
  rewrite (tester_notify_matched h now s i t Hi Hh Hfirst).
  destruct (wrap32 (oldmillis t + 500) <? wrap32 now).
  - simpl. split.
    + intros j Hne. apply list_lookup_insert_ne. congruence.
    + exists t. eexists. split; [exact Hi|]. split.
      * apply list_lookup_insert_eq. eapply lookup_lt_Some, Hi.
      * repeat split.
  - split; [reflexivity|]. exists t, t. repeat split; assumption.
Qed.

(** C9.  A notification whose characteristic no entry holds leaves the
    whole state as it was: no entry is written, nothing is printed and the
    buzzer is not started.  A notification whose characteristic some entry
    holds is attributed to one entry; every other entry keeps all its
    fields and that entry keeps its address, its [pRemChar] and its
    [advertized] flag, so that only its [oldmillis] can differ.  Both hold
    in the finder sketch and in the test sketch. *)
Theorem notification_touches_one_entry :
  (forall h now s,
     (forall i t, Finder.Itag s !! i = Some t -> pRemChar t <> Some h) ->
     Finder.notifyCallback h now s = s) /\
  (forall h now s,
     (exists i t, Finder.Itag s !! i = Some t /\ pRemChar t = Some h) ->
     exists i, Finder.attributed h i s /\
       (forall j, j <> i ->
          Finder.Itag (Finder.notifyCallback h now s) !! j = Finder.Itag s !! j) /\
       (exists t t', Finder.Itag s !! i = Some t /\
          Finder.Itag (Finder.notifyCallback h now s) !! i = Some t' /\
          same_but_oldmillis t t')) /\
  (forall h now s,
     (forall i t, Tester.Itag s !! i = Some t -> pRemChar t <> Some h) ->
     Tester.notifyCallback h now s = s) /\
  (forall h now s,
     (exists i t, Tester.Itag s !! i = Some t /\ pRemChar t = Some h) ->
     exists i, Tester.attributed h i s /\
       (forall j, j <> i ->
          Tester.Itag (Tester.notifyCallback h now s) !! j = Tester.Itag s !! j) /\
       (exists t t', Tester.Itag s !! i = Some t /\
          Tester.Itag (Tester.notifyCallback h now s) !! i = Some t' /\
          same_but_oldmillis t t')).
Proof.
  split; [exact finder_notify_unmatched|].
  split.
  { intros h now s Hex.
    destruct (finder_attributed_exists h s Hex) as [i Hattr].
    exists i. split; [exact Hattr|]. apply finder_notify_frame, Hattr. }
  split; [exact tester_notify_unmatched|].
  intros h now s Hex.
  destruct (tester_attributed_exists h s Hex) as [i Hattr].
  exists i. split; [exact Hattr|]. apply tester_notify_frame, Hattr.
Qed.

(** ** The tables of the scenarios *)

Lemma finder_bound7_Itag :
  Finder.Itag finder_bound7 =
    [ mk_itag "ff:ff:11:11:a2:fa" (Some 7%nat) true 0;
      mk_itag "ff:ff:22:21:ab:11" None false 0;
      mk_itag "ff:ff:77:70:4b:f0" None false 0 ].
Proof. vm_compute. reflexivity. Qed.

Lemma tester_bound7_Itag :
  Tester.Itag tester_bound7 =
    [ mk_itag "ff:ff:11:11:a2:fa" (Some 7%nat) true 0;
      mk_itag "ff:ff:22:21:ab:11" None false 0;
      mk_itag "ff:ff:77:70:4b:f0" None false 0 ].
Proof. vm_compute. reflexivity. Qed.

(** Go through the entries of a table given in full. *)
Ltac entries H :=
  repeat match type of H with
         | _ !! ?i = Some _ =>
             is_var i; destruct i; simpl in H;
             [ try (injection H as <-) | idtac ]
         | @eq (option itag_t) None (Some _) => discriminate H
         end.

Lemma finder_bound7_attributed : Finder.attributed 7 0 finder_bound7.
Proof.
  eexists. rewrite finder_bound7_Itag. simpl.
  split; [reflexivity|]. split; [reflexivity|]. intros k tk Hk. lia.
Qed.

Lemma tester_bound7_attributed : Tester.attributed 7 0 tester_bound7.
Proof.
  eexists. rewrite tester_bound7_Itag. simpl.
  split; [reflexivity|]. split; [reflexivity|]. intros k tk Hk. lia.
Qed.

Lemma notification_touches_one_entry_witness :
  Finder.notifyCallback 9 1000 finder_bound7 = finder_bound7 /\
  (exists i, Finder.attributed 7 i finder_bound7 /\
     (forall j, j <> i ->
        Finder.Itag (Finder.notifyCallback 7 1000 finder_bound7) !! j =
        Finder.Itag finder_bound7 !! j) /\
     (exists t t', Finder.Itag finder_bound7 !! i = Some t /\
        Finder.Itag (Finder.notifyCallback 7 1000 finder_bound7) !! i = Some t' /\
        same_but_oldmillis t t')) /\
  Tester.notifyCallback 9 1000 tester_bound7 = tester_bound7 /\
  (exists i, Tester.attributed 7 i tester_bound7 /\
     (forall j, j <> i ->
        Tester.Itag (Tester.notifyCallback 7 1000 tester_bound7) !! j =
        Tester.Itag tester_bound7 !! j) /\
     (exists t t', Tester.Itag tester_bound7 !! i = Some t /\
        Tester.Itag (Tester.notifyCallback 7 1000 tester_bound7) !! i = Some t' /\
        same_but_oldmillis t t')).
Proof.
  destruct notification_touches_one_entry as (F1 & F2 & T1 & T2).
  split.
  { apply F1. intros i t H. rewrite finder_bound7_Itag in H.
    entries H; simpl; discriminate. }
  split.
  { apply F2. exists 0%nat. eexists. rewrite finder_bound7_Itag.
    split; reflexivity. }
  split.
  { apply T1. intros i t H. rewrite tester_bound7_Itag in H.
    entries H; simpl; discriminate. }
  apply T2. exists 0%nat. eexists. rewrite tester_bound7_Itag.
  split; reflexivity.
Defined.

(** ** Debounce *)

(** When the event of the attributed entry is accepted, and what the
    state is then. *)
Lemma finder_notify_accept h now s i t :
  Finder.attributed h i s -> Finder.Itag s !! i = Some t ->
  let s' := Finder.notifyCallback h now s in
  (Finder.accepted i s s' <-> wrap32 (oldmillis t + 500) < wrap32 now) /\
  (Finder.accepted i s s' ->
     Finder.attributed h i s' /\
     Finder.Itag s' !! i =
       Some (mk_itag (ItagAddress t) (pRemChar t) (advertized t) (wrap32 now)) /\
     Finder.beeptimer s' = 500 /\ Finder.buzzer s' = 10).
Proof.
  intros (t0 & Hi0 & Hh & Hfirst) Hi s'. assert (t0 = t) as -> by congruence.
  subst s'. rewrite (finder_notify_matched h now s i t Hi Hh Hfirst).
  assert (Hlt : (i < length (Finder.Itag s))%nat) by (eapply lookup_lt_Some, Hi).
  destruct (Z.ltb_spec (wrap32 (oldmillis t + 500)) (wrap32 now)) as [Hc|Hc].
  - split; [split; [intros _; exact Hc|intros _; reflexivity]|].
    intros _. split; [|split; [|split; reflexivity]].
    + eexists. simpl. split; [apply list_lookup_insert_eq, Hlt|].
      split; [exact Hh|]. intros k tk Hk.
      rewrite list_lookup_insert_ne by lia. apply Hfirst, Hk.
    + simpl. apply list_lookup_insert_eq, Hlt.
  - split; [split|]; intros Hacc.
    + destruct (not_self_append _ _ Hacc).
    + lia.
    + destruct (not_self_append _ _ Hacc).
Qed.

Lemma tester_notify_accept h now s i t :
  Tester.attributed h i s -> Tester.Itag s !! i = Some t ->
  let s' := Tester.notifyCallback h now s in
  (Tester.accepted i s s' <-> wrap32 (oldmillis t + 500) < wrap32 now) /\
  (Tester.accepted i s s' ->
     Tester.attributed h i s' /\
     Tester.Itag s' !! i =
       Some (mk_itag (ItagAddress t) (pRemChar t) (advertized t) (wrap32 now))).
Proof.
  intros (t0 & Hi0 & Hh & Hfirst) Hi s'. assert (t0 = t) as -> by congruence.
  subst s'. rewrite (tester_notify_matched h now s i t Hi Hh Hfirst).
  assert (Hlt : (i < length (Tester.Itag s))%nat) by (eapply lookup_lt_Some, Hi).
  destruct (Z.ltb_spec (wrap32 (oldmillis t + 500)) (wrap32 now)) as [Hc|Hc].
  - split; [split; [intros _; exact Hc|intros _; reflexivity]|].
    intros _. split.
    + eexists. simpl. split; [apply list_lookup_insert_eq, Hlt|].
      split; [exact Hh|]. intros k tk Hk.
      rewrite list_lookup_insert_ne by lia. apply Hfirst, Hk.
    + simpl. apply list_lookup_insert_eq, Hlt.
  - split; [split|]; intros Hacc.
    + destruct (not_self_append _ _ Hacc).
    + lia.
    + destruct (not_self_append _ _ Hacc).
Qed.

(** C1, as the sketches have it.  Let two notifications be attributed to
    the same entry at [t] and [t + d], the first of them accepted (so that
    it is the entry's last accepted event), with neither [t + 500] nor
    [t + d] beyond the 32-bit clock.  Then the second is accepted if and
    only if [500 < d].  Every accepted event stores the current time in
    [oldmillis]; the finder sketch also starts the 500 ms beep, the test
    sketch has no buzzer. *)
Theorem debounce_after_accepted_event :
  (forall h i s t d,
     Finder.attributed h i s ->
     0 <= t -> 0 <= d -> t + 500 < 2 ^ 32 -> t + d < 2 ^ 32 ->
     let s1 := Finder.notifyCallback h t s in
     let s2 := Finder.notifyCallback h (t + d) s1 in
     Finder.accepted i s s1 ->
     (Finder.accepted i s1 s2 <-> 500 < d)) /\
  (forall h i s now,
     Finder.attributed h i s ->
     let s' := Finder.notifyCallback h now s in
     Finder.accepted i s s' ->
     Finder.old i s' = Some (wrap32 now) /\
     Finder.beeptimer s' = 500 /\ Finder.buzzer s' = 10) /\
  (forall h i s t d,
     Tester.attributed h i s ->
     0 <= t -> 0 <= d -> t + 500 < 2 ^ 32 -> t + d < 2 ^ 32 ->
     let s1 := Tester.notifyCallback h t s in
     let s2 := Tester.notifyCallback h (t + d) s1 in
     Tester.accepted i s s1 ->
     (Tester.accepted i s1 s2 <-> 500 < d)) /\
  (forall h i s now,
     Tester.attributed h i s ->
     let s' := Tester.notifyCallback h now s in
     Tester.accepted i s s' ->
     Tester.old i s' = Some (wrap32 now)).
Proof.
  split; [|split; [|split]].
  - intros h i s t d Hattr Ht Hd Ht500 Htd s1 s2 Hacc1.
    destruct Hattr as (t0 & Hi & Hrest).
    assert (Hattr : Finder.attributed h i s) by (exists t0; auto).
    destruct (finder_notify_accept h t s i t0 Hattr Hi) as [_ Hpost].
    destruct (Hpost Hacc1) as (Hattr1 & Hi1 & _).
    destruct (finder_notify_accept h (t + d) _ i _ Hattr1 Hi1) as [Hiff _].
    fold s1 s2 in Hiff. rewrite Hiff. simpl.
    rewrite (wrap32_small t), (wrap32_small (t + 500)), (wrap32_small (t + d))
      by lia.
    lia.
  - intros h i s now Hattr s' Hacc.
    destruct Hattr as (t0 & Hi & Hrest).
    assert (Hattr : Finder.attributed h i s) by (exists t0; auto).
    destruct (finder_notify_accept h now s i t0 Hattr Hi) as [_ Hpost].
    destruct (Hpost Hacc) as (_ & Hi' & Hbeep).
    split; [|exact Hbeep]. subst s'. unfold Finder.old. rewrite Hi'. reflexivity.
  - intros h i s t d Hattr Ht Hd Ht500 Htd s1 s2 Hacc1.
    destruct Hattr as (t0 & Hi & Hrest).
    assert (Hattr : Tester.attributed h i s) by (exists t0; auto).
    destruct (tester_notify_accept h t s i t0 Hattr Hi) as [_ Hpost].
    destruct (Hpost Hacc1) as (Hattr1 & Hi1).
    destruct (tester_notify_accept h (t + d) _ i _ Hattr1 Hi1) as [Hiff _].
    fold s1 s2 in Hiff. rewrite Hiff. simpl.
    rewrite (wrap32_small t), (wrap32_small (t + 500)), (wrap32_small (t + d))
      by lia.
    lia.
  - intros h i s now Hattr s' Hacc.
    destruct Hattr as (t0 & Hi & Hrest).
    assert (Hattr : Tester.attributed h i s) by (exists t0; auto).
    destruct (tester_notify_accept h now s i t0 Hattr Hi) as [_ Hpost].
    destruct (Hpost Hacc) as (_ & Hi').
    subst s'. unfold Tester.old. rewrite Hi'. reflexivity.
Qed.

Lemma debounce_after_accepted_event_witness :
  (Finder.accepted 0
     (Finder.notifyCallback 7 1000 finder_bound7)
     (Finder.notifyCallback 7 (1000 + 600)
        (Finder.notifyCallback 7 1000 finder_bound7)) <-> 500 < 600) /\
  (Finder.old 0 (Finder.notifyCallback 7 1000 finder_bound7)
     = Some (wrap32 1000) /\
   Finder.beeptimer (Finder.notifyCallback 7 1000 finder_bound7) = 500 /\
   Finder.buzzer (Finder.notifyCallback 7 1000 finder_bound7) = 10) /\
  (Tester.accepted 0
     (Tester.notifyCallback 7 1000 tester_bound7)
     (Tester.notifyCallback 7 (1000 + 600)
        (Tester.notifyCallback 7 1000 tester_bound7)) <-> 500 < 600) /\
  Tester.old 0 (Tester.notifyCallback 7 1000 tester_bound7)
     = Some (wrap32 1000).
Proof.
  destruct debounce_after_accepted_event as (F1 & F2 & T1 & T2).
  split; [|split; [|split]].
  - apply (F1 7%nat 0%nat finder_bound7 1000 600);
      [exact finder_bound7_attributed|lia|lia|lia|lia|].
    vm_compute. reflexivity.
  - apply (F2 7%nat 0%nat finder_bound7 1000);
      [exact finder_bound7_attributed|]. vm_compute. reflexivity.
  - apply (T1 7%nat 0%nat tester_bound7 1000 600);
      [exact tester_bound7_attributed|lia|lia|lia|lia|].
    vm_compute. reflexivity.
  - apply (T2 7%nat 0%nat tester_bound7 1000);
      [exact tester_bound7_attributed|]. vm_compute. reflexivity.
Defined.

(** C1 as stated fails: entry 0 has accepted an event at 1000 ms; of two
    further notifications at 1400 ms and 1600 ms the first is within the
    window and dropped, and the second, 200 ms after it, is accepted. *)
Lemma debounce_second_accepted_within_500 :
  let s := finder_pressed_1000 in
  let s1 := Finder.notifyCallback 7 1400 s in
  let s2 := Finder.notifyCallback 7 (1400 + 200) s1 in
  Finder.attributed 7 0 s /\ Finder.attributed 7 0 s1 /\
  Finder.accepted 0 s1 s2 /\
  ~ (Finder.accepted 0 s1 s2 <-> 500 < 200).
Proof.
  assert (Hattr : forall s : Finder.state,
             Finder.Itag s !! 0%nat
               = Some (mk_itag "ff:ff:11:11:a2:fa" (Some 7%nat) true 1000) ->
             Finder.attributed 7 0 s).
  { intros s Hs. eexists. split; [exact Hs|]. split; [reflexivity|].
    intros k tk Hk. lia. }
  assert (Hacc : Finder.accepted 0
            (Finder.notifyCallback 7 1400 finder_pressed_1000)
            (Finder.notifyCallback 7 (1400 + 200)
               (Finder.notifyCallback 7 1400 finder_pressed_1000)))
    by (vm_compute; reflexivity).
  split; [apply Hattr; vm_compute; reflexivity|].
  split; [apply Hattr; vm_compute; reflexivity|].
  split; [exact Hacc|].
  intros [Hlt _]. specialize (Hlt Hacc). lia.
Qed.

(** ** The comparison on the 32-bit clock *)

Lemma finder_notify_dropped h now s i t :
  Finder.attributed h i s -> Finder.Itag s !! i = Some t ->
  wrap32 now <= wrap32 (oldmillis t + 500) ->
  Finder.notifyCallback h now s = s.
Proof.
  intros (t0 & Hi0 & Hh & Hfirst) Hi Hle. assert (t0 = t) as -> by congruence.
  rewrite (finder_notify_matched h now s i t Hi Hh Hfirst).
  destruct (Z.ltb_spec (wrap32 (oldmillis t + 500)) (wrap32 now)); [lia|].
  reflexivity.
Qed.

Lemma tester_notify_dropped h now s i t :
  Tester.attributed h i s -> Tester.Itag s !! i = Some t ->
  wrap32 now <= wrap32 (oldmillis t + 500) ->
  Tester.notifyCallback h now s = s.
Proof.
  intros (t0 & Hi0 & Hh & Hfirst) Hi Hle. assert (t0 = t) as -> by congruence.
  rewrite (tester_notify_matched h now s i t Hi Hh Hfirst).
  destruct (Z.ltb_spec (wrap32 (oldmillis t + 500)) (wrap32 now)); [lia|].
  reflexivity.
Qed.

(** C10.  Every entry starts with [oldmillis = 0].  An attributed event
    is accepted exactly when [oldmillis + 500], reduced to 32 bits, is
    below the 32-bit reading of the clock.  So an event at [now <= 500] for
    an entry whose [oldmillis] is still 0 is dropped, the state being left
    as it was.  And the comparison does not survive the overflow of
    [oldmillis + 500]: with [oldmillis = 2^32 - 100] an event 50 ms later
    is accepted, and with [oldmillis = 2^32 - 600] an event 700 ms later,
    when the clock reads 100, is dropped.  In both sketches. *)
Theorem debounce_plain_comparison :
  Forall (fun t => oldmillis t = 0) (Finder.Itag (Finder.boot Itag_table)) /\
  Forall (fun t => oldmillis t = 0) (Tester.Itag (Tester.boot Itag_table)) /\
  (forall h i s t,
     Finder.attributed h i s -> Finder.Itag s !! i = Some t ->
     (forall now, Finder.accepted i s (Finder.notifyCallback h now s) <->
                  wrap32 (oldmillis t + 500) < wrap32 now) /\
     (forall now, oldmillis t = 0 -> 0 <= now <= 500 ->
                  Finder.notifyCallback h now s = s) /\
     (oldmillis t = 2 ^ 32 - 100 ->
        Finder.accepted i s (Finder.notifyCallback h (2 ^ 32 - 50) s)) /\
     (oldmillis t = 2 ^ 32 - 600 -> Finder.notifyCallback h 100 s = s)) /\
  (forall h i s t,
     Tester.attributed h i s -> Tester.Itag s !! i = Some t ->
     (forall now, Tester.accepted i s (Tester.notifyCallback h now s) <->
                  wrap32 (oldmillis t + 500) < wrap32 now) /\
     (forall now, oldmillis t = 0 -> 0 <= now <= 500 ->
                  Tester.notifyCallback h now s = s) /\
     (oldmillis t = 2 ^ 32 - 100 ->
        Tester.accepted i s (Tester.notifyCallback h (2 ^ 32 - 50) s)) /\
     (oldmillis t = 2 ^ 32 - 600 -> Tester.notifyCallback h 100 s = s)).
Proof.
  split; [repeat constructor|]. split; [repeat constructor|]. split.
  - intros h i s t Hattr Hi. split; [|split; [|split]].
    + intros now. apply (finder_notify_accept h now s i t Hattr Hi).
    + intros now Hold Hnow.
      apply (finder_notify_dropped h now s i t Hattr Hi).
      rewrite Hold, (wrap32_small now), (wrap32_small (0 + 500)) by lia. lia.
    + intros Hold.
      apply (finder_notify_accept h (2 ^ 32 - 50) s i t Hattr Hi).
      rewrite Hold. vm_compute. reflexivity.
    + intros Hold. apply (finder_notify_dropped h 100 s i t Hattr Hi).
      rewrite Hold. vm_compute. discriminate.
  - intros h i s t Hattr Hi. split; [|split; [|split]].
    + intros now. apply (tester_notify_accept h now s i t Hattr Hi).
    + intros now Hold Hnow.
      apply (tester_notify_dropped h now s i t Hattr Hi).
      rewrite Hold, (wrap32_small now), (wrap32_small (0 + 500)) by lia. lia.
    + intros Hold.
      apply (tester_notify_accept h (2 ^ 32 - 50) s i t Hattr Hi).
      rewrite Hold. vm_compute. reflexivity.
    + intros Hold. apply (tester_notify_dropped h 100 s i t Hattr Hi).
      rewrite Hold. vm_compute. discriminate.
Qed.

Lemma debounce_plain_comparison_witness :
  Finder.notifyCallback 7 300 finder_bound7 = finder_bound7 /\
  Tester.notifyCallback 7 300 tester_bound7 = tester_bound7 /\
  (let s := Finder.notifyCallback 7 (2 ^ 32 - 100) finder_bound7 in
   Finder.accepted 0 s (Finder.notifyCallback 7 (2 ^ 32 - 50) s)) /\
  (let s := Finder.notifyCallback 7 (2 ^ 32 - 600) finder_bound7 in
   Finder.notifyCallback 7 100 s = s).
Proof.
  destruct debounce_plain_comparison as (_ & _ & F & T).
  assert (Hattr : forall (s : Finder.state) z,
             Finder.Itag s !! 0%nat
               = Some (mk_itag "ff:ff:11:11:a2:fa" (Some 7%nat) true z) ->
             Finder.attributed 7 0 s).
  { intros s z Hs. eexists. split; [exact Hs|]. split; [reflexivity|].
    intros k tk Hk. lia. }
  split; [|split; [|split]].
  - refine (proj1 (proj2 (F 7%nat 0%nat finder_bound7 _
                            finder_bound7_attributed _)) 300 _ _).
    + rewrite finder_bound7_Itag. reflexivity.
    + reflexivity.
    + lia.
  - refine (proj1 (proj2 (T 7%nat 0%nat tester_bound7 _
                            tester_bound7_attributed _)) 300 _ _).
    + rewrite tester_bound7_Itag. reflexivity.
    + reflexivity.
    + lia.
  - intros s.
    assert (Hs : Finder.Itag s !! 0%nat
              = Some (mk_itag "ff:ff:11:11:a2:fa" (Some 7%nat) true (2 ^ 32 - 100)))
      by (vm_compute; reflexivity).
    refine (proj1 (proj2 (proj2 (F 7%nat 0%nat s _ (Hattr s _ Hs) Hs))) _).
    reflexivity.
  - intros s.
    assert (Hs : Finder.Itag s !! 0%nat
              = Some (mk_itag "ff:ff:11:11:a2:fa" (Some 7%nat) true (2 ^ 32 - 600)))
      by (vm_compute; reflexivity).
    refine (proj2 (proj2 (proj2 (F 7%nat 0%nat s _ (Hattr s _ Hs) Hs))) _).
    reflexivity.
Defined.

(** ** onDisconnect *)

Lemma finder_onDisconnect_matched mac s i t :
  Finder.Itag s !! i = Some t -> ItagAddress t = mac ->
  (forall k tk, (k < i)%nat -> Finder.Itag s !! k = Some tk ->
                ItagAddress tk <> mac) ->
  Finder.onDisconnect mac s =
    Finder.set_restartscan true
      (Finder.set_tag i (mk_itag (ItagAddress t) (pRemChar t) false (oldmillis t))
         (Finder.print (MsgDisconnected mac) s)).
Proof.
  intros Hi Hmac Hfirst. unfold Finder.onDisconnect. f_equal.
  apply (for_loop_first _ _ 0%nat i).
  - apply lookup_lt_Some in Hi. unfold Finder.NITAGS. simpl. lia.
  - intros k Hk. unfold Finder.onDisconnect_body. simpl.
    destruct (Finder.Itag s !! k) as [tk|] eqn:Hlk; [|reflexivity].
    apply (Hfirst k tk) in Hlk; [|lia].
    apply String.eqb_neq in Hlk. rewrite Hlk. reflexivity.
  - unfold Finder.onDisconnect_body. simpl. rewrite Hi.
    apply String.eqb_eq in Hmac. rewrite Hmac. reflexivity.
Qed.

Lemma finder_onDisconnect_unmatched mac s :
  (forall i t, Finder.Itag s !! i = Some t -> ItagAddress t <> mac) ->
  Finder.onDisconnect mac s =
    Finder.set_restartscan true (Finder.print (MsgDisconnected mac) s).
Proof.
  intros Hno. unfold Finder.onDisconnect. f_equal.
  apply for_loop_none. intros k _. unfold Finder.onDisconnect_body. simpl.
  destruct (Finder.Itag s !! k) as [tk|] eqn:Hlk; [|reflexivity].
  apply Hno, String.eqb_neq in Hlk. rewrite Hlk. reflexivity.
Qed.

(** C2, as the sketch has it.  When the link of an entry is reported lost,
    whatever the cause, [onDisconnect] finds the entry by its address,
    sets its [advertized] flag to false and asks for a scan restart.  It
    writes nothing else: the entry's [pRemChar] and [oldmillis] and every
    other entry are as before, and no request goes to the radio. *)
Theorem disconnect_clears_advertised s i t :
  Finder.Itag s !! i = Some t ->
  Finder.found_by_address (ItagAddress t) i s ->
  let s' := Finder.onDisconnect (ItagAddress t) s in
  Finder.Itag s' !! i
    = Some (mk_itag (ItagAddress t) (pRemChar t) false (oldmillis t)) /\
  (forall j, j <> i -> Finder.Itag s' !! j = Finder.Itag s !! j) /\
  Finder.restartscan s' = true /\
  Finder.radio s' = Finder.radio s.
Proof.
  intros Hi (t0 & Hi0 & Hmac & Hfirst) s'. subst s'.
  assert (t0 = t) as -> by congruence.
  rewrite (finder_onDisconnect_matched _ s i t Hi Hmac Hfirst).
  assert (Hlt : (i < length (Finder.Itag s))%nat) by (eapply lookup_lt_Some, Hi).
  simpl. rewrite list_lookup_insert_eq by exact Hlt.
  repeat split. intros j Hne. apply list_lookup_insert_ne. congruence.
Qed.

Lemma disconnect_clears_advertised_witness :
  let s' := Finder.onDisconnect tag0_mac finder_bound7 in
  Finder.Itag s' !! 0%nat = Some (mk_itag tag0_mac (Some 7%nat) false 0) /\
  (forall j, j <> 0%nat -> Finder.Itag s' !! j = Finder.Itag finder_bound7 !! j) /\
  Finder.restartscan s' = true /\
  Finder.radio s' = Finder.radio finder_bound7.
Proof.
  apply (disconnect_clears_advertised finder_bound7 0
           (mk_itag tag0_mac (Some 7%nat) true 0)).
  - rewrite finder_bound7_Itag. reflexivity.
  - eexists. rewrite finder_bound7_Itag. simpl.
    split; [reflexivity|]. split; [reflexivity|]. intros k tk Hk. lia.
Defined.

(** C2 as stated fails: entry 0 is connected and holds characteristic 7;
    when its link is lost the flag is cleared and the handle is still 7. *)
Lemma disconnect_keeps_pRemChar :
  let s' := Finder.deliver (DLost 0) finder_bound7 in
  Finder.isConnected 0 finder_bound7 = true /\
  s' = Finder.onDisconnect tag0_mac (Finder.set_connected 0 false finder_bound7) /\
  Finder.adv 0 s' = false /\
  Finder.rem 0 s' = Some (Some 7%nat) /\
  ~ (Finder.rem 0 s' = Some None /\ Finder.adv 0 s' = false).
Proof.
  split; [vm_compute; reflexivity|].
  split; [vm_compute; reflexivity|].
  split; [vm_compute; reflexivity|].
  split; [vm_compute; reflexivity|].
  intros [Hrem _]. vm_compute in Hrem. discriminate Hrem.
Qed.

(** ** What the callbacks leave alone *)

Lemma lookup_insert_fmap_same {A B} (f : A -> B) (l : list A) i j x y :
  l !! i = Some x -> f y = f x ->
  f <$> (<[i:=y]> l !! j) = f <$> (l !! j).
Proof.
  intros Hi Hf. destruct (decide (i = j)) as [->|Hne].
  - rewrite list_lookup_insert_eq by (eapply lookup_lt_Some, Hi).
    rewrite Hi. simpl. congruence.
  - rewrite list_lookup_insert_ne by exact Hne. reflexivity.
Qed.

Section FinderFrame.
Import Finder.

Lemma cb_frame_refl s : cb_frame s s.
Proof. repeat split; auto. Qed.

Lemma cb_frame_trans s1 s2 s3 : cb_frame s1 s2 -> cb_frame s2 s3 -> cb_frame s1 s3.
Proof.
  intros (Hr & Hn & Hl & Hm & Hp & Hs & Hc) (Hr' & Hn' & Hl' & Hm' & Hp' & Hs' & Hc').
  repeat split; try congruence; auto.
Qed.

(** A write to an entry that keeps its address and its [pRemChar]. *)
Lemma cb_frame_set_tag s i t t' :
  Itag s !! i = Some t -> ItagAddress t' = ItagAddress t ->
  pRemChar t' = pRemChar t -> cb_frame s (set_tag i t' s).
Proof.
  intros Hi Ha Hp. repeat split; auto.
  - intros j. apply (lookup_insert_fmap_same ItagAddress _ _ _ _ _ Hi Ha).
  - intros j. apply (lookup_insert_fmap_same pRemChar _ _ _ _ _ Hi Hp).
Qed.

Lemma cb_frame_print s m : cb_frame s (print m s).
Proof. repeat split; auto. Qed.

Lemma cb_frame_beep s d : cb_frame s (beep d s).
Proof. repeat split; auto. Qed.

Lemma cb_frame_restart s : cb_frame s (set_restartscan true s).
Proof. repeat split; auto. Qed.

Lemma cb_frame_set_connected s i b : cb_frame s (set_connected i b s).
Proof. repeat split; auto. simpl. apply length_insert. Qed.

(** A loop whose passes are callbacks' work is callbacks' work. *)
Lemma cb_frame_for_loop body n i s :
  (forall k s1, cb_frame s1 (body k s1).1) ->
  cb_frame s (for_loop body n i s).
Proof.
  intros Hbody. apply (for_loop_inv body (cb_frame s)); [|apply cb_frame_refl].
  intros k s1 Hs1. eapply cb_frame_trans; [exact Hs1|apply Hbody].
Qed.

Lemma cb_frame_onResult p s : cb_frame s (onResult p s).
Proof.
  apply cb_frame_for_loop. intros k s1. unfold onResult_body.
  destruct (Itag s1 !! k) as [t|] eqn:Hk; [|apply cb_frame_refl].
  destruct (advertized t); [apply cb_frame_refl|]. simpl.
  destruct (String.eqb (ItagAddress t) (adv_read p k)); [|apply cb_frame_refl]. simpl.
  eapply cb_frame_trans; [|apply cb_frame_print].
  apply (cb_frame_set_tag s1 k t); auto.
Qed.

Lemma cb_frame_onConnect mac s : cb_frame s (onConnect mac s).
Proof. repeat split; auto. Qed.

Lemma cb_frame_onDisconnect mac s : cb_frame s (onDisconnect mac s).
Proof.
  unfold onDisconnect.
  eapply cb_frame_trans; [|apply cb_frame_restart].
  eapply cb_frame_trans; [apply (cb_frame_print s (MsgDisconnected mac))|].
  apply cb_frame_for_loop. intros k s1. unfold onDisconnect_body.
  destruct (Itag s1 !! k) as [t|] eqn:Hk; [|apply cb_frame_refl].
  destruct (String.eqb (ItagAddress t) mac); [|apply cb_frame_refl]. simpl.
  apply (cb_frame_set_tag s1 k t); auto.
Qed.

Lemma cb_frame_notifyCallback h now s : cb_frame s (notifyCallback h now s).
Proof.
  apply cb_frame_for_loop. intros k s1. unfold notifyCallback_body.
  destruct (Itag s1 !! k) as [t|] eqn:Hk; [|apply cb_frame_refl].
  destruct (ptr_eqb (pRemChar t) h); [|apply cb_frame_refl]. simpl.
  destruct (wrap32 (oldmillis t + 500) <? wrap32 now); [|apply cb_frame_refl].
  eapply cb_frame_trans; [|apply cb_frame_beep].
  eapply cb_frame_trans; [|apply cb_frame_print].
  apply (cb_frame_set_tag s1 k t); auto.
Qed.

Lemma cb_frame_deliver e s : cb_frame s (deliver e s).
Proof.
  destruct e as [p|j|h now]; simpl.
  - apply cb_frame_onResult.
  - destruct (peer_mac j s) as [mac|]; [|apply cb_frame_refl].
    destruct (isConnected j s); [|apply cb_frame_refl].
    eapply cb_frame_trans; [apply cb_frame_set_connected|].
    apply cb_frame_onDisconnect.
  - apply cb_frame_notifyCallback.
Qed.

Lemma cb_frame_deliver_all es : forall s, cb_frame s (deliver_all es s).
Proof.
  induction es as [|e es IH]; intros s; simpl; [apply cb_frame_refl|].
  eapply cb_frame_trans; [apply cb_frame_deliver|apply IH].
Qed.

Lemma cb_frame_link_up i s : cb_frame s (link_up i s).
Proof.
  unfold link_up. destruct (peer_mac i s) as [mac|]; [|apply cb_frame_refl].
  eapply cb_frame_trans; [apply cb_frame_set_connected|].
  apply cb_frame_onConnect.
Qed.

(** The connect call sends its one request and then only callbacks run. *)
Lemma cb_frame_client_connect i a s :
  cb_frame (request (RConnect i) s) (client_connect i a s).
Proof.
  unfold client_connect.
  eapply cb_frame_trans; [apply cb_frame_deliver_all|].
  eapply cb_frame_trans; [|apply cb_frame_deliver_all].
  destruct (up a); [apply cb_frame_link_up|apply cb_frame_refl].
Qed.

End FinderFrame.

(** ** connectToServer after the connect call *)

Section FinderConnect.
Import Finder.

Lemma finder_read_battery_fields a s :
  Itag (read_battery a s) = Itag s /\
  connected (read_battery a s) = connected s /\
  restartscan (read_battery a s) = restartscan s /\
  beeptimer (read_battery a s) = beeptimer s /\
  buzzer (read_battery a s) = buzzer s /\
  actled (read_battery a s) = actled s /\
  newcontime (read_battery a s) = newcontime s /\
  exists l, radio (read_battery a s) = radio s ++ l /\
            Forall (fun r => is_gatt_op r = true) l.
Proof.
  unfold read_battery. destruct (battery a) as [[v|]|]; simpl;
    repeat split; try reflexivity.
  - exists [RReadValue]. split; [reflexivity|]. repeat constructor.
  - exists []. split; [symmetry; apply app_nil_r|]. constructor.
  - exists []. split; [symmetry; apply app_nil_r|]. constructor.
Qed.

Lemma finder_subscribe_button_fields bc s :
  Itag (subscribe_button bc s) = Itag s /\
  connected (subscribe_button bc s) = connected s /\
  restartscan (subscribe_button bc s) = restartscan s /\
  beeptimer (subscribe_button bc s) = beeptimer s /\
  buzzer (subscribe_button bc s) = buzzer s /\
  actled (subscribe_button bc s) = actled s /\
  newcontime (subscribe_button bc s) = newcontime s /\
  exists l, radio (subscribe_button bc s) = radio s ++ l /\
            Forall (fun r => is_gatt_op r = true) l.
Proof.
  unfold subscribe_button.
  destruct (bc_canNotify bc), (bc_subscribe bc); simpl;
    repeat split; try reflexivity;
    solve [ eexists [_]; split; [reflexivity|]; repeat constructor
          | exists []; split; [symmetry; apply app_nil_r|]; constructor ].
Qed.

Lemma finder_set_pRemChar_fields i p s :
  connected (set_pRemChar i p s) = connected s /\
  restartscan (set_pRemChar i p s) = restartscan s /\
  beeptimer (set_pRemChar i p s) = beeptimer s /\
  buzzer (set_pRemChar i p s) = buzzer s /\
  actled (set_pRemChar i p s) = actled s /\
  newcontime (set_pRemChar i p s) = newcontime s /\
  radio (set_pRemChar i p s) = radio s /\
  serial (set_pRemChar i p s) = serial s.
Proof.
  unfold set_pRemChar. destruct (Itag s !! i); simpl; repeat split.
Qed.

(** The table after [connectToServer]: that after the connect call, with
    [pRemChar] of entry [i] rewritten when the link is up and the button
    service is found. *)
Lemma finder_connectToServer_Itag i a s :
  Itag (connectToServer i a s) =
    let s1 := client_connect i a s in
    if negb (isConnected i s1) || negb (res a) then Itag s1
    else match button a with
         | Some c => Itag (set_pRemChar i (bc_handle <$> c) s1)
         | None => Itag s1
         end.
Proof.
  unfold connectToServer. simpl.
  destruct (negb (isConnected i (client_connect i a s)) || negb (res a));
    [reflexivity|].
  set (s1 := client_connect i a s).
  destruct (finder_read_battery_fields a s1) as (Hb & _).
  destruct (button a) as [c|]; simpl; [|exact Hb].
  assert (Hset : Itag (set_pRemChar i (bc_handle <$> c)
                         (print MsgFoundButton (read_battery a s1)))
                 = Itag (set_pRemChar i (bc_handle <$> c) s1)).
  { unfold set_pRemChar. simpl. rewrite Hb.
    destruct (Itag s1 !! i); simpl; rewrite ?Hb; reflexivity. }
  destruct c as [bc|]; [|exact Hset].
  rewrite (proj1 (finder_subscribe_button_fields bc _)). exact Hset.
Qed.

(** Everything else after [connectToServer] is as after the connect call,
    but for the serial line and the requests to read and to subscribe. *)
Lemma finder_connectToServer_fields i a s :
  let s1 := client_connect i a s in
  let s' := connectToServer i a s in
  connected s' = connected s1 /\ restartscan s' = restartscan s1 /\
  beeptimer s' = beeptimer s1 /\ buzzer s' = buzzer s1 /\
  actled s' = actled s1 /\ newcontime s' = newcontime s1 /\
  exists l, radio s' = radio s1 ++ l /\
            Forall (fun r => is_gatt_op r = true) l.
Proof.
  intros s1 s'. subst s'. unfold connectToServer. fold s1.
  assert (Hnil : forall s0 : state, exists l, radio s0 = radio s0 ++ l /\
                   Forall (fun r => is_gatt_op r = true) l).
  { intros s0. exists []. split; [symmetry; apply app_nil_r|]. constructor. }
  destruct (negb (isConnected i s1) || negb (res a));
    [simpl; repeat split; apply Hnil|].
  destruct (finder_read_battery_fields a s1)
    as (_ & Hc & Hr & Hbt & Hbz & Hl & Hn & lb & Hlb & Hfb).
  destruct (button a) as [c|]; unfold NOTIFY; cbv iota.
  - set (X := print MsgFoundButton (read_battery a s1)).
    destruct (finder_set_pRemChar_fields i (bc_handle <$> c) X)
      as (Hc' & Hr' & Hbt' & Hbz' & Hl' & Hn' & Hrad' & _).
    cbv zeta. fold X. set (Y := set_pRemChar i (bc_handle <$> c) X) in *.
    assert (HY : connected Y = connected s1 /\ restartscan Y = restartscan s1 /\
                 beeptimer Y = beeptimer s1 /\ buzzer Y = buzzer s1 /\
                 actled Y = actled s1 /\ newcontime Y = newcontime s1 /\
                 radio Y = radio s1 ++ lb).
    { subst X. simpl in Hc', Hr', Hbt', Hbz', Hl', Hn', Hrad'.
      repeat split; congruence. }
    destruct HY as (Hc1 & Hr1 & Hbt1 & Hbz1 & Hl1 & Hn1 & Hrad1).
    destruct c as [bc|].
    + destruct (finder_subscribe_button_fields bc Y)
        as (_ & Hc2 & Hr2 & Hbt2 & Hbz2 & Hl2 & Hn2 & ls & Hls & Hfs).
      repeat split; try congruence.
      exists (lb ++ ls). split; [|apply Forall_app; auto].
      rewrite Hls, Hrad1. apply eq_sym, app_assoc.
    + repeat split; try assumption. exists lb. auto.
  - simpl. repeat split; try assumption. exists lb. auto.
Qed.

End FinderConnect.

Section TesterConnect.
Import Tester.

Lemma tester_read_battery_fields a s :
  Itag (read_battery a s) = Itag s /\
  connected (read_battery a s) = connected s /\
  exists l, radio (read_battery a s) = radio s ++ l /\
            Forall (fun r => is_gatt_op r = true) l.
Proof.
  unfold read_battery. destruct (battery a) as [[v|]|]; simpl;
    repeat split; try reflexivity.
  - exists [RReadValue]. split; [reflexivity|]. repeat constructor.
  - exists []. split; [symmetry; apply app_nil_r|]. constructor.
  - exists []. split; [symmetry; apply app_nil_r|]. constructor.
Qed.

Lemma tester_set_pRemChar_fields i p s :
  connected (set_pRemChar i p s) = connected s /\
  radio (set_pRemChar i p s) = radio s.
Proof.
  unfold set_pRemChar. destruct (Itag s !! i); simpl; repeat split.
Qed.

Lemma tester_connectToServer_Itag i a s :
  Itag (connectToServer i a s) =
    let s1 := client_connect i a s in
    if negb (isConnected i s1) || negb (res a) then Itag s1
    else match button a with
         | Some c => Itag (set_pRemChar i (bc_handle <$> c) s1)
         | None => Itag s1
         end.
Proof.
  unfold connectToServer. simpl.
  destruct (negb (isConnected i (client_connect i a s)) || negb (res a));
    [reflexivity|].
  set (s1 := client_connect i a s).
  destruct (tester_read_battery_fields a s1) as (Hb & _).
  destruct (button a) as [c|]; simpl; [|exact Hb].
  assert (Hset : Itag (set_pRemChar i (bc_handle <$> c)
                         (print MsgFoundButton (read_battery a s1)))
                 = Itag (set_pRemChar i (bc_handle <$> c) s1)).
  { unfold set_pRemChar. simpl. rewrite Hb.
    destruct (Itag s1 !! i); simpl; rewrite ?Hb; reflexivity. }
  destruct c as [bc|]; exact Hset.
Qed.

Lemma tester_connectToServer_fields i a s :
  let s1 := client_connect i a s in
  let s' := connectToServer i a s in
  connected s' = connected s1 /\
  exists l, radio s' = radio s1 ++ l /\
            Forall (fun r => is_gatt_op r = true) l.
Proof.
  intros s1 s'. subst s'. unfold connectToServer. fold s1.
  destruct (negb (isConnected i s1) || negb (res a)).
  { simpl. split; [reflexivity|]. exists [].
    split; [symmetry; apply app_nil_r|]. constructor. }
  destruct (tester_read_battery_fields a s1) as (_ & Hc & lb & Hlb & Hfb).
  destruct (button a) as [c|].
  - set (X := print MsgFoundButton (read_battery a s1)).
    destruct (tester_set_pRemChar_fields i (bc_handle <$> c) X) as (Hc' & Hrad').
    cbv zeta. fold X. set (Y := set_pRemChar i (bc_handle <$> c) X) in *.
    subst X. simpl in Hc', Hrad'. destruct c as [bc|]; simpl.
    + split; [congruence|]. exists (lb ++ [RSubscribe (bc_handle bc)]).
      split; [|apply Forall_app; split; [exact Hfb|repeat constructor]].
      rewrite Hrad', Hlb. apply eq_sym, app_assoc.
    + split; [congruence|]. exists lb. split; [congruence|exact Hfb].
  - simpl. split; [exact Hc|]. exists lb. auto.
Qed.

End TesterConnect.

(** C7, as the sketches have it.  Once the connect call has succeeded,
    nothing in the rest of [connectToServer] takes the link down: the
    clients' connection status is as the connect call left it and the only
    further requests are the read of the battery value and the
    subscription.  [pRemChar] of the entry is written exactly when the
    button service is found: it then is the button characteristic, bound
    whether or not that can notify and whether or not the subscription is
    taken, or NULL when the service has no such characteristic; with no
    button service it keeps its value.  The other fields of the entry and
    all other entries are as the connect call left them.  In both
    sketches. *)
Theorem connect_success_is_best_effort :
  (forall i a s t,
     let s1 := Finder.client_connect i a s in
     let s' := Finder.connectToServer i a s in
     Finder.isConnected i s1 = true -> res a = true ->
     Finder.Itag s1 !! i = Some t ->
     Finder.connected s' = Finder.connected s1 /\
     (exists l, Finder.radio s' = Finder.radio s1 ++ l /\
                Forall (fun r => is_gatt_op r = true) l) /\
     Finder.Itag s' !! i =
       Some (mk_itag (ItagAddress t)
                     (match button a with
                      | Some c => bc_handle <$> c
                      | None => pRemChar t
                      end)
                     (advertized t) (oldmillis t)) /\
     (forall j, j <> i -> Finder.Itag s' !! j = Finder.Itag s1 !! j)) /\
  (forall i a s t,
     let s1 := Tester.client_connect i a s in
     let s' := Tester.connectToServer i a s in
     Tester.isConnected i s1 = true -> res a = true ->
     Tester.Itag s1 !! i = Some t ->
     Tester.connected s' = Tester.connected s1 /\
     (exists l, Tester.radio s' = Tester.radio s1 ++ l /\
                Forall (fun r => is_gatt_op r = true) l) /\
     Tester.Itag s' !! i =
       Some (mk_itag (ItagAddress t)
                     (match button a with
                      | Some c => bc_handle <$> c
                      | None => pRemChar t
                      end)
                     (advertized t) (oldmillis t)) /\
     (forall j, j <> i -> Tester.Itag s' !! j = Tester.Itag s1 !! j)).
Proof.
  split.
  - intros i a s t s1 s' Hconn Hres Hi.
    destruct (finder_connectToServer_fields i a s) as (Hc & _ & _ & _ & _ & _ & Hrad).
    split; [exact Hc|]. split; [exact Hrad|].
    subst s'. rewrite finder_connectToServer_Itag. cbv zeta. fold s1.
    rewrite Hconn, Hres. simpl.
    assert (Hlt : (i < length (Finder.Itag s1))%nat) by (eapply lookup_lt_Some, Hi).
    destruct (button a) as [c|].
    + unfold Finder.set_pRemChar. rewrite Hi. simpl. split.
      * apply list_lookup_insert_eq, Hlt.
      * intros j Hne. apply list_lookup_insert_ne. congruence.
    + split; [|reflexivity]. rewrite Hi. destruct t; reflexivity.
  - intros i a s t s1 s' Hconn Hres Hi.
    destruct (tester_connectToServer_fields i a s) as (Hc & Hrad).
    split; [exact Hc|]. split; [exact Hrad|].
    subst s'. rewrite tester_connectToServer_Itag. cbv zeta. fold s1.
    rewrite Hconn, Hres. simpl.
    assert (Hlt : (i < length (Tester.Itag s1))%nat) by (eapply lookup_lt_Some, Hi).
    destruct (button a) as [c|].
    + unfold Tester.set_pRemChar. rewrite Hi. simpl. split.
      * apply list_lookup_insert_eq, Hlt.
      * intros j Hne. apply list_lookup_insert_ne. congruence.
    + split; [|reflexivity]. rewrite Hi. destruct t; reflexivity.
Qed.

Lemma connect_success_is_best_effort_witness :
  (let s1 := Finder.client_connect 0 bind7_mute finder_seen0 in
   let s' := Finder.connectToServer 0 bind7_mute finder_seen0 in
   Finder.connected s' = Finder.connected s1 /\
   (exists l, Finder.radio s' = Finder.radio s1 ++ l /\
              Forall (fun r => is_gatt_op r = true) l) /\
   Finder.Itag s' !! 0%nat = Some (mk_itag tag0_mac (Some 7%nat) true 0) /\
   (forall j, j <> 0%nat -> Finder.Itag s' !! j = Finder.Itag s1 !! j)) /\
  (let s1 := Tester.client_connect 0 bind7_mute tester_seen0 in
   let s' := Tester.connectToServer 0 bind7_mute tester_seen0 in
   Tester.connected s' = Tester.connected s1 /\
   (exists l, Tester.radio s' = Tester.radio s1 ++ l /\
              Forall (fun r => is_gatt_op r = true) l) /\
   Tester.Itag s' !! 0%nat = Some (mk_itag tag0_mac (Some 7%nat) true 0) /\
   (forall j, j <> 0%nat -> Tester.Itag s' !! j = Tester.Itag s1 !! j)).
Proof.
  destruct connect_success_is_best_effort as (F & T).
  split.
  - apply (F 0%nat bind7_mute finder_seen0 (mk_itag tag0_mac None true 0));
      vm_compute; reflexivity.
  - apply (T 0%nat bind7_mute tester_seen0 (mk_itag tag0_mac None true 0));
      vm_compute; reflexivity.
Defined.

(** C7 as stated fails in the finder sketch: the connect succeeds, the
    button characteristic 7 is found and cannot notify, and the entry's
    [pRemChar] is 7 all the same. *)
Lemma bound_without_notify_support :
  let s' := Finder.connectToServer 0 bind7_mute finder_seen0 in
  Finder.NOTIFY = true /\
  Finder.isConnected 0 s' = true /\
  button bind7_mute = Some (Some (mk_button 7 false false false)) /\
  Finder.rem 0 finder_seen0 = Some None /\
  Finder.rem 0 s' = Some (Some 7%nat) /\
  ~ (Finder.rem 0 s' = Some (Some 7%nat) <->
     exists bc, button bind7_mute = Some (Some bc) /\ bc_handle bc = 7%nat /\
                bc_canNotify bc = true).
Proof.
  assert (Hrem : Finder.rem 0 (Finder.connectToServer 0 bind7_mute finder_seen0)
                 = Some (Some 7%nat)) by (vm_compute; reflexivity).
  repeat split; try (vm_compute; reflexivity).
  intros [Hto _]. destruct (Hto Hrem) as (bc & Hbc & _ & Hcan).
  injection Hbc as <-. discriminate Hcan.
Qed.

(** ** Loops that never break *)

Section ForLoopNoBreak.
Context {St : Type}.
Variable body : nat -> St -> St * bool.

(** A property indexed by the loop counter. *)
Lemma for_loop_indexed (P : nat -> St -> Prop) n : forall i s,
  (forall k s1, (i <= k < i + n)%nat -> P k s1 ->
                (body k s1).2 = false /\ P (S k) (body k s1).1) ->
  P i s -> P (i + n)%nat (for_loop body n i s).
Proof.
  induction n as [|n IH]; intros i s Hbody Hs; simpl.
  - replace (i + 0)%nat with i by lia. exact Hs.
  - destruct (Hbody i s ltac:(lia) Hs) as [Hbrk Hnext].
    destruct (body i s) as [s' brk]. simpl in Hbrk, Hnext. subst brk.
    replace (i + S n)%nat with (S i + n)%nat by lia.
    apply IH; [|exact Hnext]. intros k s1 Hk. apply Hbody. lia.
Qed.

Hypothesis never_breaks : forall k s, (body k s).2 = false.

Lemma for_loop_split n m : forall i s,
  for_loop body (n + m) i s = for_loop body m (i + n) (for_loop body n i s).
Proof.
  induction n as [|n IH]; intros i s; simpl.
  - replace (i + 0)%nat with i by lia. reflexivity.
  - pose proof (never_breaks i s) as Hbrk.
    destruct (body i s) as [s' brk]. simpl in Hbrk. subst brk.
    rewrite IH. f_equal. lia.
Qed.

Lemma for_loop_step n i s :
  for_loop body (S n) i s = for_loop body n (S i) (body i s).1.
Proof.
  simpl. pose proof (never_breaks i s) as Hbrk.
  destruct (body i s) as [s' brk]. simpl in Hbrk. subst brk. reflexivity.
Qed.

End ForLoopNoBreak.

(** ** The requests of one pass *)

Section FinderRadio.
Import Finder.

Lemma loop_body_never_breaks env k s : (loop_body env k s).2 = false.
Proof.
  unfold loop_body. destruct (Itag s !! k) as [t|]; [|reflexivity].
  destruct (advertized t); [|reflexivity].
  destruct (negb (isConnected k (digitalWrite true s))); reflexivity.
Qed.

(** [connectToServer] asks for the connect, then at most for a read and a
    subscription. *)
Lemma finder_connectToServer_radio i a s :
  exists l, radio (connectToServer i a s) = radio s ++ RConnect i :: l /\
            Forall (fun r => is_gatt_op r = true) l.
Proof.
  destruct (finder_connectToServer_fields i a s)
    as (_ & _ & _ & _ & _ & _ & l & Hl & Hgatt).
  exists l. split; [|exact Hgatt].
  rewrite Hl. destruct (cb_frame_client_connect i a s) as (Hr & _).
  rewrite Hr. simpl. rewrite <- app_assoc. reflexivity.
Qed.

Lemma gatt_is_no_scan r : is_gatt_op r = true -> is_scan_op r = false.
Proof. destruct r; simpl; congruence. Qed.

(** One pass of the for loop of [loop()] adds no scan request. *)
Lemma loop_body_radio env k s :
  exists l, radio (loop_body env k s).1 = radio s ++ l /\
            Forall (fun r => is_scan_op r = false) l.
Proof.
  assert (Hnil : exists l, radio s = radio s ++ l /\
                           Forall (fun r => is_scan_op r = false) l).
  { exists []. split; [symmetry; apply app_nil_r|]. constructor. }
  unfold loop_body. destruct (Itag s !! k) as [t|]; [|exact Hnil].
  destruct (advertized t); [|exact Hnil].
  destruct (negb (isConnected k (digitalWrite true s))); [|exact Hnil].
  simpl.
  destruct (finder_connectToServer_radio k (answer env k)
              (print (MsgTry k (ItagAddress t)) (digitalWrite true s)))
    as (l & Hl & Hgatt).
  exists (RConnect k :: l). split; [exact Hl|].
  constructor; [reflexivity|].
  eapply Forall_impl; [exact Hgatt|]. intros r. apply gatt_is_no_scan.
Qed.

Lemma connect_phase_radio env s :
  exists l, radio (connect_phase env s) = radio s ++ l /\
            Forall (fun r => is_scan_op r = false) l.
Proof.
  unfold connect_phase.
  destruct (newcontime s <? wrap32 (t_begin env)).
  - simpl.
    apply (for_loop_inv (loop_body env)
             (fun s1 => exists l, radio s1 = radio s ++ l /\
                          Forall (fun r => is_scan_op r = false) l)).
    + intros k s1 (l1 & Hl1 & Hf1).
      destruct (loop_body_radio env k s1) as (l2 & Hl2 & Hf2).
      exists (l1 ++ l2). split; [|apply Forall_app; auto].
      rewrite Hl2, Hl1. apply eq_sym, app_assoc.
    + exists []. split; [symmetry; apply app_nil_r|]. constructor.
  - exists []. split; [symmetry; apply app_nil_r|]. constructor.
Qed.

Lemma handle_beeptimer_fields s :
  Itag (handle_beeptimer s) = Itag s /\
  radio (handle_beeptimer s) = radio s /\
  restartscan (handle_beeptimer s) = restartscan s /\
  actled (handle_beeptimer s) = actled s /\
  newcontime (handle_beeptimer s) = newcontime s /\
  connected (handle_beeptimer s) = connected s.
Proof.
  unfold handle_beeptimer. destruct (0 <? beeptimer s); [|repeat split].
  simpl. destruct (beeptimer s - 100 <=? 0); repeat split.
Qed.

End FinderRadio.

(** C4, in the finder sketch.  No callback of the library asks anything of
    the radio: [onResult], [onConnect], [onDisconnect], [notifyCallback]
    and [scanEndedCB] leave the list of requests as it is, and [onConnect]
    and [onDisconnect] only raise [restartscan].  In a pass of [loop()]
    the connect part adds no scan request; after it, if and only if
    [restartscan] is raised, the pass stops the scan, clears the results
    and starts a scan without end, once, and the flag is down when the
    pass ends. *)
Theorem scan_restart_is_deferred :
  (forall p s, Finder.radio (Finder.onResult p s) = Finder.radio s) /\
  (forall mac s, Finder.radio (Finder.onConnect mac s) = Finder.radio s /\
                 Finder.restartscan (Finder.onConnect mac s) = true) /\
  (forall mac s, Finder.radio (Finder.onDisconnect mac s) = Finder.radio s /\
                 Finder.restartscan (Finder.onDisconnect mac s) = true) /\
  (forall h now s, Finder.radio (Finder.notifyCallback h now s) = Finder.radio s) /\
  (forall s, Finder.radio (Finder.scanEndedCB s) = Finder.radio s) /\
  (forall env s,
     exists l, Finder.radio (Finder.connect_phase env s) = Finder.radio s ++ l /\
               Forall (fun r => Finder.is_scan_op r = false) l) /\
  (forall env s,
     Finder.radio (Finder.loop env s) =
       Finder.radio (Finder.connect_phase env s) ++
       (if Finder.restartscan (Finder.connect_phase env s)
        then [RScanStop; RClearResults; RScanStart 0] else [])) /\
  (forall env s, Finder.restartscan (Finder.loop env s) = false).
Proof.
  split; [intros p s; apply (cb_frame_onResult p s)|].
  split; [intros mac s; split; reflexivity|].
  split; [intros mac s; split;
          [apply (cb_frame_onDisconnect mac s)|reflexivity]|].
  split; [intros h now s; apply (cb_frame_notifyCallback h now s)|].
  split; [reflexivity|].
  split; [exact connect_phase_radio|].
  split; intros env s; unfold Finder.loop;
    destruct (handle_beeptimer_fields
                (Finder.restart_phase (Finder.connect_phase env s)))
      as (_ & Hr & Hs & _).
  - rewrite Hr. unfold Finder.restart_phase.
    destruct (Finder.restartscan (Finder.connect_phase env s)); simpl.
    + rewrite <- !app_assoc. reflexivity.
    + symmetry. apply app_nil_r.
  - rewrite Hs. unfold Finder.restart_phase.
    destruct (Finder.restartscan (Finder.connect_phase env s)) eqn:E;
      [reflexivity|exact E].
Qed.

(** ** A connect attempt of loop() *)

Section FinderAttempt.
Import Finder.

(** What the pass for an entry does when the entry is advertised and its
    client is not connected. *)
Lemma loop_body_attempt env i s t :
  Itag s !! i = Some t -> advertized t = true -> isConnected i s = false ->
  (loop_body env i s).1 =
    beep 1000 (connectToServer i (answer env i)
                 (print (MsgTry i (ItagAddress t)) (digitalWrite true s))).
Proof.
  intros Hi Hadv Hconn. unfold loop_body. rewrite Hi, Hadv.
  change (isConnected i (digitalWrite true s)) with (isConnected i s).
  rewrite Hconn. reflexivity.
Qed.

Lemma restartscan_link_up i s mac :
  peer_mac i s = Some mac -> restartscan (link_up i s) = true.
Proof.
  intros Hmac. unfold link_up. rewrite Hmac. reflexivity.
Qed.

Lemma restartscan_client_connect_up i a s mac :
  peer_mac i s = Some mac -> up a = true ->
  restartscan (client_connect i a s) = true.
Proof.
  intros Hmac Hup. unfold client_connect. rewrite Hup.
  set (s1 := deliver_all (before a) (request (RConnect i) s)).
  destruct (cb_frame_deliver_all (after a) (link_up i s1))
    as (_ & _ & _ & _ & _ & Hmono & _).
  apply Hmono. apply (restartscan_link_up i s1 mac).
  destruct (cb_frame_deliver_all (before a) (request (RConnect i) s))
    as (_ & _ & _ & Hpeer & _).
  fold s1 in Hpeer. rewrite Hpeer. exact Hmac.
Qed.

Lemma client_connect_quiet_down i a s :
  quiet a -> up a = false -> client_connect i a s = request (RConnect i) s.
Proof.
  intros [Hb Ha] Hup. unfold client_connect. rewrite Hb, Ha, Hup. reflexivity.
Qed.

End FinderAttempt.

(** C3, as the sketch has it.  Every connect attempt of [loop()], made for
    an advertised entry whose client is not connected, sends the connect
    request and is followed by the long beep, whatever the outcome.  The
    restart request is not raised by the attempt but by the callbacks:
    it is raised when the link comes up, [onConnect] being run; when the
    link does not come up and no callback arrives during the call, the
    flag is as it was before the attempt. *)
Theorem connect_attempt_feedback env i s t :
  Finder.Itag s !! i = Some t -> advertized t = true ->
  Finder.isConnected i s = false ->
  let a := answer env i in
  let s' := (Finder.loop_body env i s).1 in
  (exists l, Finder.radio s' = Finder.radio s ++ RConnect i :: l) /\
  Finder.beeptimer s' = 1000 /\ Finder.buzzer s' = 10 /\
  (up a = true -> Finder.restartscan s' = true) /\
  (up a = false -> Finder.quiet a ->
   Finder.restartscan s' = Finder.restartscan s).
Proof.
  intros Hi Hadv Hconn a s'. subst s'.
  rewrite (loop_body_attempt env i s t Hi Hadv Hconn). fold a.
  set (s2 := Finder.print (MsgTry i (ItagAddress t)) (Finder.digitalWrite true s)).
  destruct (finder_connectToServer_fields i a s2) as (_ & Hrs & _).
  split; [|split; [reflexivity|split; [reflexivity|]]].
  - destruct (finder_connectToServer_radio i a s2) as (l & Hl & _).
    exists l. exact Hl.
  - change (Finder.restartscan (Finder.beep 1000 (Finder.connectToServer i a s2)))
      with (Finder.restartscan (Finder.connectToServer i a s2)).
    rewrite Hrs. split.
    + intros Hup.
      apply (restartscan_client_connect_up i a s2 (ItagAddress t)); [|exact Hup].
      unfold Finder.peer_mac, s2. simpl. rewrite Hi. reflexivity.
    + intros Hup Hquiet. rewrite (client_connect_quiet_down i a s2 Hquiet Hup).
      reflexivity.
Qed.

Lemma connect_attempt_feedback_witness :
  let s' := (Finder.loop_body tick_bind7 0 finder_seen0).1 in
  (exists l, Finder.radio s' = Finder.radio finder_seen0 ++ RConnect 0 :: l) /\
  Finder.beeptimer s' = 1000 /\ Finder.buzzer s' = 10 /\
  (up bind7 = true -> Finder.restartscan s' = true) /\
  (up bind7 = false -> Finder.quiet bind7 ->
   Finder.restartscan s' = Finder.restartscan finder_seen0).
Proof.
  apply (connect_attempt_feedback tick_bind7 0 finder_seen0
           (mk_itag tag0_mac None true 0)); vm_compute; reflexivity.
Defined.

(** C3 as stated fails: entry 0 is advertised, the pass tries to connect,
    the link does not come up; the long beep is started, and no restart of
    the scan is asked for or made. *)
Lemma failed_attempt_requests_no_restart :
  let s1 := Finder.connect_phase tick_no_link finder_seen0 in
  let s' := Finder.loop tick_no_link finder_seen0 in
  Finder.radio s1 = Finder.radio finder_seen0 ++ [RConnect 0] /\
  Finder.beeptimer s1 = 1000 /\
  Finder.restartscan s1 = false /\
  Finder.radio s' = Finder.radio finder_seen0 ++ [RConnect 0] /\
  ~ (Finder.restartscan s1 = true).
Proof.
  repeat split; try (vm_compute; reflexivity).
  vm_compute. discriminate.
Qed.

(** ** A pass without callbacks of their own *)

Section FinderQuiet.
Import Finder.

Lemma Itag_link_up i s : Itag (link_up i s) = Itag s.
Proof. unfold link_up. destruct (peer_mac i s); reflexivity. Qed.

Lemma client_connect_quiet_Itag i a s :
  quiet a -> Itag (client_connect i a s) = Itag s.
Proof.
  intros [Hb Ha]. unfold client_connect. rewrite Hb, Ha. simpl.
  destruct (up a); [rewrite Itag_link_up|]; reflexivity.
Qed.

Lemma client_connect_quiet_connected i a s :
  quiet a ->
  connected (client_connect i a s) = connected s \/
  connected (client_connect i a s) = <[i:=true]> (connected s).
Proof.
  intros [Hb Ha]. unfold client_connect. rewrite Hb, Ha. simpl.
  destruct (up a); [|left; reflexivity].
  unfold link_up. simpl. destruct (peer_mac i (request (RConnect i) s));
    [right|left]; reflexivity.
Qed.

(** With no callback of its own during the call, [connectToServer] writes
    at most the [pRemChar] of its entry. *)
Lemma finder_connectToServer_quiet_Itag i a s :
  quiet a ->
  Itag (connectToServer i a s) = Itag s \/
  exists t p, Itag s !! i = Some t /\
    Itag (connectToServer i a s) =
      <[i:=mk_itag (ItagAddress t) p (advertized t) (oldmillis t)]> (Itag s).
Proof.
  intros Hq. rewrite finder_connectToServer_Itag. cbv zeta.
  pose proof (client_connect_quiet_Itag i a s Hq) as Hs1.
  destruct (negb (isConnected i (client_connect i a s)) || negb (res a));
    [left; exact Hs1|].
  destruct (button a) as [c|]; [|left; exact Hs1].
  unfold set_pRemChar. rewrite Hs1.
  destruct (Itag s !! i) as [t|] eqn:Hi; [|left; exact Hs1].
  right. exists t, (bc_handle <$> c). split; [reflexivity|].
  simpl. rewrite Hs1. reflexivity.
Qed.

Lemma loop_body_quiet_Itag env k s :
  quiet (answer env k) ->
  Itag (loop_body env k s).1 = Itag s \/
  exists t p, Itag s !! k = Some t /\
    Itag (loop_body env k s).1 =
      <[k:=mk_itag (ItagAddress t) p (advertized t) (oldmillis t)]> (Itag s).
Proof.
  intros Hq. unfold loop_body.
  destruct (Itag s !! k) as [t|] eqn:Hk; [|left; reflexivity].
  destruct (advertized t); [|left; reflexivity].
  destruct (negb (isConnected k (digitalWrite true s))); [|left; reflexivity].
  simpl.
  destruct (finder_connectToServer_quiet_Itag k (answer env k)
              (print (MsgTry k (ItagAddress t)) (digitalWrite true s)) Hq)
    as [Hsame|(t' & p & Hk' & Hins)].
  - left. exact Hsame.
  - right. exists t', p. simpl in Hk'. split; [congruence|exact Hins].
Qed.

Lemma loop_body_quiet_connected env k s :
  quiet (answer env k) ->
  connected (loop_body env k s).1 = connected s \/
  connected (loop_body env k s).1 = <[k:=true]> (connected s).
Proof.
  intros Hq. unfold loop_body.
  destruct (Itag s !! k) as [t|]; [|left; reflexivity].
  destruct (advertized t); [|left; reflexivity].
  destruct (negb (isConnected k (digitalWrite true s))); [|left; reflexivity].
  simpl.
  set (s2 := print (MsgTry k (ItagAddress t)) (digitalWrite true s)).
  destruct (finder_connectToServer_fields k (answer env k) s2) as (Hc & _).
  rewrite Hc. apply (client_connect_quiet_connected k (answer env k) s2 Hq).
Qed.




End FinderQuiet.




(** ** A failed connect and the next try *)

Section FinderRetry.
Import Finder.

Lemma finder_connectToServer_failed i a s :
  isConnected i (client_connect i a s) = false \/ res a = false ->
  connectToServer i a s = print (MsgNoConnection i) (client_connect i a s).
Proof.
  intros Hfail. unfold connectToServer.
  assert (negb (isConnected i (client_connect i a s)) || negb (res a) = true)
    as ->; [|reflexivity].
  destruct Hfail as [-> | ->]; [reflexivity|apply orb_true_r].
Qed.

Lemma radio_grows_loop_body env k s :
  radio s `prefix_of` radio (loop_body env k s).1.
Proof. destruct (loop_body_radio env k s) as (l & Hl & _). exists l. exact Hl. Qed.

Lemma radio_grows_for_loop env n i s :
  radio s `prefix_of` radio (for_loop (loop_body env) n i s).
Proof.
  apply (for_loop_inv (loop_body env) (fun s1 => radio s `prefix_of` radio s1));
    [|reflexivity].
  intros k s1 Hs1. etrans; [exact Hs1|apply radio_grows_loop_body].
Qed.

Lemma radio_grows_restart_phase s : radio s `prefix_of` radio (restart_phase s).
Proof.
  unfold restart_phase. destruct (restartscan s); [|reflexivity].
  exists [RScanStop; RClearResults; RScanStart 0]. simpl.
  rewrite <- !app_assoc. reflexivity.
Qed.

(** An entry that is advertised and not connected when a pass with the
    timer due begins is tried in that pass, if no callback arrives on its
    own during the tries before it. *)
Lemma connect_phase_tries env s i t :
  Itag s !! i = Some t -> advertized t = true -> isConnected i s = false ->
  newcontime s < wrap32 (t_begin env) ->
  (forall k, (k < i)%nat -> quiet (answer env k)) ->
  exists l1 l2, radio (connect_phase env s) = radio s ++ l1 ++ RConnect i :: l2.
Proof.
  intros Hi Hadv Hconn Hdue Hq. unfold connect_phase.
  destruct (Z.ltb_spec (newcontime s) (wrap32 (t_begin env))); [|lia].
  simpl. set (s0 := digitalWrite false s).
  assert (Hlt : (i < length (Itag s))%nat) by (eapply lookup_lt_Some, Hi).
  change (NITAGS s0) with (length (Itag s)).
  replace (length (Itag s)) with (i + S (length (Itag s) - S i))%nat by lia.
  rewrite (for_loop_split _ (loop_body_never_breaks env)).
  change (0 + i)%nat with i.
  set (si := for_loop (loop_body env) i 0 s0).
  assert (Hsi : Itag si !! i = Some t /\ isConnected i si = false /\
                radio s `prefix_of` radio si).
  { pose proof (for_loop_indexed (loop_body env)
                  (fun k s1 => Itag s1 !! i = Some t /\
                               isConnected i s1 = false /\
                               radio s `prefix_of` radio s1)
                  i 0 s0) as Hind.
    apply Hind; [|repeat split; [exact Hi|exact Hconn|reflexivity]].
    intros k s1 Hk (Hi1 & Hc1 & Hr1).
    split; [apply loop_body_never_breaks|]. split; [|split].
    - destruct (loop_body_quiet_Itag env k s1 (Hq k ltac:(lia)))
        as [-> | (t' & p & _ & ->)]; [exact Hi1|].
      rewrite list_lookup_insert_ne by lia. exact Hi1.
    - unfold isConnected in *.
      destruct (loop_body_quiet_connected env k s1 (Hq k ltac:(lia)))
        as [-> | ->]; [exact Hc1|].
      rewrite list_lookup_insert_ne by lia. exact Hc1.
    - etrans; [exact Hr1|apply radio_grows_loop_body]. }
  destruct Hsi as (Hi' & Hc' & l1 & Hl1).
  rewrite (for_loop_step _ (loop_body_never_breaks env)).
  rewrite (loop_body_attempt env i si t Hi' Hadv Hc').
  set (s2 := print (MsgTry i (ItagAddress t)) (digitalWrite true si)).
  destruct (finder_connectToServer_radio i (answer env i) s2) as (l & Hl & _).
  destruct (radio_grows_for_loop env (length (Itag s) - S i) (S i)
              (beep 1000 (connectToServer i (answer env i) s2))) as (l3 & Hl3).
  exists l1, (l ++ l3). rewrite Hl3. simpl. rewrite Hl. unfold s2. simpl.
  rewrite Hl1. rewrite <- !app_assoc. reflexivity.
Qed.

End FinderRetry.

(** C6, as the sketch has it.  When a connect attempt fails, because
    [connect] returns false or the client is not connected after the
    call, and no callback arrived on its own during the call, the table
    is as before the attempt, every field of every entry: the entry is
    still advertised and its [pRemChar] is as it was.  If the link did
    not come up, the whole state is as before but for the request and
    the report, so the entry is as advertised and as little connected as
    it was.  A pass of
    [loop()] with the timer due sets the timer 5000 ms after its end, and
    tries every entry that is advertised and not connected when it
    begins, no callback arriving during the tries before it. *)
Theorem failed_connect_leaves_table :
  (forall i a s,
     Finder.quiet a ->
     Finder.isConnected i (Finder.client_connect i a s) = false \/ res a = false ->
     let s' := Finder.connectToServer i a s in
     Finder.Itag s' = Finder.Itag s /\
     (up a = false ->
      s' = Finder.print (MsgNoConnection i) (Finder.request (RConnect i) s))) /\
  (forall env s,
     Finder.newcontime s < wrap32 (t_begin env) ->
     Finder.newcontime (Finder.loop env s) = wrap32 (wrap32 (t_end env) + 5000) /\
     forall i t,
       Finder.Itag s !! i = Some t -> advertized t = true ->
       Finder.isConnected i s = false ->
       (forall k, (k < i)%nat -> Finder.quiet (answer env k)) ->
       exists l1 l2,
         Finder.radio (Finder.loop env s) = Finder.radio s ++ l1 ++ RConnect i :: l2).
Proof.
  split.
  - intros i a s Hq Hfail. cbv zeta.
    rewrite (finder_connectToServer_failed i a s Hfail).
    split; [simpl; apply client_connect_quiet_Itag, Hq|].
    intros Hup. rewrite (client_connect_quiet_down i a s Hq Hup).
    reflexivity.
  - intros env s Hdue. unfold Finder.loop.
    destruct (handle_beeptimer_fields
                (Finder.restart_phase (Finder.connect_phase env s)))
      as (_ & Hr & _ & _ & Hn & _).
    rewrite Hr, Hn. split.
    + unfold Finder.restart_phase.
      destruct (Finder.restartscan (Finder.connect_phase env s));
        unfold Finder.connect_phase;
        (destruct (Z.ltb_spec (Finder.newcontime s) (wrap32 (t_begin env)));
         [reflexivity|lia]).
    + intros i t Hi Hadv Hconn Hq.
      destruct (connect_phase_tries env s i t Hi Hadv Hconn Hdue Hq)
        as (l1 & l2 & Hl).
      destruct (radio_grows_restart_phase (Finder.connect_phase env s))
        as (l3 & Hl3).
      exists l1, (l2 ++ l3). rewrite Hl3, Hl.
      rewrite <- !app_assoc. reflexivity.
Qed.

Lemma failed_connect_leaves_table_witness :
  (let s' := Finder.connectToServer 0 no_link finder_seen0 in
   Finder.Itag s' = Finder.Itag finder_seen0 /\
   (up no_link = false ->
    s' = Finder.print (MsgNoConnection 0)
           (Finder.request (RConnect 0) finder_seen0))) /\
  Finder.newcontime (Finder.loop tick_retry finder_failed0)
    = wrap32 (wrap32 11000 + 5000) /\
  exists l1 l2,
    Finder.radio (Finder.loop tick_retry finder_failed0)
      = Finder.radio finder_failed0 ++ l1 ++ RConnect 0 :: l2.
Proof.
  destruct failed_connect_leaves_table as (Hfail & Hretry).
  split.
  - apply Hfail; [split; reflexivity|]. left. vm_compute. reflexivity.
  - destruct (Hretry tick_retry finder_failed0) as (Hn & Htry).
    + vm_compute. reflexivity.
    + split; [exact Hn|].
      apply (Htry 0%nat (mk_itag tag0_mac None true 0));
        try (vm_compute; reflexivity).
      intros k Hk. lia.
Defined.

(** C6 as stated fails on two counts.  A link that comes up and is lost
    again while [connect] blocks leaves the client not connected, so the
    attempt fails and reports it; [onDisconnect] has run meanwhile and
    the entry is no longer advertised.  A [connect] that returns false
    with the link up fails and reports it too, but the client stays
    connected, and the pass after the 5 s does not try the entry again. *)
Lemma failed_connect_changes_entry :
  (let s' := Finder.connectToServer 0 dropped_in_call finder_seen0 in
   Finder.isConnected 0 (Finder.client_connect 0 dropped_in_call finder_seen0)
     = false /\
   last (Finder.serial s') = Some (MsgNoConnection 0) /\
   Finder.adv 0 finder_seen0 = true /\
   Finder.adv 0 s' = false /\
   Finder.Itag s' <> Finder.Itag finder_seen0) /\
  (res refused_with_link = false /\
   MsgNoConnection 0 ∈ Finder.serial finder_refused0_retry /\
   Finder.adv 0 finder_refused0_retry = true /\
   Finder.newcontime finder_refused0_retry = 16000 /\
   conn_ids (Finder.radio finder_refused0_retry) = [0%nat]).
Proof.
  split.
  - cbv zeta. repeat split; try (vm_compute; reflexivity).
    vm_compute. discriminate.
  - repeat split; try (vm_compute; reflexivity).
    vm_compute. apply list_elem_of_In. simpl. tauto.
Qed.

(** ** Connected entries *)

Section FinderLinked.
Import Finder.

Lemma cb_frame_addresses s s' :
  cb_frame s s' -> ItagAddress <$> Itag s' = ItagAddress <$> Itag s.
Proof.
  intros (_ & _ & _ & Hpeer & _). apply list_eq. intros i.
  rewrite !list_lookup_fmap. apply Hpeer.
Qed.

(** What a callback may do to the flags: [onResult] raises them and
    [notifyCallback] leaves them, and neither touches the clients. *)
Lemma onResult_flags p s :
  connected (onResult p s) = connected s /\
  forall i, adv i s = true -> adv i (onResult p s) = true.
Proof.
  apply (for_loop_inv (onResult_body p)
           (fun s1 => connected s1 = connected s /\
                      forall i, adv i s = true -> adv i s1 = true));
    [|split; auto].
  intros k s1 [Hc Hadv]. unfold onResult_body.
  destruct (Itag s1 !! k) as [t|] eqn:Hk; [|split; assumption].
  destruct (advertized t); [split; assumption|]. simpl.
  destruct (String.eqb (ItagAddress t) (adv_read p k)); [|split; assumption]. simpl.
  split; [exact Hc|]. intros i Hi. specialize (Hadv i Hi).
  unfold adv in *. simpl. destruct (decide (k = i)) as [->|Hne].
  - rewrite list_lookup_insert_eq by (eapply lookup_lt_Some, Hk). reflexivity.
  - rewrite list_lookup_insert_ne by exact Hne. exact Hadv.
Qed.

Lemma notifyCallback_flags h now s :
  connected (notifyCallback h now s) = connected s /\
  forall i, adv i (notifyCallback h now s) = adv i s.
Proof.
  apply (for_loop_inv (notifyCallback_body h (wrap32 now))
           (fun s1 => connected s1 = connected s /\
                      forall i, adv i s1 = adv i s));
    [|split; auto].
  intros k s1 [Hc Hadv]. unfold notifyCallback_body.
  destruct (Itag s1 !! k) as [t|] eqn:Hk; [|split; assumption].
  destruct (ptr_eqb (pRemChar t) h); [|split; assumption]. simpl.
  destruct (wrap32 (oldmillis t + 500) <? wrap32 now); [|split; assumption].
  simpl. split; [exact Hc|]. intros i. rewrite <- Hadv.
  unfold adv. simpl. destruct (decide (k = i)) as [->|Hne].
  - rewrite list_lookup_insert_eq by (eapply lookup_lt_Some, Hk).
    rewrite Hk. reflexivity.
  - rewrite list_lookup_insert_ne by exact Hne. reflexivity.
Qed.

(** With addresses all different, the entry found for the address of
    entry [j] is entry [j]. *)
Lemma found_by_own_address s j t :
  NoDup (ItagAddress <$> Itag s) -> Itag s !! j = Some t ->
  found_by_address (ItagAddress t) j s.
Proof.
  intros Hnd Hj. exists t. split; [exact Hj|]. split; [reflexivity|].
  intros k tk Hk Hlk Heq.
  assert (k = j); [|lia].
  apply (NoDup_lookup _ k j (ItagAddress t) Hnd);
    rewrite list_lookup_fmap; [rewrite Hlk|rewrite Hj]; simpl; congruence.
Qed.

Lemma onDisconnect_flags s j t :
  NoDup (ItagAddress <$> Itag s) -> Itag s !! j = Some t ->
  connected (onDisconnect (ItagAddress t) s) = connected s /\
  forall i, i <> j -> adv i (onDisconnect (ItagAddress t) s) = adv i s.
Proof.
  intros Hnd Hj.
  destruct (found_by_own_address s j t Hnd Hj) as (t0 & Hj0 & Hmac & Hfirst).
  rewrite (finder_onDisconnect_matched _ s j t Hj eq_refl Hfirst).
  split; [reflexivity|]. intros i Hne. unfold adv. simpl.
  rewrite list_lookup_insert_ne by congruence. reflexivity.
Qed.

End FinderLinked.

Section FinderInvariant.
Import Finder.

Lemma isConnected_lost i j s :
  isConnected j s = true ->
  isConnected i (set_connected j false s)
    = if decide (i = j) then false else isConnected i s.
Proof.
  intros Hj. unfold isConnected in *. simpl.
  destruct (decide (i = j)) as [->|Hne].
  - rewrite list_lookup_insert_eq; [reflexivity|].
    destruct (connected s !! j) eqn:E; [|discriminate Hj].
    eapply lookup_lt_Some, E.
  - rewrite list_lookup_insert_ne by congruence. reflexivity.
Qed.

Lemma isConnected_up i k s :
  isConnected i (set_connected k true s) = true ->
  i = k \/ isConnected i s = true.
Proof.
  unfold isConnected. simpl. destruct (decide (i = k)) as [->|Hne]; [auto|].
  rewrite list_lookup_insert_ne by congruence. auto.
Qed.

(** A callback that arrives on its own keeps connected entries advertised,
    and leaves an entry that waits for its link as it is. *)
Lemma deliver_flags e s :
  NoDup (ItagAddress <$> Itag s) ->
  (linked_advertised s -> linked_advertised (deliver e s)) /\
  (forall k, isConnected k s = false -> adv k s = true ->
             isConnected k (deliver e s) = false /\ adv k (deliver e s) = true).
Proof.
  intros Hnd. destruct e as [p|j|h now]; simpl.
  - destruct (onResult_flags p s) as [Hc Hadv]. split.
    + intros Hl i Hi. apply Hadv, Hl. unfold isConnected in *.
      rewrite <- Hc. exact Hi.
    + intros k Hk Ha. split; [|apply Hadv, Ha].
      unfold isConnected in *. rewrite Hc. exact Hk.
  - unfold peer_mac. destruct (Itag s !! j) as [t|] eqn:Hj; simpl; [|auto].
    destruct (isConnected j s) eqn:Hcj; [|auto].
    destruct (onDisconnect_flags (set_connected j false s) j t Hnd Hj)
      as [Hc Hadv].
    assert (Hconn : forall i,
               isConnected i (onDisconnect (ItagAddress t) (set_connected j false s))
               = if decide (i = j) then false else isConnected i s).
    { intros i. rewrite <- (isConnected_lost i j s Hcj).
      unfold isConnected. rewrite Hc. reflexivity. }
    split.
    + intros Hl i Hi. rewrite Hconn in Hi.
      destruct (decide (i = j)) as [->|Hne]; [discriminate Hi|].
      rewrite (Hadv i Hne). apply Hl, Hi.
    + intros k Hk Ha. rewrite Hconn.
      destruct (decide (k = j)) as [->|Hne]; [congruence|].
      split; [exact Hk|]. rewrite (Hadv k Hne). exact Ha.
  - destruct (notifyCallback_flags h now s) as [Hc Hadv]. split.
    + intros Hl i Hi. rewrite Hadv. apply Hl. unfold isConnected in *.
      rewrite <- Hc. exact Hi.
    + intros k Hk Ha. split; [|rewrite Hadv; exact Ha].
      unfold isConnected in *. rewrite Hc. exact Hk.
Qed.

Lemma deliver_all_flags es : forall s,
  NoDup (ItagAddress <$> Itag s) ->
  (linked_advertised s -> linked_advertised (deliver_all es s)) /\
  (forall k, isConnected k s = false -> adv k s = true ->
             isConnected k (deliver_all es s) = false /\
             adv k (deliver_all es s) = true).
Proof.
  induction es as [|e es IH]; intros s Hnd; simpl; [auto|].
  destruct (deliver_flags e s Hnd) as [Hl Hp].
  assert (Hnd' : NoDup (ItagAddress <$> Itag (deliver e s)))
    by (rewrite (cb_frame_addresses _ _ (cb_frame_deliver e s)); exact Hnd).
  destruct (IH (deliver e s) Hnd') as [Hl' Hp'].
  split; [auto|]. intros k Hk Ha. destruct (Hp k Hk Ha). auto.
Qed.

Lemma link_up_linked k s :
  linked_advertised s -> adv k s = true -> linked_advertised (link_up k s).
Proof.
  intros Hl Hk i Hi. unfold link_up in *.
  destruct (peer_mac k s); [|apply Hl, Hi].
  change (adv i s = true).
  change (isConnected i (set_connected k true s) = true) in Hi.
  destruct (isConnected_up i k s Hi) as [->|Hi']; [exact Hk|apply Hl, Hi'].
Qed.

(** The connect call for an advertised entry that is not connected keeps
    connected entries advertised. *)
Lemma client_connect_linked i a s :
  NoDup (ItagAddress <$> Itag s) -> linked_advertised s ->
  adv i s = true -> isConnected i s = false ->
  linked_advertised (client_connect i a s).
Proof.
  intros Hnd Hl Ha Hc. unfold client_connect.
  set (s0 := request (RConnect i) s).
  destruct (deliver_all_flags (before a) s0 Hnd) as [Hl1 Hp1].
  destruct (Hp1 i Hc Ha) as [Hc1 Ha1].
  set (s1 := deliver_all (before a) s0) in *.
  assert (Hnd1 : NoDup (ItagAddress <$> Itag s1))
    by (unfold s1; rewrite (cb_frame_addresses _ _ (cb_frame_deliver_all _ s0));
        exact Hnd).
  destruct (up a).
  - apply deliver_all_flags.
    + rewrite Itag_link_up. exact Hnd1.
    + apply link_up_linked; [apply Hl1, Hl|exact Ha1].
  - apply deliver_all_flags; [exact Hnd1|apply Hl1, Hl].
Qed.

Lemma adv_set_pRemChar j i p s : adv j (set_pRemChar i p s) = adv j s.
Proof.
  unfold set_pRemChar, adv. destruct (Itag s !! i) as [t|] eqn:Hi; [|reflexivity].
  simpl. destruct (decide (i = j)) as [->|Hne].
  - rewrite list_lookup_insert_eq by (eapply lookup_lt_Some, Hi).
    rewrite Hi. reflexivity.
  - rewrite list_lookup_insert_ne by exact Hne. reflexivity.
Qed.

Lemma peer_mac_set_pRemChar j i p s :
  peer_mac j (set_pRemChar i p s) = peer_mac j s.
Proof.
  unfold set_pRemChar, peer_mac. destruct (Itag s !! i) as [t|] eqn:Hi;
    [|reflexivity].
  simpl. apply (lookup_insert_fmap_same ItagAddress _ _ _ _ _ Hi). reflexivity.
Qed.

Lemma adv_connectToServer j i a s :
  adv j (connectToServer i a s) = adv j (client_connect i a s).
Proof.
  unfold adv at 1. rewrite finder_connectToServer_Itag. cbv zeta.
  destruct (negb (isConnected i (client_connect i a s)) || negb (res a));
    [reflexivity|].
  destruct (button a) as [c|]; [|reflexivity]. apply adv_set_pRemChar.
Qed.

Lemma peer_mac_connectToServer j i a s :
  peer_mac j (connectToServer i a s) = peer_mac j s.
Proof.
  destruct (cb_frame_client_connect i a s) as (_ & _ & _ & Hpeer & _).
  rewrite <- (Hpeer j : peer_mac j (client_connect i a s) = peer_mac j s).
  unfold peer_mac at 1. rewrite finder_connectToServer_Itag. cbv zeta.
  destruct (negb (isConnected i (client_connect i a s)) || negb (res a));
    [reflexivity|].
  destruct (button a) as [c|]; [|reflexivity]. apply peer_mac_set_pRemChar.
Qed.

End FinderInvariant.

Section FinderPass.
Import Finder.

Lemma rem_set_pRemChar j i p s :
  rem j (set_pRemChar i p s) = rem j s \/
  (j = i /\ rem j (set_pRemChar i p s) = Some p).
Proof.
  unfold set_pRemChar, rem. destruct (Itag s !! i) as [t|] eqn:Hi; [|auto].
  simpl. destruct (decide (i = j)) as [->|Hne].
  - right. split; [reflexivity|].
    rewrite list_lookup_insert_eq by (eapply lookup_lt_Some, Hi). reflexivity.
  - left. rewrite list_lookup_insert_ne by exact Hne. reflexivity.
Qed.

(** [connectToServer] writes no [pRemChar] but that of its entry, and
    that with what the library presents for the button service. *)
Lemma rem_connectToServer j i a s :
  rem j (connectToServer i a s) = rem j s \/
  (j = i /\ exists c, button a = Some c /\
            rem j (connectToServer i a s) = Some (bc_handle <$> c)).
Proof.
  destruct (cb_frame_client_connect i a s) as (_ & _ & _ & _ & Hrem & _).
  pose proof (Hrem j : rem j (client_connect i a s) = rem j s) as Hj.
  unfold rem at 1 3. rewrite finder_connectToServer_Itag. cbv zeta.
  destruct (negb (isConnected i (client_connect i a s)) || negb (res a));
    [left; exact Hj|].
  destruct (button a) as [c|]; [|left; exact Hj].
  destruct (rem_set_pRemChar j i (bc_handle <$> c) (client_connect i a s))
    as [Hsame|[-> Hset]].
  - left. etrans; [exact Hsame|exact Hj].
  - right. split; [reflexivity|]. exists c. auto.
Qed.

Lemma loop_body_cases env k s :
  (loop_body env k s).1 = s \/
  (loop_body env k s).1 = digitalWrite true s \/
  exists t, Itag s !! k = Some t /\ advertized t = true /\
    isConnected k s = false /\
    (loop_body env k s).1 =
      beep 1000 (connectToServer k (answer env k)
                   (print (MsgTry k (ItagAddress t)) (digitalWrite true s))).
Proof.
  unfold loop_body. destruct (Itag s !! k) as [t|] eqn:Hk; [|auto].
  destruct (advertized t) eqn:Ha; [|auto].
  change (isConnected k (digitalWrite true s)) with (isConnected k s).
  destruct (isConnected k s) eqn:Hc; simpl; [auto|].
  right. right. exists t. auto.
Qed.

(** One pass of the for loop keeps the addresses, the number of clients
    and the connected entries advertised, and writes [pRemChar] as
    [connectToServer] does. *)
Lemma loop_body_keeps env k s :
  NoDup (ItagAddress <$> Itag s) -> linked_advertised s ->
  let s' := (loop_body env k s).1 in
  ItagAddress <$> Itag s' = ItagAddress <$> Itag s /\
  length (connected s') = length (connected s) /\
  linked_advertised s' /\
  forall j, rem j s' = rem j s \/
            exists c, button (answer env j) = Some c /\
                      rem j s' = Some (bc_handle <$> c).
Proof.
  intros Hnd Hl s'. subst s'.
  destruct (loop_body_cases env k s)
    as [-> | [-> | (t & Hk & Ha & Hc & ->)]]; [auto| auto |].
  set (s2 := print (MsgTry k (ItagAddress t)) (digitalWrite true s)).
  set (a := answer env k).
  destruct (finder_connectToServer_fields k a s2) as (Hconn & _).
  assert (Ha2 : adv k s2 = true) by (unfold adv, s2; simpl; rewrite Hk; exact Ha).
  split; [|split; [|split]].
  - apply list_eq. intros j. rewrite !list_lookup_fmap.
    apply (peer_mac_connectToServer j k a s2).
  - simpl. rewrite Hconn.
    destruct (cb_frame_client_connect k a s2) as (_ & _ & _ & _ & _ & _ & Hlen).
    exact Hlen.
  - intros j Hj.
    change (adv j (connectToServer k a s2) = true).
    change (isConnected j (connectToServer k a s2) = true) in Hj.
    rewrite adv_connectToServer.
    apply (client_connect_linked k a s2 Hnd Hl Ha2 Hc).
    unfold isConnected in *. rewrite <- Hconn. exact Hj.
  - intros j.
    destruct (rem_connectToServer j k a s2) as [Hsame|[-> (c & Hc' & Hset)]].
    + left. exact Hsame.
    + right. exists c. auto.
Qed.

(** The same for a whole pass of [loop()]. *)
Lemma loop_keeps env s :
  NoDup (ItagAddress <$> Itag s) -> linked_advertised s ->
  ItagAddress <$> Itag (loop env s) = ItagAddress <$> Itag s /\
  length (connected (loop env s)) = length (connected s) /\
  linked_advertised (loop env s) /\
  forall j, rem j (loop env s) = rem j s \/
            exists c, button (answer env j) = Some c /\
                      rem j (loop env s) = Some (bc_handle <$> c).
Proof.
  intros Hnd Hl.
  assert (Hphase :
    let s1 := connect_phase env s in
    ItagAddress <$> Itag s1 = ItagAddress <$> Itag s /\
    length (connected s1) = length (connected s) /\
    linked_advertised s1 /\
    forall j, rem j s1 = rem j s \/
              exists c, button (answer env j) = Some c /\
                        rem j s1 = Some (bc_handle <$> c)).
  { unfold connect_phase.
    destruct (newcontime s <? wrap32 (t_begin env)); [|simpl; auto].
    cbv zeta.
    apply (for_loop_inv (loop_body env)
             (fun s1 =>
                ItagAddress <$> Itag s1 = ItagAddress <$> Itag s /\
                length (connected s1) = length (connected s) /\
                linked_advertised s1 /\
                forall j, rem j s1 = rem j s \/
                          exists c, button (answer env j) = Some c /\
                                    rem j s1 = Some (bc_handle <$> c)));
      [|simpl; auto].
    intros k s1 (Ha1 & Hc1 & Hl1 & Hr1).
    destruct (loop_body_keeps env k s1) as (Ha2 & Hc2 & Hl2 & Hr2);
      [rewrite Ha1; exact Hnd|exact Hl1|].
    split; [congruence|]. split; [congruence|]. split; [exact Hl2|].
    intros j. destruct (Hr2 j) as [Hsame|Hset]; [|auto].
    rewrite Hsame. apply Hr1. }
  unfold loop.
  destruct (handle_beeptimer_fields (restart_phase (connect_phase env s)))
    as (Hi & _ & _ & _ & _ & Hc).
  assert (Hrs : Itag (restart_phase (connect_phase env s))
                  = Itag (connect_phase env s) /\
                connected (restart_phase (connect_phase env s))
                  = connected (connect_phase env s)).
  { unfold restart_phase. destruct (restartscan (connect_phase env s));
      split; reflexivity. }
  destruct Hrs as [Hi' Hc']. destruct Hphase as (Ha1 & Hc1 & Hl1 & Hr1).
  unfold linked_advertised, isConnected, adv, rem in *.
  rewrite Hi, Hc, Hi', Hc'. auto.
Qed.

End FinderPass.

(** ** Reachable states *)

Section FinderReach.
Import Finder.

Lemma reaches_run table hist : reaches table hist (run table hist).
Proof.
  induction hist as [|e hist IH]; simpl; [constructor|].
  apply reaches_step, IH.
Qed.

Lemma offered_later i h e hist : offered i h hist -> offered i h (e :: hist).
Proof.
  intros (env & bc & Hin & Hb & Hh). exists env, bc.
  split; [right; exact Hin|auto].
Qed.

Lemma reaches_invariant table hist s :
  NoDup (ItagAddress <$> table) ->
  Forall (fun t => pRemChar t = None) table ->
  reaches table hist s ->
  wired table s /\ linked_advertised s /\ handles_offered hist s.
Proof.
  intros Hnd Hnull Hreach. induction Hreach as [|hist s e Hreach IH].
  - split; [|split].
    + split; [reflexivity|]. simpl. apply length_replicate.
    + intros i Hi. unfold isConnected, boot in Hi. simpl in Hi.
      destruct (replicate (length table) false !! i) as [b|] eqn:E;
        [|discriminate Hi].
      apply lookup_replicate in E as [-> _]. discriminate Hi.
    + intros i h Hrem. unfold rem, boot in Hrem. simpl in Hrem.
      destruct (table !! i) as [t|] eqn:E; [|discriminate Hrem].
      rewrite Forall_lookup in Hnull. specialize (Hnull i t E).
      simpl in Hrem. congruence.
  - destruct IH as ([Haddr Hlen] & Hlink & Hoff).
    assert (Hnd' : NoDup (ItagAddress <$> Itag s)) by (rewrite Haddr; exact Hnd).
    destruct e as [d|env]; simpl.
    + pose proof (cb_frame_deliver d s) as Hframe.
      pose proof (cb_frame_addresses _ _ Hframe) as Ha.
      destruct Hframe as (_ & _ & _ & _ & Hrem & _ & Hc).
      split; [split; congruence|].
      split; [apply (deliver_flags d s Hnd'), Hlink|].
      intros i h Hi. apply offered_later, Hoff. rewrite <- Hrem. exact Hi.
    + destruct (loop_keeps env s Hnd' Hlink) as (Ha & Hc & Hl & Hrem).
      split; [split; congruence|]. split; [exact Hl|].
      intros i h Hi. destruct (Hrem i) as [Hsame|(c & Hb & Hset)].
      * apply offered_later, Hoff. rewrite <- Hsame. exact Hi.
      * rewrite Hset in Hi. destruct c as [bc|]; [|discriminate Hi].
        exists env, bc. split; [left; reflexivity|]. split; [exact Hb|].
        simpl in Hi. congruence.
Qed.

End FinderReach.

(** C5, as the sketch has it.  [loop()] asks for a connect only for an
    entry that is advertised and whose client is not connected.  In every
    state the sketch can reach from its start, with the configured
    addresses all different, an entry whose client is connected is
    advertised; and its [pRemChar] is NULL or a button characteristic the
    library presented for that entry, in this connection or in an earlier
    one: neither the loss of the link nor a later connect without button
    service clears it. *)
Theorem connected_entry_is_advertised table hist s i :
  NoDup (ItagAddress <$> table) ->
  Forall (fun t => pRemChar t = None) table ->
  Finder.reaches table hist s ->
  Finder.isConnected i s = true ->
  Finder.adv i s = true /\
  (Finder.rem i s = Some None \/
   exists h, Finder.rem i s = Some (Some h) /\ Finder.offered i h hist) /\
  (forall env k s0,
     Finder.radio (Finder.loop_body env k s0).1 <> Finder.radio s0 ->
     Finder.adv k s0 = true /\ Finder.isConnected k s0 = false).
Proof.
  intros Hnd Hnull Hreach Hi.
  destruct (reaches_invariant table hist s Hnd Hnull Hreach)
    as (_ & Hlink & Hoff).
  pose proof (Hlink i Hi) as Hadv. split; [exact Hadv|]. split.
  - unfold Finder.adv in Hadv. unfold Finder.handles_offered, Finder.rem in *.
    destruct (Finder.Itag s !! i) as [t|] eqn:Ht; [|discriminate Hadv].
    simpl. destruct (pRemChar t) as [h|] eqn:Hp; [|left; reflexivity].
    right. exists h. split; [reflexivity|]. apply Hoff.
    rewrite Ht. simpl. congruence.
  - intros env k s0 Hradio.
    destruct (loop_body_cases env k s0)
      as [Hsame | [Hled | (t & Hk & Ha & Hc & _)]].
    + rewrite Hsame in Hradio. congruence.
    + rewrite Hled in Hradio. simpl in Hradio. congruence.
    + split; [|exact Hc]. unfold Finder.adv. rewrite Hk. exact Ha.
Qed.

Lemma Itag_table_addresses : NoDup (ItagAddress <$> Itag_table).
Proof.
  repeat (apply NoDup_cons_2;
          [intros Hin;
           repeat (apply elem_of_cons in Hin as [Hin|Hin]; [discriminate Hin|]);
           apply elem_of_nil in Hin; exact Hin|]).
  apply NoDup_nil_2.
Qed.

Lemma connected_entry_is_advertised_witness :
  Finder.adv 0 finder_reconnected0 = true /\
  (Finder.rem 0 finder_reconnected0 = Some None \/
   exists h, Finder.rem 0 finder_reconnected0 = Some (Some h) /\
     Finder.offered 0 h
       [Finder.ETick tick_no_button; Finder.EDrv (DAdvert (heard tag0_mac));
        Finder.EDrv (DLost 0); Finder.ETick tick_bind7;
        Finder.EDrv (DAdvert (heard tag0_mac))]) /\
  (forall env k s0,
     Finder.radio (Finder.loop_body env k s0).1 <> Finder.radio s0 ->
     Finder.adv k s0 = true /\ Finder.isConnected k s0 = false).
Proof.
  apply (connected_entry_is_advertised Itag_table).
  - exact Itag_table_addresses.
  - repeat constructor.
  - apply reaches_run.
  - vm_compute. reflexivity.
Defined.

(** C5 as stated fails: entry 0 was connected with characteristic 7 bound,
    lost its link, and is connected again to a tag that presents no button
    service; its [pRemChar] is still 7, from the connection before. *)
Lemma stale_handle_after_reconnect :
  Finder.reaches Itag_table
    [Finder.ETick tick_no_button; Finder.EDrv (DAdvert (heard tag0_mac));
     Finder.EDrv (DLost 0); Finder.ETick tick_bind7;
     Finder.EDrv (DAdvert (heard tag0_mac))] finder_reconnected0 /\
  Finder.isConnected 0 finder_lost0 = false /\
  Finder.rem 0 finder_lost0 = Some (Some 7%nat) /\
  Finder.isConnected 0 finder_reconnected0 = true /\
  button (answer tick_no_button 0) = None /\
  Finder.rem 0 finder_reconnected0 = Some (Some 7%nat) /\
  ~ (Finder.rem 0 finder_reconnected0 = Some None \/
     exists bc, button (answer tick_no_button 0) = Some (Some bc) /\
                Finder.rem 0 finder_reconnected0 = Some (Some (bc_handle bc))).
Proof.
  split; [apply reaches_run|].
  repeat split; try (vm_compute; reflexivity).
  intros [Hnull|(bc & Hbc & _)].
  - vm_compute in Hnull. discriminate Hnull.
  - discriminate Hbc.
Qed.


(** * Further properties of the sketches *)

(** ** The buzzer timer *)

Section FinderBuzzer.
Import Finder.


Lemma handle_beeptimer_stopped s :
  beeptimer s <= 0 -> handle_beeptimer s = s.
Proof.
  intros Hle. unfold handle_beeptimer.
  destruct (Z.ltb_spec 0 (beeptimer s)); [lia|reflexivity].
Qed.


End FinderBuzzer.



(** X2.  A beep of no or negative duration starts the buzzer and
    [handle_beeptimer] never stops it: the state after [beep ( d )] with
    [d <= 0] is left as it is by every pass. *)
Theorem beep_without_duration_never_stops d s n :
  d <= 0 ->
  Nat.iter n Finder.handle_beeptimer (Finder.beep d s) = Finder.beep d s /\
  Finder.buzzer (Finder.beep d s) = 10.
Proof.
  intros Hd. split; [|reflexivity].
  induction n as [|n IH]; [reflexivity|].
  rewrite Nat.iter_succ, IH. apply handle_beeptimer_stopped. exact Hd.
Qed.

Lemma beep_without_duration_never_stops_witness :
  Nat.iter 20 Finder.handle_beeptimer (Finder.beep 0 finder_seen0)
    = Finder.beep 0 finder_seen0 /\
  Finder.buzzer (Finder.beep 0 finder_seen0) = 10.
Proof.
  apply (beep_without_duration_never_stops 0 finder_seen0 20). lia.
Defined.

(** ** onResult, Itag/src/main.cpp *)

Lemma seen_from_old p t : newly_found p t = false -> seen_from p t = t.
Proof.
  unfold newly_found, seen_from. destruct t as [a r v o]. simpl.
  destruct v, (String.eqb a p); simpl; congruence.
Qed.

Lemma seen_from_new p t :
  newly_found p t = true ->
  seen_from p t = mk_itag (ItagAddress t) (pRemChar t) true (oldmillis t).
Proof.
  unfold newly_found, seen_from. destruct (advertized t); [discriminate|].
  simpl. intros ->. reflexivity.
Qed.

Lemma newly_found_seen_from p t : newly_found p (seen_from p t) = false.
Proof.
  unfold newly_found, seen_from. simpl.
  destruct (advertized t), (String.eqb (ItagAddress t) p); reflexivity.
Qed.

Lemma seen_upto_0 a (l : list itag_t) : seen_upto a 0 l = l.
Proof.
  apply list_eq. intros i. unfold seen_upto. rewrite list_lookup_imap.
  destruct (l !! i); reflexivity.
Qed.

Lemma seen_upto_all a (l : list itag_t) k :
  (length l <= k)%nat -> seen_upto a k l = seen_all a l.
Proof.
  intros Hk. apply list_eq. intros i. unfold seen_upto, seen_all.
  rewrite !list_lookup_imap. destruct (l !! i) as [t|] eqn:Hi; [|reflexivity].
  simpl. apply lookup_lt_Some in Hi.
  destruct (Nat.ltb_spec i k); [reflexivity|lia].
Qed.

Lemma seen_upto_here a (l : list itag_t) j :
  seen_upto a j l !! j = l !! j.
Proof.
  unfold seen_upto. rewrite list_lookup_imap.
  destruct (l !! j); [|reflexivity]. simpl.
  rewrite Nat.ltb_irrefl. reflexivity.
Qed.

Lemma seen_upto_S a (l : list itag_t) j t :
  l !! j = Some t ->
  seen_upto a (S j) l = <[j:=seen_from (adv_read a j) t]> (seen_upto a j l).
Proof.
  intros Ht. apply list_eq. intros i. destruct (decide (j = i)) as [<-|Hne].
  - rewrite list_lookup_insert_eq
      by (unfold seen_upto; rewrite length_imap; eapply lookup_lt_Some, Ht).
    unfold seen_upto. rewrite list_lookup_imap, Ht. simpl.
    destruct (Nat.ltb_spec j (S j)); [reflexivity|lia].
  - rewrite list_lookup_insert_ne by exact Hne.
    unfold seen_upto. rewrite !list_lookup_imap.
    destruct (l !! i); [|reflexivity]. simpl.
    destruct (Nat.ltb_spec i (S j)), (Nat.ltb_spec i j); reflexivity || lia.
Qed.

Lemma found_ids_S a (l : list itag_t) j :
  found_ids a l (S j) = found_ids a l j ++ (if found_at a l j then [j] else []).
Proof. unfold found_ids. rewrite seq_S, List.filter_app. reflexivity. Qed.

Lemma some_missing_S a (l : list itag_t) j :
  some_missing a l (S j) = some_missing a l j || missing_at a l j.
Proof.
  unfold some_missing. rewrite seq_S, existsb_app. simpl.
  rewrite orb_false_r. reflexivity.
Qed.

(** A table in which no turn finds anything is left as it is. *)
Lemma seen_all_none_found a (l : list itag_t) :
  (forall i, found_at a l i = false) ->
  seen_all a l = l /\ forall k, found_ids a l k = [].
Proof.
  intros Hno. split.
  - apply list_eq. intros i. unfold seen_all. rewrite list_lookup_imap.
    specialize (Hno i). unfold found_at in Hno.
    destruct (l !! i) as [t|]; [|reflexivity]. simpl.
    rewrite (seen_from_old _ _ Hno). reflexivity.
  - intros k. unfold found_ids. induction (seq 0 k) as [|i r IH]; [reflexivity|].
    simpl. rewrite Hno. exact IH.
Qed.

Lemma found_at_seen_all a (l : list itag_t) i :
  found_at a (seen_all a l) i = false.
Proof.
  unfold found_at, seen_all. rewrite list_lookup_imap.
  destruct (l !! i); [|reflexivity]. simpl. apply newly_found_seen_from.
Qed.

Section FinderOnResult.
Import Finder.

(** The state after the turns of [onResult] for the first [k] entries. *)
Lemma onResult_prefix a s k :
  (k <= length (Itag s))%nat ->
  for_loop (onResult_body a) k 0 s =
    mk_state (seen_upto a k (Itag s))
             (restartscan s) (beeptimer s) (newcontime s) (buzzer s) (actled s)
             (serial s ++
                replicate (length (found_ids a (Itag s) k))
                          (MsgFound (adv_device a)))
             (radio s) (connected s).
Proof.
  intros Hk.
  pose proof (for_loop_indexed (onResult_body a)
    (fun j s1 => (j <= k)%nat ->
       s1 = mk_state (seen_upto a j (Itag s))
             (restartscan s) (beeptimer s) (newcontime s) (buzzer s) (actled s)
             (serial s ++
                replicate (length (found_ids a (Itag s) j))
                          (MsgFound (adv_device a)))
             (radio s) (connected s)) k 0 s) as Hind.
  simpl in Hind. apply Hind;
    [|intros _; rewrite seen_upto_0; destruct s; simpl; rewrite app_nil_r;
      reflexivity|lia].
  clear Hind. intros j s1 Hj Hs1.
  assert (Hbrk : (onResult_body a j s1).2 = false).
  { unfold onResult_body. destruct (Itag s1 !! j) as [t|]; [|reflexivity].
    destruct (negb (advertized t)); [|reflexivity].
    destruct (String.eqb (ItagAddress t) (adv_read a j)); reflexivity. }
  split; [exact Hbrk|]. intros HSj. specialize (Hs1 ltac:(lia)).
  destruct (lookup_lt_is_Some_2 (Itag s) j ltac:(lia)) as [t Ht].
  assert (Hj1 : Itag s1 !! j = Some t).
  { rewrite Hs1. simpl. rewrite seen_upto_here. exact Ht. }
  rewrite (seen_upto_S a _ _ _ Ht), found_ids_S, length_app.
  assert (Hfound : found_at a (Itag s) j = newly_found (adv_read a j) t)
    by (unfold found_at; rewrite Ht; reflexivity).
  rewrite Hfound.
  unfold onResult_body. rewrite Hj1.
  fold (newly_found (adv_read a j) t). simpl.
  destruct (newly_found (adv_read a j) t) eqn:Hnew.
  - unfold newly_found in Hnew. apply andb_prop in Hnew as [Hadv Heq].
    rewrite Hadv, Heq. simpl. rewrite Hs1.
    unfold print, set_tag, set_Itag. simpl. f_equal.
    + rewrite (seen_from_new (adv_read a j) t)
        by (unfold newly_found; rewrite Hadv, Heq; reflexivity).
      reflexivity.
    + rewrite <- app_assoc. f_equal.
      rewrite Nat.add_1_r. apply eq_sym, replicate_S_end.
  - assert (Hbody : (if negb (advertized t)
                     then if String.eqb (ItagAddress t) (adv_read a j)
                          then (print (MsgFound (adv_device a))
                                  (set_tag j (mk_itag (ItagAddress t) (pRemChar t)
                                                      true (oldmillis t)) s1),
                                false)
                          else (s1, false)
                     else (s1, false)) = (s1, false)).
    { unfold newly_found in Hnew.
      destruct (negb (advertized t)); [|reflexivity].
      simpl in Hnew. rewrite Hnew. reflexivity. }
    rewrite Hbody. simpl. rewrite Hs1. f_equal.
    + rewrite (seen_from_old _ t Hnew). apply eq_sym, list_insert_id.
      rewrite seen_upto_here. exact Ht.
    + rewrite Nat.add_0_r. reflexivity.
Qed.

Lemma finder_onResult_state a s :
  onResult a s =
    mk_state (seen_all a (Itag s))
             (restartscan s) (beeptimer s) (newcontime s) (buzzer s) (actled s)
             (serial s ++
                replicate (length (found_ids a (Itag s) (length (Itag s))))
                          (MsgFound (adv_device a)))
             (radio s) (connected s).
Proof.
  unfold onResult, NITAGS. rewrite (onResult_prefix a s _ (Nat.le_refl _)).
  rewrite seen_upto_all by reflexivity. reflexivity.
Qed.

End FinderOnResult.

(** X3.  [onResult] leaves every entry its address, its [pRemChar] and
    its [oldmillis]; entry [i] is advertised afterwards exactly if it was
    before or its address equals the text that the comparison of turn
    [i] reads at [p], whatever device advertised.  It prints one line
    for each entry it newly marks and changes nothing else: no flag, no
    timer, no output, no request to the radio. *)
Theorem advertisement_marks_matching_entries a s :
  Finder.Itag (Finder.onResult a s) =
    imap (fun i => seen_from (adv_read a i)) (Finder.Itag s) /\
  Finder.serial (Finder.onResult a s) =
    Finder.serial s ++
    replicate (length (found_ids a (Finder.Itag s) (Finder.NITAGS s)))
              (MsgFound (adv_device a)) /\
  Finder.restartscan (Finder.onResult a s) = Finder.restartscan s /\
  Finder.beeptimer (Finder.onResult a s) = Finder.beeptimer s /\
  Finder.buzzer (Finder.onResult a s) = Finder.buzzer s /\
  Finder.actled (Finder.onResult a s) = Finder.actled s /\
  Finder.newcontime (Finder.onResult a s) = Finder.newcontime s /\
  Finder.radio (Finder.onResult a s) = Finder.radio s /\
  Finder.connected (Finder.onResult a s) = Finder.connected s.
Proof. rewrite finder_onResult_state. repeat split. Qed.

(** X4.  A second run of [onResult] in which the comparisons read the
    same texts as in the first changes nothing any more, and a run in
    which no comparison with an unadvertised entry reads that entry's
    address leaves the state as it is, without a line printed. *)
Theorem advertisement_repeated_changes_nothing a s :
  Finder.onResult a (Finder.onResult a s) = Finder.onResult a s /\
  ((forall i, found_at a (Finder.Itag s) i = false) ->
   Finder.onResult a s = s).
Proof.
  assert (Hnoop : forall s0,
            (forall i, found_at a (Finder.Itag s0) i = false) ->
            Finder.onResult a s0 = s0).
  { intros s0 Hall. rewrite finder_onResult_state.
    destruct (seen_all_none_found a _ Hall) as [-> ->]. simpl.
    rewrite app_nil_r. destruct s0; reflexivity. }
  split; [|apply Hnoop]. apply Hnoop.
  rewrite finder_onResult_state. simpl. apply found_at_seen_all.
Qed.

Lemma advertisement_repeated_changes_nothing_witness :
  Finder.onResult (heard tag0_mac) (Finder.onResult (heard tag0_mac) finder_seen0)
    = Finder.onResult (heard tag0_mac) finder_seen0 /\
  Finder.onResult (garbled tag0_mac) (Finder.boot Itag_table)
    = Finder.boot Itag_table.
Proof.
  destruct (advertisement_repeated_changes_nothing (heard tag0_mac) finder_seen0)
    as [Hidem _].
  destruct (advertisement_repeated_changes_nothing
              (garbled tag0_mac) (Finder.boot Itag_table))
    as [_ Hnoop].
  split; [exact Hidem|]. apply Hnoop.
  intros [|[|[|i]]]; reflexivity.
Defined.

(** X5.  A disconnect reported for an address that no entry has changes
    no entry; it is printed and the scan restart is asked for all the
    same. *)
Theorem disconnect_of_unknown_address mac s :
  (forall i t, Finder.Itag s !! i = Some t -> ItagAddress t <> mac) ->
  let s' := Finder.onDisconnect mac s in
  Finder.Itag s' = Finder.Itag s /\
  Finder.restartscan s' = true /\
  Finder.serial s' = Finder.serial s ++ [MsgDisconnected mac] /\
  Finder.radio s' = Finder.radio s /\
  Finder.connected s' = Finder.connected s /\
  Finder.beeptimer s' = Finder.beeptimer s /\
  Finder.buzzer s' = Finder.buzzer s.
Proof.
  intros Hno s'. subst s'. rewrite (finder_onDisconnect_unmatched mac s Hno).
  repeat split.
Qed.

Lemma disconnect_of_unknown_address_witness :
  let s' := Finder.onDisconnect "aa:bb:cc:dd:ee:ff" finder_bound7 in
  Finder.Itag s' = Finder.Itag finder_bound7 /\
  Finder.restartscan s' = true /\
  Finder.serial s' = Finder.serial finder_bound7
                       ++ [MsgDisconnected "aa:bb:cc:dd:ee:ff"] /\
  Finder.radio s' = Finder.radio finder_bound7 /\
  Finder.connected s' = Finder.connected finder_bound7 /\
  Finder.beeptimer s' = Finder.beeptimer finder_bound7 /\
  Finder.buzzer s' = Finder.buzzer finder_bound7.
Proof.
  apply (disconnect_of_unknown_address "aa:bb:cc:dd:ee:ff" finder_bound7).
  intros i t H. rewrite finder_bound7_Itag in H.
  entries H; simpl; discriminate.
Defined.

(** ** The connect requests of one pass *)

Lemma conn_ids_app l1 l2 : conn_ids (l1 ++ l2) = conn_ids l1 ++ conn_ids l2.
Proof. unfold conn_ids. apply flat_map_app. Qed.

Lemma conn_ids_gatt l :
  Forall (fun r => is_gatt_op r = true) l -> conn_ids l = [].
Proof.
  induction 1 as [|r l Hr _ IH]; [reflexivity|].
  simpl. rewrite IH. destruct r; simpl in *; congruence.
Qed.

Section FinderPassRequests.
Import Finder.

(** The pass for entry [k] asks for no connect or for that of [k]. *)
Lemma loop_body_conn_ids env k s :
  exists l, radio (loop_body env k s).1 = radio s ++ l /\
            (conn_ids l = [] \/ conn_ids l = [k]).
Proof.
  destruct (loop_body_cases env k s)
    as [-> | [-> | (t & _ & _ & _ & ->)]].
  - exists []. split; [symmetry; apply app_nil_r|left; reflexivity].
  - exists []. split; [symmetry; apply app_nil_r|left; reflexivity].
  - destruct (finder_connectToServer_radio k (answer env k)
                (print (MsgTry k (ItagAddress t)) (digitalWrite true s)))
      as (g & Hg & Hgatt).
    exists (RConnect k :: g). split; [exact Hg|right].
    simpl. rewrite (conn_ids_gatt g Hgatt). reflexivity.
Qed.

Lemma connect_phase_conn_ids env s :
  exists l, radio (connect_phase env s) = radio s ++ l /\
            conn_ids l `sublist_of` seq 0 (NITAGS s).
Proof.
  unfold connect_phase.
  destruct (newcontime s <? wrap32 (t_begin env)).
  - cbv zeta.
    pose proof (for_loop_indexed (loop_body env)
      (fun k s1 => exists l, radio s1 = radio s ++ l /\
                             conn_ids l `sublist_of` seq 0 k)
      (NITAGS s) 0 (digitalWrite false s)) as Hind.
    apply Hind; clear Hind.
    + intros k s1 _ (l & Hl & Hsub).
      split; [apply loop_body_never_breaks|].
      destruct (loop_body_conn_ids env k s1) as (l' & Hl' & Hids).
      exists (l ++ l'). split; [rewrite Hl', Hl; apply eq_sym, app_assoc|].
      rewrite conn_ids_app, seq_S. simpl.
      destruct Hids as [-> | ->].
      * rewrite app_nil_r. apply sublist_inserts_r, Hsub.
      * apply sublist_app; [exact Hsub|reflexivity].
    + exists []. split; [symmetry; apply app_nil_r|apply sublist_nil_l].
  - exists []. split; [symmetry; apply app_nil_r|apply sublist_nil_l].
Qed.

Lemma restartscan_loop_body env k s :
  restartscan s = true -> restartscan (loop_body env k s).1 = true.
Proof.
  intros Hs.
  destruct (loop_body_cases env k s)
    as [-> | [-> | (t & _ & _ & _ & ->)]]; [exact Hs|exact Hs|].
  set (s2 := print (MsgTry k (ItagAddress t)) (digitalWrite true s)).
  destruct (finder_connectToServer_fields k (answer env k) s2) as (_ & Hr & _).
  change (restartscan (connectToServer k (answer env k) s2) = true).
  rewrite Hr.
  destruct (cb_frame_client_connect k (answer env k) s2)
    as (_ & _ & _ & _ & _ & Hmono & _).
  apply Hmono. exact Hs.
Qed.

Lemma restartscan_connect_phase env s :
  restartscan s = true -> restartscan (connect_phase env s) = true.
Proof.
  intros Hs. unfold connect_phase.
  destruct (newcontime s <? wrap32 (t_begin env)); [|exact Hs].
  cbv zeta.
  apply (for_loop_inv (loop_body env) (fun s1 => restartscan s1 = true));
    [|exact Hs].
  intros k s1. apply restartscan_loop_body.
Qed.

(** The requests of a whole pass: those of the connect part, then the
    restart if the flag is up. *)
Lemma loop_radio env s :
  radio (loop env s) =
    radio (connect_phase env s) ++
    (if restartscan (connect_phase env s)
     then [RScanStop; RClearResults; RScanStart 0] else []).
Proof.
  unfold loop.
  destruct (handle_beeptimer_fields (restart_phase (connect_phase env s)))
    as (_ & Hr & _). rewrite Hr. unfold restart_phase.
  destruct (restartscan (connect_phase env s)); simpl.
  - rewrite <- !app_assoc. reflexivity.
  - symmetry. apply app_nil_r.
Qed.

End FinderPassRequests.

(** X6.  In one pass of [loop()] the connect requests go to entries of
    the table in rising order, at most one to each. *)
Theorem pass_connects_each_entry_once env s :
  exists l, Finder.radio (Finder.loop env s) = Finder.radio s ++ l /\
            conn_ids l `sublist_of` seq 0 (Finder.NITAGS s).
Proof.
  destruct (connect_phase_conn_ids env s) as (l & Hl & Hsub).
  rewrite loop_radio, Hl.
  destruct (Finder.restartscan (Finder.connect_phase env s)).
  - exists (l ++ [RScanStop; RClearResults; RScanStart 0]).
    split; [apply eq_sym, app_assoc|].
    rewrite conn_ids_app. simpl. rewrite app_nil_r. exact Hsub.
  - exists l. split; [apply app_nil_r|exact Hsub].
Qed.

(** X7.  A restart request that is pending when a pass of [loop()]
    begins is served in that pass: whatever the connect part does, it
    asks for no scan operation, and the pass then stops the scan, clears
    the results and starts a scan without end, and takes the request
    down. *)
Theorem pending_restart_is_served env s :
  Finder.restartscan s = true ->
  exists l,
    Finder.radio (Finder.loop env s) =
      Finder.radio s ++ l ++ [RScanStop; RClearResults; RScanStart 0] /\
    Forall (fun r => Finder.is_scan_op r = false) l /\
    Finder.restartscan (Finder.loop env s) = false.
Proof.
  intros Hs. destruct (connect_phase_radio env s) as (l & Hl & Hno).
  exists l. rewrite loop_radio, (restartscan_connect_phase env s Hs), Hl.
  split; [apply eq_sym, app_assoc|]. split; [exact Hno|].
  unfold Finder.loop.
  destruct (handle_beeptimer_fields
              (Finder.restart_phase (Finder.connect_phase env s)))
    as (_ & _ & Hr & _).
  rewrite Hr. unfold Finder.restart_phase.
  rewrite (restartscan_connect_phase env s Hs). reflexivity.
Qed.

Lemma pending_restart_is_served_witness :
  exists l,
    Finder.radio (Finder.loop tick_idle finder_lost0) =
      Finder.radio finder_lost0 ++ l ++ [RScanStop; RClearResults; RScanStart 0] /\
    Forall (fun r => Finder.is_scan_op r = false) l /\
    Finder.restartscan (Finder.loop tick_idle finder_lost0) = false.
Proof.
  apply (pending_restart_is_served tick_idle finder_lost0).
  vm_compute. reflexivity.
Defined.

Section FinderLinkUp.
Import Finder.

(** The connect part of a due pass, cut at an entry that is advertised and
    not connected when the pass begins, no callback arriving on its own
    during the tries before it. *)
Lemma connect_phase_at_entry env s i t :
  Itag s !! i = Some t -> advertized t = true -> isConnected i s = false ->
  newcontime s < wrap32 (t_begin env) ->
  (forall k, (k < i)%nat -> quiet (answer env k)) ->
  exists si,
    Itag si !! i = Some t /\ isConnected i si = false /\
    connect_phase env s =
      set_newcontime (wrap32 (wrap32 (t_end env) + 5000))
        (for_loop (loop_body env) (length (Itag s) - S i) (S i)
           (loop_body env i si).1).
Proof.
  intros Hi Hadv Hconn Hdue Hq. unfold connect_phase.
  destruct (Z.ltb_spec (newcontime s) (wrap32 (t_begin env))); [|lia].
  cbv zeta. set (s0 := digitalWrite false s).
  assert (Hlt : (i < length (Itag s))%nat) by (eapply lookup_lt_Some, Hi).
  change (NITAGS s0) with (length (Itag s)).
  assert (Hcut : for_loop (loop_body env) (length (Itag s)) 0 s0 =
                 for_loop (loop_body env) (length (Itag s) - S i) (S i)
                   (loop_body env i (for_loop (loop_body env) i 0 s0)).1).
  { replace (length (Itag s)) with (i + S (length (Itag s) - S i))%nat at 1
      by lia.
    rewrite (for_loop_split _ (loop_body_never_breaks env)).
    change (0 + i)%nat with i.
    apply (for_loop_step _ (loop_body_never_breaks env)). }
  rewrite Hcut. exists (for_loop (loop_body env) i 0 s0).
  split; [|split; [|reflexivity]];
    apply (for_loop_indexed (loop_body env)
             (fun k s1 => Itag s1 !! i = Some t /\ isConnected i s1 = false)
             i 0 s0); try (split; assumption);
    intros k s1 Hk (Hi1 & Hc1); (split; [apply loop_body_never_breaks|]); split.
  all: try (destruct (loop_body_quiet_Itag env k s1 (Hq k ltac:(lia)))
              as [-> | (t' & p & _ & ->)]; [exact Hi1|];
            rewrite list_lookup_insert_ne by lia; exact Hi1).
  all: unfold isConnected in *;
       destruct (loop_body_quiet_connected env k s1 (Hq k ltac:(lia)))
         as [-> | ->]; [exact Hc1|];
       rewrite list_lookup_insert_ne by lia; exact Hc1.
Qed.

End FinderLinkUp.

(** X8.  When the link of an entry comes up in a pass of [loop()], the
    scan is restarted before that pass ends: for an entry advertised and
    not connected when a due pass begins, with no callback arriving on its
    own during the tries before it, the pass asks for the connect and ends
    its requests with stop, clear and start. *)
Theorem link_up_restarts_scan_in_same_pass env s i t :
  Finder.Itag s !! i = Some t -> advertized t = true ->
  Finder.isConnected i s = false ->
  Finder.newcontime s < wrap32 (t_begin env) ->
  (forall k, (k < i)%nat -> Finder.quiet (answer env k)) ->
  up (answer env i) = true ->
  exists l1 l2,
    Finder.radio (Finder.loop env s) =
      Finder.radio s ++ l1 ++ RConnect i :: l2
        ++ [RScanStop; RClearResults; RScanStart 0].
Proof.
  intros Hi Hadv Hconn Hdue Hq Hup.
  destruct (connect_phase_tries env s i t Hi Hadv Hconn Hdue Hq)
    as (l1 & l2 & Hl).
  destruct (connect_phase_at_entry env s i t Hi Hadv Hconn Hdue Hq)
    as (si & Hi' & Hc' & Hphase).
  assert (Hflag : Finder.restartscan (Finder.connect_phase env s) = true).
  { rewrite Hphase.
    change (Finder.restartscan
              (for_loop (Finder.loop_body env) (length (Finder.Itag s) - S i)
                 (S i) (Finder.loop_body env i si).1) = true).
    apply (for_loop_inv (Finder.loop_body env)
             (fun s1 => Finder.restartscan s1 = true));
      [intros k s1; apply restartscan_loop_body|].
    rewrite (loop_body_attempt env i si t Hi' Hadv Hc').
    set (s2 := Finder.print (MsgTry i (ItagAddress t))
                 (Finder.digitalWrite true si)).
    destruct (finder_connectToServer_fields i (answer env i) s2)
      as (_ & Hr & _).
    change (Finder.restartscan (Finder.connectToServer i (answer env i) s2)
            = true).
    rewrite Hr.
    apply (restartscan_client_connect_up i (answer env i) s2 (ItagAddress t));
      [|exact Hup].
    unfold Finder.peer_mac, s2. simpl. rewrite Hi'. reflexivity. }
  exists l1, l2. rewrite loop_radio, Hflag, Hl.
  rewrite <- !app_assoc. reflexivity.
Qed.

Lemma link_up_restarts_scan_in_same_pass_witness :
  exists l1 l2,
    Finder.radio (Finder.loop tick_bind7 finder_seen0) =
      Finder.radio finder_seen0 ++ l1 ++ RConnect 0 :: l2
        ++ [RScanStop; RClearResults; RScanStart 0].
Proof.
  apply (link_up_restarts_scan_in_same_pass tick_bind7 finder_seen0 0
           (mk_itag tag0_mac None true 0));
    try (vm_compute; reflexivity).
  intros k Hk. lia.
Defined.

(** ** The buzzer in every reachable state *)

Section FinderBuzzerInv.
Import Finder.

Lemma buzzer_ok_same s s' :
  beeptimer s' = beeptimer s -> buzzer s' = buzzer s ->
  buzzer_ok s -> buzzer_ok s'.
Proof. intros Hbt Hbz (k & Hk & Ht & Hz). exists k. rewrite Hbt, Hbz. auto. Qed.

Lemma buzzer_ok_beep_short s : buzzer_ok (beep 500 s).
Proof. exists 5. repeat split; lia. Qed.

Lemma buzzer_ok_beep_long s : buzzer_ok (beep 1000 s).
Proof. exists 10. repeat split; lia. Qed.

Lemma buzzer_ok_handle_beeptimer s : buzzer_ok s -> buzzer_ok (handle_beeptimer s).
Proof.
  intros (k & Hk & Ht & Hz). unfold handle_beeptimer.
  destruct (Z.ltb_spec 0 (beeptimer s)) as [Hpos|Hle]; [|exists k; auto].
  simpl. exists (k - 1).
  destruct (Z.leb_spec (beeptimer s - 100) 0) as [Hend|Hrun]; simpl.
  - assert (k = 1) as -> by lia. repeat split; lia.
  - rewrite Hz. destruct (Z.eqb_spec k 0); [lia|].
    destruct (Z.eqb_spec (k - 1) 0); [lia|]. repeat split; lia.
Qed.

Lemma buzzer_ok_onDisconnect mac s : buzzer_ok s -> buzzer_ok (onDisconnect mac s).
Proof.
  intros Hok. unfold onDisconnect.
  apply (buzzer_ok_same
           (for_loop (onDisconnect_body mac)
              (NITAGS (print (MsgDisconnected mac) s)) 0
              (print (MsgDisconnected mac) s))); try reflexivity.
  apply (for_loop_inv (onDisconnect_body mac) buzzer_ok); [|exact Hok].
  intros k s1 Hs1. unfold onDisconnect_body.
  destruct (Itag s1 !! k) as [t|]; [|exact Hs1].
  destruct (String.eqb (ItagAddress t) mac); exact Hs1.
Qed.

Lemma buzzer_ok_notifyCallback h now s :
  buzzer_ok s -> buzzer_ok (notifyCallback h now s).
Proof.
  intros Hok.
  apply (for_loop_inv (notifyCallback_body h (wrap32 now)) buzzer_ok);
    [|exact Hok].
  intros k s1 Hs1. unfold notifyCallback_body.
  destruct (Itag s1 !! k) as [t|]; [|exact Hs1].
  destruct (ptr_eqb (pRemChar t) h); [|exact Hs1]. simpl.
  destruct (wrap32 (oldmillis t + 500) <? wrap32 now);
    [apply buzzer_ok_beep_short|exact Hs1].
Qed.

Lemma buzzer_ok_deliver e s : buzzer_ok s -> buzzer_ok (deliver e s).
Proof.
  intros Hok. destruct e as [p|j|h now]; simpl.
  - rewrite finder_onResult_state. exact Hok.
  - destruct (peer_mac j s); [|exact Hok].
    destruct (isConnected j s); [|exact Hok].
    apply buzzer_ok_onDisconnect. exact Hok.
  - apply buzzer_ok_notifyCallback, Hok.
Qed.

Lemma buzzer_ok_deliver_all es : forall s,
  buzzer_ok s -> buzzer_ok (deliver_all es s).
Proof.
  induction es as [|e es IH]; intros s Hok; [exact Hok|].
  simpl. apply IH, buzzer_ok_deliver, Hok.
Qed.

Lemma buzzer_ok_client_connect i a s :
  buzzer_ok s -> buzzer_ok (client_connect i a s).
Proof.
  intros Hok. unfold client_connect.
  apply buzzer_ok_deliver_all.
  assert (Hbefore : buzzer_ok (deliver_all (before a) (request (RConnect i) s)))
    by (apply buzzer_ok_deliver_all; exact Hok).
  destruct (up a); [|exact Hbefore].
  unfold link_up.
  destruct (peer_mac i (deliver_all (before a) (request (RConnect i) s)));
    exact Hbefore.
Qed.

Lemma buzzer_ok_loop env s : buzzer_ok s -> buzzer_ok (loop env s).
Proof.
  intros Hok. unfold loop. apply buzzer_ok_handle_beeptimer.
  assert (Hphase : buzzer_ok (connect_phase env s)).
  { unfold connect_phase.
    destruct (newcontime s <? wrap32 (t_begin env)); [|exact Hok].
    cbv zeta.
    apply (buzzer_ok_same
             (for_loop (loop_body env) (NITAGS (digitalWrite false s)) 0
                (digitalWrite false s))); try reflexivity.
    apply (for_loop_inv (loop_body env) buzzer_ok); [|exact Hok].
    intros k s1 Hs1.
    destruct (loop_body_cases env k s1)
      as [-> | [-> | (t & _ & _ & _ & ->)]];
      [exact Hs1|exact Hs1|apply buzzer_ok_beep_long]. }
  unfold restart_phase. destruct (restartscan (connect_phase env s));
    exact Hphase.
Qed.

End FinderBuzzerInv.

(** X9.  In every state the sketch reaches from its start, the buzzer is
    on exactly while the beep timer runs, and the timer is a multiple of
    100 ms between 0 and 1000 ms: the buzzer cannot be left on with the
    timer at rest. *)
Theorem buzzer_follows_timer table hist s :
  Finder.reaches table hist s ->
  Finder.buzzer_ok s /\
  (Finder.buzzer s = 10 <-> 0 < Finder.beeptimer s) /\
  0 <= Finder.beeptimer s <= 1000.
Proof.
  intros Hreach.
  assert (Hok : Finder.buzzer_ok s).
  { induction Hreach as [|hist s e _ IH].
    - exists 0. repeat split; lia.
    - destruct e as [d|env]; simpl.
      + apply buzzer_ok_deliver, IH.
      + apply buzzer_ok_loop, IH. }
  split; [exact Hok|]. destruct Hok as (k & Hk & Ht & Hz).
  rewrite Ht, Hz. destruct (Z.eqb_spec k 0); split; lia.
Qed.

Lemma buzzer_follows_timer_witness :
  Finder.buzzer_ok finder_reconnected0 /\
  (Finder.buzzer finder_reconnected0 = 10
     <-> 0 < Finder.beeptimer finder_reconnected0) /\
  0 <= Finder.beeptimer finder_reconnected0 <= 1000.
Proof.
  apply (buzzer_follows_timer Itag_table
           [Finder.ETick tick_no_button; Finder.EDrv (DAdvert (heard tag0_mac));
            Finder.EDrv (DLost 0); Finder.ETick tick_bind7;
            Finder.EDrv (DAdvert (heard tag0_mac))]).
  apply reaches_run.
Defined.

(** ** The shape of the table *)

Section FinderShape.
Import Finder.

Lemma loop_shape env s :
  ItagAddress <$> Itag (loop env s) = ItagAddress <$> Itag s /\
  length (connected (loop env s)) = length (connected s).
Proof.
  assert (Hphase :
    ItagAddress <$> Itag (connect_phase env s) = ItagAddress <$> Itag s /\
    length (connected (connect_phase env s)) = length (connected s)).
  { unfold connect_phase.
    destruct (newcontime s <? wrap32 (t_begin env)); [|split; reflexivity].
    cbv zeta.
    apply (for_loop_inv (loop_body env)
             (fun s1 => ItagAddress <$> Itag s1 = ItagAddress <$> Itag s /\
                        length (connected s1) = length (connected s)));
      [|split; reflexivity].
    intros k s1 [Ha Hc].
    destruct (loop_body_cases env k s1)
      as [-> | [-> | (t & _ & _ & _ & ->)]]; [auto|auto|].
    set (s2 := print (MsgTry k (ItagAddress t)) (digitalWrite true s1)).
    split.
    - rewrite <- Ha. apply list_eq. intros j. rewrite !list_lookup_fmap.
      apply (peer_mac_connectToServer j k (answer env k) s2).
    - rewrite <- Hc.
      destruct (finder_connectToServer_fields k (answer env k) s2) as (Hconn & _).
      simpl. rewrite Hconn.
      destruct (cb_frame_client_connect k (answer env k) s2)
        as (_ & _ & _ & _ & _ & _ & Hlen).
      exact Hlen. }
  unfold loop.
  destruct (handle_beeptimer_fields (restart_phase (connect_phase env s)))
    as (Hi & _ & _ & _ & _ & Hc).
  rewrite Hi, Hc. unfold restart_phase.
  destruct (restartscan (connect_phase env s)); exact Hphase.
Qed.

End FinderShape.

(** X10.  In every state the sketch reaches from its start the table has
    the entries it was configured with, in the same order and with the
    same addresses, and there is one client per entry: no entry is ever
    added, removed or readdressed. *)
Theorem table_keeps_its_entries table hist s :
  Finder.reaches table hist s ->
  ItagAddress <$> Finder.Itag s = ItagAddress <$> table /\
  Finder.NITAGS s = length table /\
  length (Finder.connected s) = length table.
Proof.
  intros Hreach.
  assert (Hshape : ItagAddress <$> Finder.Itag s = ItagAddress <$> table /\
                   length (Finder.connected s) = length table).
  { induction Hreach as [|hist s e _ [IHa IHc]].
    - split; [reflexivity|]. simpl. apply length_replicate.
    - destruct e as [d|env]; simpl.
      + pose proof (cb_frame_deliver d s) as Hframe.
        pose proof (cb_frame_addresses _ _ Hframe) as Ha.
        destruct Hframe as (_ & _ & _ & _ & _ & _ & Hc).
        split; congruence.
      + destruct (loop_shape env s) as [Ha Hc]. split; congruence. }
  destruct Hshape as [Ha Hc]. split; [exact Ha|]. split; [|exact Hc].
  unfold Finder.NITAGS.
  rewrite <- (length_fmap ItagAddress (Finder.Itag s)), Ha. apply length_fmap.
Qed.

Lemma table_keeps_its_entries_witness :
  ItagAddress <$> Finder.Itag finder_reconnected0 = ItagAddress <$> Itag_table /\
  Finder.NITAGS finder_reconnected0 = length Itag_table /\
  length (Finder.connected finder_reconnected0) = length Itag_table.
Proof.
  apply (table_keeps_its_entries Itag_table
           [Finder.ETick tick_no_button; Finder.EDrv (DAdvert (heard tag0_mac));
            Finder.EDrv (DLost 0); Finder.ETick tick_bind7;
            Finder.EDrv (DAdvert (heard tag0_mac))]).
  apply reaches_run.
Defined.

(** ** The connect timer at the end of the clock *)

Section FinderTimer.
Import Finder.

Lemma connect_phase_not_due env s :
  wrap32 (t_begin env) <= newcontime s -> connect_phase env s = s.
Proof.
  intros Hle. unfold connect_phase.
  destruct (Z.ltb_spec (newcontime s) (wrap32 (t_begin env))); [lia|reflexivity].
Qed.

Lemma step_timer_at_maximum e s :
  newcontime s = 2 ^ 32 - 1 ->
  newcontime (step e s) = 2 ^ 32 - 1 /\
  exists l, radio (step e s) = radio s ++ l /\
            Forall (fun r => is_scan_op r = true) l.
Proof.
  intros Hmax. destruct e as [d|env]; simpl.
  - destruct (cb_frame_deliver d s) as (Hr & Hn & _).
    split; [congruence|]. exists []. split; [rewrite Hr; symmetry; apply app_nil_r|].
    constructor.
  - assert (Hidle : connect_phase env s = s).
    { apply connect_phase_not_due. pose proof (wrap32_range (t_begin env)). lia. }
    rewrite loop_radio, Hidle. unfold loop. rewrite Hidle.
    destruct (handle_beeptimer_fields (restart_phase s))
      as (_ & _ & _ & _ & Hn & _).
    rewrite Hn. split.
    + unfold restart_phase. destruct (restartscan s); exact Hmax.
    + eexists. split; [reflexivity|].
      destruct (restartscan s); repeat constructor.
Qed.

End FinderTimer.

(** X11.  The connect timer is compared with [millis() > newcontime] on
    32 bits.  A pass that sets it to [2^32 - 1] sets it for good: from
    such a state on, whatever callbacks arrive and whatever the clock
    reads, no pass is due any more, the timer keeps its value and the only
    requests to the radio are scan restarts; no entry is ever tried
    again. *)
Theorem connect_timer_at_maximum_never_expires s evs :
  Finder.newcontime s = 2 ^ 32 - 1 ->
  let s' := foldr Finder.step s evs in
  Finder.newcontime s' = 2 ^ 32 - 1 /\
  exists l, Finder.radio s' = Finder.radio s ++ l /\
            Forall (fun r => Finder.is_scan_op r = true) l.
Proof.
  intros Hmax. induction evs as [|e evs (Hn & l & Hl & Hscan)]; cbv zeta in *.
  - split; [exact Hmax|]. exists []. split; [symmetry; apply app_nil_r|constructor].
  - simpl. destruct (step_timer_at_maximum e _ Hn) as (Hn' & l' & Hl' & Hscan').
    split; [exact Hn'|]. exists (l ++ l').
    split; [rewrite Hl', Hl; apply eq_sym, app_assoc|].
    apply Forall_app; auto.
Qed.

Lemma connect_timer_at_maximum_never_expires_witness :
  let s' := foldr Finder.step finder_timer_at_max
              [Finder.ETick tick_retry; Finder.EDrv (DAdvert (heard tag0_mac))] in
  Finder.newcontime s' = 2 ^ 32 - 1 /\
  exists l, Finder.radio s' = Finder.radio finder_timer_at_max ++ l /\
            Forall (fun r => Finder.is_scan_op r = true) l.
Proof.
  apply (connect_timer_at_maximum_never_expires finder_timer_at_max).
  vm_compute. reflexivity.
Defined.

(** ** onResult, src/main.cpp *)



Section TesterOnResult.
Import Tester.

(** The loop state after the turns of [onResult] for the first [k]
    entries: the state and [missing]. *)
Lemma tester_onResult_prefix a s k :
  (k <= length (Itag s))%nat ->
  for_loop (onResult_body a) k 0 (s, false) =
    (mk_state (seen_upto a k (Itag s))
              (newcontime s)
              (serial s ++
                 ((fun i => MsgFound (adv_read a i)) <$> found_ids a (Itag s) k))
              (radio s) (connected s),
     some_missing a (Itag s) k).
Proof.
  intros Hk.
  pose proof (for_loop_indexed (onResult_body a)
    (fun j sm => (j <= k)%nat ->
       sm = (mk_state (seen_upto a j (Itag s))
               (newcontime s)
               (serial s ++
                  ((fun i => MsgFound (adv_read a i)) <$> found_ids a (Itag s) j))
               (radio s) (connected s),
             some_missing a (Itag s) j)) k 0 (s, false)) as Hind.
  apply Hind;
    [|intros _; rewrite seen_upto_0; destruct s; simpl; rewrite app_nil_r;
      reflexivity|lia].
  clear Hind. intros j [s1 m] Hj Hs1.
  assert (Hbrk : (onResult_body a j (s1, m)).2 = false).
  { unfold onResult_body. destruct (Itag s1 !! j) as [t|]; [|reflexivity].
    destruct (negb (advertized t)); [|reflexivity].
    destruct (String.eqb (ItagAddress t) (adv_read a j)); reflexivity. }
  split; [exact Hbrk|]. intros HSj. specialize (Hs1 ltac:(lia)).
  injection Hs1 as Hs1 Hm.
  destruct (lookup_lt_is_Some_2 (Itag s) j ltac:(lia)) as [t Ht].
  assert (Hj1 : Itag s1 !! j = Some t).
  { rewrite Hs1. simpl. rewrite seen_upto_here. exact Ht. }
  rewrite (seen_upto_S a _ _ _ Ht), found_ids_S, fmap_app, some_missing_S.
  assert (Hfound : found_at a (Itag s) j = newly_found (adv_read a j) t)
    by (unfold found_at; rewrite Ht; reflexivity).
  assert (Hmiss : missing_at a (Itag s) j = still_missing (adv_read a j) t)
    by (unfold missing_at; rewrite Ht; reflexivity).
  rewrite Hfound, Hmiss.
  unfold onResult_body. rewrite Hj1. rewrite <- Hm. simpl.
  unfold newly_found, still_missing.
  destruct (advertized t) eqn:Hadv; simpl.
  - rewrite orb_false_r. f_equal. rewrite Hs1. f_equal.
    + rewrite (seen_from_old (adv_read a j) t)
        by (unfold newly_found; rewrite Hadv; reflexivity).
      apply eq_sym, list_insert_id. rewrite seen_upto_here. exact Ht.
    + rewrite app_nil_r. reflexivity.
  - destruct (String.eqb (ItagAddress t) (adv_read a j)) eqn:Heq; simpl.
    + rewrite orb_false_r. f_equal. rewrite Hs1.
      unfold print, set_tag, set_Itag. simpl. f_equal.
      * rewrite (seen_from_new (adv_read a j) t)
          by (unfold newly_found; rewrite Hadv, Heq; reflexivity).
        reflexivity.
      * rewrite <- app_assoc. reflexivity.
    + rewrite orb_true_r. f_equal. rewrite Hs1. f_equal.
      * rewrite (seen_from_old (adv_read a j) t)
          by (unfold newly_found; rewrite Hadv, Heq; reflexivity).
        apply eq_sym, list_insert_id. rewrite seen_upto_here. exact Ht.
      * rewrite app_nil_r. reflexivity.
Qed.

Lemma tester_onResult_state a s :
  onResult a s =
    let s1 := mk_state (seen_all a (Itag s)) (newcontime s)
                (serial s ++
                   ((fun i => MsgFound (adv_read a i)) <$>
                      found_ids a (Itag s) (length (Itag s))))
                (radio s) (connected s) in
    if some_missing a (Itag s) (length (Itag s)) then s1
    else request RScanStop s1.
Proof.
  unfold onResult, NITAGS.
  rewrite (tester_onResult_prefix a s _ (Nat.le_refl _)).
  rewrite seen_upto_all by reflexivity. cbv zeta.
  destruct (some_missing a (Itag s) (length (Itag s))); reflexivity.
Qed.

End TesterOnResult.


(** ** loop(), src/main.cpp *)

Section TesterLoop.
Import Tester.

Lemma reset_body_never_breaks i sr : (reset_body i sr).2 = false.
Proof.
  unfold reset_body. destruct sr as [s m].
  destruct (Itag s !! i); [|reflexivity].
  destruct (negb (isConnected i s)); reflexivity.
Qed.

(** The first for loop of [loop()] as a whole. *)
Lemma reset_loop_state s :
  for_loop reset_body (NITAGS s) 0 (s, false) =
    (set_Itag (forget_unlinked s) s, some_unlinked s).
Proof.
  pose proof (for_loop_indexed reset_body
    (fun k sr =>
       exists L, sr.1 = set_Itag L s /\ length L = length (Itag s) /\
         (forall j, L !! j =
            (fun t => if (j <? k)%nat && negb (isConnected j s)
                      then mk_itag (ItagAddress t) (pRemChar t) false (oldmillis t)
                      else t) <$> Itag s !! j) /\
         sr.2 = existsb (fun i => negb (isConnected i s)) (seq 0 k))
    (NITAGS s) 0 (s, false)) as Hind.
  destruct Hind as (L & Hs & Hlen & HL & Hm).
  - intros k [s1 m] Hk (L & Hs1 & Hlen & HL & Hm). simpl in Hs1, Hm.
    split; [apply reset_body_never_breaks|].
    unfold NITAGS in Hk.
    destruct (lookup_lt_is_Some_2 (Itag s) k ltac:(lia)) as [t Ht].
    assert (Hk1 : Itag s1 !! k = Some t).
    { rewrite Hs1. simpl. rewrite HL, Ht. simpl.
      rewrite Nat.ltb_irrefl. reflexivity. }
    unfold reset_body. rewrite Hk1.
    assert (Hconn : isConnected k s1 = isConnected k s)
      by (rewrite Hs1; reflexivity).
    rewrite Hconn, seq_S, existsb_app. simpl.
    destruct (isConnected k s) eqn:Hc; simpl.
    + exists L. split; [exact Hs1|]. split; [exact Hlen|].
      split; [|rewrite Hm, orb_false_r; reflexivity].
      intros j. rewrite HL. destruct (Itag s !! j) as [tj|]; [|reflexivity].
      simpl. destruct (decide (j = k)) as [->|Hne].
      * rewrite Hc, !andb_false_r. reflexivity.
      * replace (j <? S k)%nat with (j <? k)%nat; [reflexivity|].
        destruct (Nat.ltb_spec j k), (Nat.ltb_spec j (S k)); lia || reflexivity.
    + exists (<[k:=mk_itag (ItagAddress t) (pRemChar t) false (oldmillis t)]> L).
      split; [rewrite Hs1; reflexivity|].
      split; [rewrite length_insert; exact Hlen|].
      split; [|rewrite orb_true_r; reflexivity].
      intros j. destruct (decide (j = k)) as [->|Hne].
      * rewrite list_lookup_insert_eq by lia. rewrite Ht. simpl.
        rewrite Hc. destruct (Nat.ltb_spec k (S k)); [reflexivity|lia].
      * rewrite list_lookup_insert_ne by congruence. rewrite HL.
        destruct (Itag s !! j) as [tj|]; [|reflexivity]. simpl.
        replace (j <? S k)%nat with (j <? k)%nat; [reflexivity|].
        destruct (Nat.ltb_spec j k), (Nat.ltb_spec j (S k)); lia || reflexivity.
  - exists (Itag s). split; [destruct s; reflexivity|]. split; [reflexivity|].
    split; [|reflexivity].
    intros j. destruct (Itag s !! j); reflexivity.
  - simpl in Hs, Hm. destruct (for_loop reset_body (NITAGS s) 0 (s, false))
      as [s1 m]. simpl in *. subst s1 m. f_equal. f_equal.
    apply list_eq. intros j. unfold forget_unlinked.
    rewrite HL, list_lookup_imap.
    destruct (Itag s !! j) as [tj|] eqn:Hj; [|reflexivity]. simpl.
    apply lookup_lt_Some in Hj. unfold NITAGS.
    destruct (Nat.ltb_spec j (length (Itag s))); [|lia]. simpl.
    destruct (isConnected j s); reflexivity.
Qed.

Lemma all_linked_nothing_to_forget s :
  (forall i, (i < NITAGS s)%nat -> isConnected i s = true) ->
  forget_unlinked s = Itag s /\ some_unlinked s = false.
Proof.
  intros Hall. split.
  - apply list_eq. intros j. unfold forget_unlinked. rewrite list_lookup_imap.
    destruct (Itag s !! j) as [tj|] eqn:Hj; [|reflexivity]. simpl.
    rewrite Hall by (eapply lookup_lt_Some, Hj). reflexivity.
  - unfold some_unlinked. apply not_true_is_false. intros Hex.
    apply existsb_exists in Hex as (i & Hin & Hi).
    apply in_seq in Hin. rewrite Hall in Hi by lia. discriminate Hi.
Qed.

End TesterLoop.

(** X13.  A due pass of [loop()] of the test sketch that finds every
    client connected starts no scan, tries no connect and writes no
    entry: it only sets the timer 5000 ms after its end. *)
Theorem test_sketch_pass_with_all_connected env scan s :
  Tester.newcontime s < wrap32 (t_begin env) ->
  (forall i, (i < Tester.NITAGS s)%nat -> Tester.isConnected i s = true) ->
  Tester.loop env scan s =
    Tester.set_newcontime (wrap32 (wrap32 (t_end env) + 5000)) s.
Proof.
  intros Hdue Hall. unfold Tester.loop.
  destruct (Z.ltb_spec (Tester.newcontime s) (wrap32 (t_begin env))); [|lia].
  rewrite reset_loop_state.
  destruct (all_linked_nothing_to_forget s Hall) as [-> ->].
  assert (Hs : Tester.set_Itag (Tester.Itag s) s = s) by (destruct s; reflexivity).
  rewrite Hs. f_equal.
  apply for_loop_none. intros k Hk. unfold Tester.connect_body.
  destruct (Tester.Itag s !! k) as [t|] eqn:Ht; [|reflexivity].
  destruct (advertized t); [|reflexivity].
  rewrite Hall by (eapply lookup_lt_Some, Ht). reflexivity.
Qed.

Lemma test_sketch_pass_with_all_connected_witness :
  Tester.loop tick_retry scan_hears_1 tester_all_linked =
    Tester.set_newcontime (wrap32 (wrap32 (t_end tick_retry) + 5000))
      tester_all_linked.
Proof.
  apply (test_sketch_pass_with_all_connected tick_retry scan_hears_1
           tester_all_linked).
  - vm_compute. reflexivity.
  - intros i Hi. change (Tester.NITAGS tester_all_linked) with 3%nat in Hi.
    destruct i as [|[|[|i]]]; [reflexivity|reflexivity|reflexivity|lia].
Defined.

(** ** The requests of the test sketch *)

Lemma callback_op_no_start r : is_callback_op r = true -> is_scan_start r = false.
Proof. destruct r; simpl; congruence. Qed.

Lemma gatt_op_no_start r : is_gatt_op r = true -> is_scan_start r = false.
Proof. destruct r; simpl; congruence. Qed.

Lemma conn_ids_callback l :
  Forall (fun r => is_callback_op r = true) l -> conn_ids l = [].
Proof.
  induction 1 as [|r l Hr _ IH]; [reflexivity|].
  simpl. rewrite IH. destruct r; simpl in *; congruence.
Qed.

Section TesterRequests.
Import Tester.

Lemma tester_notifyCallback_frame h now s :
  radio (notifyCallback h now s) = radio s /\
  connected (notifyCallback h now s) = connected s /\
  forall j, adv j (notifyCallback h now s) = adv j s /\
            peer_mac j (notifyCallback h now s) = peer_mac j s.
Proof.
  apply (for_loop_inv (notifyCallback_body h (wrap32 now))
           (fun s1 => radio s1 = radio s /\ connected s1 = connected s /\
                      forall j, adv j s1 = adv j s /\
                                peer_mac j s1 = peer_mac j s));
    [|repeat split].
  intros k s1 (Hr & Hc & Hj). unfold notifyCallback_body.
  destruct (Itag s1 !! k) as [t|] eqn:Hk; [|auto].
  destruct (ptr_eqb (pRemChar t) h); [|auto]. simpl.
  destruct (wrap32 (oldmillis t + 500) <? wrap32 now); [|auto].
  simpl. split; [exact Hr|]. split; [exact Hc|].
  intros j. destruct (Hj j) as [Ha Hp]. rewrite <- Ha, <- Hp.
  unfold adv, peer_mac. simpl. destruct (decide (k = j)) as [->|Hne].
  - rewrite list_lookup_insert_eq by (eapply lookup_lt_Some, Hk).
    rewrite Hk. split; reflexivity.
  - rewrite list_lookup_insert_ne by exact Hne. split; reflexivity.
Qed.

(** A callback that arrives on its own asks for a scan stop or a
    disconnect at most, keeps the addresses, and raises the flag of an
    entry only as an advertisement in which the comparison with the entry
    reads its address. *)
Lemma tester_deliver_effect e s :
  (exists l, radio (deliver e s) = radio s ++ l /\
             Forall (fun r => is_callback_op r = true) l) /\
  (forall j, peer_mac j (deliver e s) = peer_mac j s) /\
  (forall i a, peer_mac i s = Some a -> unheard i a e ->
               adv i (deliver e s) = adv i s).
Proof.
  assert (Hnil : forall s0 : state,
            exists l, radio s0 = radio s0 ++ l /\
                      Forall (fun r => is_callback_op r = true) l).
  { intros s0. exists []. split; [symmetry; apply app_nil_r|constructor]. }
  destruct e as [p|j|h now]; simpl.
  - rewrite tester_onResult_state. cbv zeta.
    set (s1 := mk_state (seen_all p (Itag s)) (newcontime s) _ (radio s)
                 (connected s)).
    set (m := some_missing p (Itag s) (length (Itag s))).
    assert (HI : Itag (if m then s1 else request RScanStop s1)
                 = seen_all p (Itag s))
      by (destruct m; reflexivity).
    split; [|split].
    + destruct m; [apply (Hnil s1)|].
      exists [RScanStop]. split; [reflexivity|repeat constructor].
    + intros j. unfold peer_mac. rewrite HI. unfold seen_all.
      rewrite list_lookup_imap. destruct (Itag s !! j); reflexivity.
    + intros i a Ha Hne. unfold adv, peer_mac in *.
      rewrite HI. unfold seen_all. rewrite list_lookup_imap.
      destruct (Itag s !! i) as [t|]; [|reflexivity]. simpl in *.
      injection Ha as Ha.
      destruct (String.eqb_spec (ItagAddress t) (adv_read p i)) as [Heq|_];
        [congruence|apply orb_false_r].
  - destruct (peer_mac j s) as [mac|]; [|auto].
    destruct (isConnected j s); [|auto].
    split; [|auto]. exists [RDisconnect j]. split; [reflexivity|repeat constructor].
  - destruct (tester_notifyCallback_frame h now s) as (Hr & _ & Hj).
    split; [rewrite Hr; apply Hnil|]. split; intros; apply Hj.
Qed.

Lemma tester_deliver_all_effect es : forall s,
  (exists l, radio (deliver_all es s) = radio s ++ l /\
             Forall (fun r => is_callback_op r = true) l) /\
  (forall j, peer_mac j (deliver_all es s) = peer_mac j s) /\
  (forall i a, peer_mac i s = Some a -> Forall (unheard i a) es ->
               adv i (deliver_all es s) = adv i s).
Proof.
  induction es as [|e es IH]; intros s; simpl.
  - split; [|auto]. exists []. split; [symmetry; apply app_nil_r|constructor].
  - destruct (tester_deliver_effect e s) as ((l & Hl & Hcb) & Hpeer & Hadv).
    destruct (IH (deliver e s)) as ((l' & Hl' & Hcb') & Hpeer' & Hadv').
    split; [|split].
    + exists (l ++ l'). split; [rewrite Hl', Hl; apply eq_sym, app_assoc|].
      apply Forall_app; auto.
    + intros j. rewrite Hpeer'. apply Hpeer.
    + intros i a Ha Hall. apply Forall_cons in Hall as [He Hes].
      rewrite Hadv' with (a := a); [apply (Hadv i a Ha He)| |exact Hes].
      rewrite Hpeer. exact Ha.
Qed.

End TesterRequests.

Section TesterConnectEffect.
Import Tester.

Lemma tester_adv_set_pRemChar j i p s : adv j (set_pRemChar i p s) = adv j s.
Proof.
  unfold set_pRemChar, adv. destruct (Itag s !! i) as [t|] eqn:Hi; [|reflexivity].
  simpl. destruct (decide (i = j)) as [->|Hne].
  - rewrite list_lookup_insert_eq by (eapply lookup_lt_Some, Hi).
    rewrite Hi. reflexivity.
  - rewrite list_lookup_insert_ne by exact Hne. reflexivity.
Qed.

Lemma tester_peer_mac_set_pRemChar j i p s :
  peer_mac j (set_pRemChar i p s) = peer_mac j s.
Proof.
  unfold set_pRemChar, peer_mac. destruct (Itag s !! i) as [t|] eqn:Hi;
    [|reflexivity].
  simpl. apply (lookup_insert_fmap_same ItagAddress _ _ _ _ _ Hi). reflexivity.
Qed.

(** The connect call of the test sketch: its request, then what the
    callbacks ask; the addresses stay, and the flag of an entry stays
    unless a run of [onResult] reads its address during the call. *)
Lemma tester_client_connect_effect k a s :
  (exists l, radio (client_connect k a s) = radio s ++ RConnect k :: l /\
             Forall (fun r => is_callback_op r = true) l) /\
  (forall j, peer_mac j (client_connect k a s) = peer_mac j s) /\
  (forall i x, peer_mac i s = Some x ->
               Forall (unheard i x) (before a ++ after a) ->
               adv i (client_connect k a s) = adv i s).
Proof.
  unfold client_connect.
  set (s0 := request (RConnect k) s).
  destruct (tester_deliver_all_effect (before a) s0)
    as ((l1 & Hl1 & Hcb1) & Hpeer1 & Hadv1).
  set (s1 := deliver_all (before a) s0) in *.
  set (s2 := if up a then link_up k s1 else s1).
  assert (H2 : radio s2 = radio s1 /\ Itag s2 = Itag s1).
  { unfold s2, link_up. destruct (up a); [|auto].
    destruct (peer_mac k s1); auto. }
  destruct H2 as [Hr2 Hi2].
  destruct (tester_deliver_all_effect (after a) s2)
    as ((l3 & Hl3 & Hcb3) & Hpeer3 & Hadv3).
  split; [|split].
  - exists (l1 ++ l3). split; [|apply Forall_app; auto].
    rewrite Hl3, Hr2, Hl1. unfold s0. simpl.
    rewrite <- !app_assoc. reflexivity.
  - intros j. rewrite Hpeer3. unfold peer_mac at 1. rewrite Hi2. apply Hpeer1.
  - intros i x Hx Hall. apply Forall_app in Hall as [Hb Ha].
    assert (Hx2 : peer_mac i s2 = Some x).
    { unfold peer_mac. rewrite Hi2. rewrite <- Hx. apply Hpeer1. }
    rewrite (Hadv3 i x Hx2 Ha). unfold adv at 1. rewrite Hi2.
    apply (Hadv1 i x Hx Hb).
Qed.

Lemma tester_connectToServer_effect k a s :
  (exists l, radio (connectToServer k a s) = radio s ++ RConnect k :: l /\
             conn_ids l = [] /\
             Forall (fun r => is_scan_start r = false) l) /\
  (forall j, peer_mac j (connectToServer k a s) = peer_mac j s) /\
  (forall i x, peer_mac i s = Some x ->
               Forall (unheard i x) (before a ++ after a) ->
               adv i (connectToServer k a s) = adv i s).
Proof.
  destruct (tester_client_connect_effect k a s)
    as ((l1 & Hl1 & Hcb1) & Hpeer1 & Hadv1).
  destruct (tester_connectToServer_fields k a s) as (_ & l2 & Hl2 & Hgatt).
  assert (HI : Itag (connectToServer k a s) = Itag (client_connect k a s) \/
               exists p, Itag (connectToServer k a s)
                         = Itag (set_pRemChar k p (client_connect k a s))).
  { rewrite tester_connectToServer_Itag. cbv zeta.
    destruct (negb (isConnected k (client_connect k a s)) || negb (res a));
      [auto|].
    destruct (button a) as [c|]; [right; eauto|auto]. }
  split; [|split].
  - exists (l1 ++ l2). split; [|split].
    + rewrite Hl2, Hl1. rewrite <- !app_assoc. reflexivity.
    + rewrite conn_ids_app, (conn_ids_callback l1 Hcb1), (conn_ids_gatt l2 Hgatt).
      reflexivity.
    + apply Forall_app. split.
      * eapply Forall_impl; [exact Hcb1|]. intros r. apply callback_op_no_start.
      * eapply Forall_impl; [exact Hgatt|]. intros r. apply gatt_op_no_start.
  - intros j. rewrite <- Hpeer1. unfold peer_mac at 1.
    destruct HI as [-> | (p & ->)]; [reflexivity|].
    apply tester_peer_mac_set_pRemChar.
  - intros i x Hx Hall. rewrite <- (Hadv1 i x Hx Hall). unfold adv at 1.
    destruct HI as [-> | (p & ->)]; [reflexivity|].
    apply tester_adv_set_pRemChar.
Qed.

(** One pass of the second for loop of [loop()]. *)
Lemma connect_body_effect env k s :
  (exists l, radio (connect_body env k s).1 = radio s ++ l /\
             Forall (fun r => is_scan_start r = false) l /\
             (conn_ids l = [] \/ (conn_ids l = [k] /\ adv k s = true))) /\
  (forall j, peer_mac j (connect_body env k s).1 = peer_mac j s) /\
  (forall i x, peer_mac i s = Some x ->
               Forall (unheard i x)
                      (before (answer env k) ++ after (answer env k)) ->
               adv i (connect_body env k s).1 = adv i s).
Proof.
  assert (Hnone : (exists l, radio s = radio s ++ l /\
             Forall (fun r => is_scan_start r = false) l /\
             (conn_ids l = [] \/ (conn_ids l = [k] /\ adv k s = true))) /\
            (forall j, peer_mac j s = peer_mac j s) /\
            (forall i x, peer_mac i s = Some x ->
               Forall (unheard i x)
                      (before (answer env k) ++ after (answer env k)) ->
               adv i s = adv i s)).
  { split; [|auto]. exists []. split; [symmetry; apply app_nil_r|].
    split; [constructor|auto]. }
  unfold connect_body.
  destruct (Itag s !! k) as [t|] eqn:Hk; [|exact Hnone].
  destruct (advertized t) eqn:Ha; [|exact Hnone].
  destruct (negb (isConnected k s)); [|exact Hnone]. simpl.
  destruct (tester_connectToServer_effect k (answer env k)
              (print (MsgTry k (ItagAddress t)) s))
    as ((l & Hl & Hids & Hns) & Hpeer & Hadv).
  split; [|split; [exact Hpeer|exact Hadv]].
  exists (RConnect k :: l). split; [exact Hl|].
  split; [constructor; [reflexivity|exact Hns]|].
  right. simpl. rewrite Hids. split; [reflexivity|].
  unfold adv. rewrite Hk. exact Ha.
Qed.

End TesterConnectEffect.

Section TesterPass.
Import Tester.

Lemma forget_unlinked_entry s i t :
  Itag s !! i = Some t ->
  forget_unlinked s !! i =
    Some (if isConnected i s then t
          else mk_itag (ItagAddress t) (pRemChar t) false (oldmillis t)).
Proof.
  intros Hi. unfold forget_unlinked. rewrite list_lookup_imap, Hi. reflexivity.
Qed.

(** A due pass, written out: the table with the unlinked entries
    forgotten, the scan if one is needed, then the second for loop. *)
Lemma tester_loop_due env scan s :
  newcontime s < wrap32 (t_begin env) ->
  loop env scan s =
    let s1 := set_Itag (forget_unlinked s) s in
    let s2 := if some_unlinked s
              then deliver_all scan
                     (request (RScanStart 10) (print MsgStartScan s1))
              else s1 in
    set_newcontime (wrap32 (wrap32 (t_end env) + 5000))
      (for_loop (connect_body env) (NITAGS s2) 0 s2).
Proof.
  intros Hdue. unfold loop.
  destruct (Z.ltb_spec (newcontime s) (wrap32 (t_begin env))); [|lia].
  rewrite reset_loop_state. reflexivity.
Qed.

End TesterPass.

(** X14.  A due pass of [loop()] of the test sketch starts the 10 s scan
    if and only if some client is not connected, and starts it before
    anything else; nothing in the rest of the pass, callbacks included,
    starts a scan. *)
Theorem test_sketch_scans_when_a_client_is_down env scan s :
  Tester.newcontime s < wrap32 (t_begin env) ->
  exists l,
    Tester.radio (Tester.loop env scan s) =
      Tester.radio s ++
      (if Tester.some_unlinked s then [RScanStart 10] else []) ++ l /\
    Forall (fun r => is_scan_start r = false) l.
Proof.
  intros Hdue. rewrite (tester_loop_due env scan s Hdue). cbv zeta.
  set (s1 := Tester.set_Itag (Tester.forget_unlinked s) s).
  set (s2 := if Tester.some_unlinked s
             then Tester.deliver_all scan
                    (Tester.request (RScanStart 10) (Tester.print MsgStartScan s1))
             else s1).
  assert (H2 : exists l2, Tester.radio s2 =
                 Tester.radio s ++
                 (if Tester.some_unlinked s then [RScanStart 10] else []) ++ l2 /\
               Forall (fun r => is_scan_start r = false) l2).
  { unfold s2. destruct (Tester.some_unlinked s).
    - destruct (tester_deliver_all_effect scan
                  (Tester.request (RScanStart 10) (Tester.print MsgStartScan s1)))
        as ((l & Hl & Hcb) & _).
      exists l. split; [rewrite Hl; simpl; rewrite <- app_assoc; reflexivity|].
      eapply Forall_impl; [exact Hcb|]. intros r. apply callback_op_no_start.
    - exists []. split; [simpl; rewrite app_nil_r; reflexivity|constructor]. }
  destruct H2 as (l2 & Hl2 & Hns2).
  assert (H3 : exists l3,
             Tester.radio (for_loop (Tester.connect_body env)
                             (Tester.NITAGS s2) 0 s2) = Tester.radio s2 ++ l3 /\
             Forall (fun r => is_scan_start r = false) l3).
  { apply (for_loop_inv (Tester.connect_body env)
             (fun s3 => exists l3, Tester.radio s3 = Tester.radio s2 ++ l3 /\
                          Forall (fun r => is_scan_start r = false) l3)).
    - intros k s3 (l3 & Hl3 & Hns3).
      destruct (connect_body_effect env k s3) as ((l & Hl & Hns & _) & _).
      exists (l3 ++ l). split; [rewrite Hl, Hl3; apply eq_sym, app_assoc|].
      apply Forall_app; auto.
    - exists []. split; [symmetry; apply app_nil_r|constructor]. }
  destruct H3 as (l3 & Hl3 & Hns3).
  exists (l2 ++ l3). split; [|apply Forall_app; auto].
  simpl. rewrite Hl3, Hl2. rewrite <- !app_assoc. reflexivity.
Qed.

Lemma test_sketch_scans_when_a_client_is_down_witness :
  exists l,
    Tester.radio (Tester.loop tick_retry scan_hears_1 tester_bound7) =
      Tester.radio tester_bound7 ++
      (if Tester.some_unlinked tester_bound7 then [RScanStart 10] else []) ++ l /\
    Forall (fun r => is_scan_start r = false) l.
Proof.
  apply (test_sketch_scans_when_a_client_is_down tick_retry scan_hears_1
           tester_bound7).
  vm_compute. reflexivity.
Defined.

(** X15.  The test sketch connects only to an entry that [onResult] has
    just marked: an entry whose client is not connected when a due pass
    begins, and whose address no run of [onResult] reads in its
    comparison with the entry, neither during the scan of the pass nor
    during its connect calls, is not tried in the pass and is not
    advertised when it ends, whatever its flag was before. *)
Theorem test_sketch_tries_only_entries_heard env scan s i t :
  Tester.newcontime s < wrap32 (t_begin env) ->
  Tester.Itag s !! i = Some t ->
  Tester.isConnected i s = false ->
  Forall (unheard i (ItagAddress t)) scan ->
  (forall k, Forall (unheard i (ItagAddress t))
                    (before (answer env k) ++ after (answer env k))) ->
  Tester.adv i (Tester.loop env scan s) = false /\
  exists l, Tester.radio (Tester.loop env scan s) = Tester.radio s ++ l /\
            i ∉ conn_ids l.
Proof.
  intros Hdue Hi Hconn Hscan Hans.
  rewrite (tester_loop_due env scan s Hdue). cbv zeta.
  set (s1 := Tester.set_Itag (Tester.forget_unlinked s) s).
  set (s2 := if Tester.some_unlinked s
             then Tester.deliver_all scan
                    (Tester.request (RScanStart 10) (Tester.print MsgStartScan s1))
             else s1).
  assert (H1 : Tester.peer_mac i s1 = Some (ItagAddress t) /\
               Tester.adv i s1 = false).
  { unfold Tester.peer_mac, Tester.adv, s1. simpl.
    rewrite (forget_unlinked_entry s i t Hi), Hconn. split; reflexivity. }
  destruct H1 as [Hp1 Ha1].
  assert (H2 : Tester.peer_mac i s2 = Some (ItagAddress t) /\
               Tester.adv i s2 = false /\
               exists l2, Tester.radio s2 = Tester.radio s ++ l2 /\
                          conn_ids l2 = []).
  { unfold s2. destruct (Tester.some_unlinked s).
    - set (s1' := Tester.request (RScanStart 10) (Tester.print MsgStartScan s1)).
      destruct (tester_deliver_all_effect scan s1')
        as ((l & Hl & Hcb) & Hpeer & Hadv).
      split; [rewrite Hpeer; exact Hp1|].
      split; [rewrite (Hadv i (ItagAddress t) Hp1 Hscan); exact Ha1|].
      exists (RScanStart 10 :: l). split; [rewrite Hl; simpl;
        rewrite <- app_assoc; reflexivity|].
      simpl. apply (conn_ids_callback l Hcb).
    - split; [exact Hp1|]. split; [exact Ha1|].
      exists []. split; [symmetry; apply app_nil_r|reflexivity]. }
  destruct H2 as (Hp2 & Ha2 & l2 & Hl2 & Hids2).
  assert (H3 :
    let s3 := for_loop (Tester.connect_body env) (Tester.NITAGS s2) 0 s2 in
    Tester.peer_mac i s3 = Some (ItagAddress t) /\ Tester.adv i s3 = false /\
    exists l3, Tester.radio s3 = Tester.radio s2 ++ l3 /\ i ∉ conn_ids l3).
  { apply (for_loop_inv (Tester.connect_body env)
             (fun s3 => Tester.peer_mac i s3 = Some (ItagAddress t) /\
                        Tester.adv i s3 = false /\
                        exists l3, Tester.radio s3 = Tester.radio s2 ++ l3 /\
                                   i ∉ conn_ids l3)).
    - intros k s3 (Hp3 & Ha3 & l3 & Hl3 & Hin3).
      destruct (connect_body_effect env k s3)
        as ((l & Hl & _ & Hids) & Hpeer & Hadv).
      split; [rewrite Hpeer; exact Hp3|].
      split; [rewrite (Hadv i (ItagAddress t) Hp3 (Hans k)); exact Ha3|].
      exists (l3 ++ l). split; [rewrite Hl, Hl3; apply eq_sym, app_assoc|].
      rewrite conn_ids_app. intros Hin. apply elem_of_app in Hin as [Hin|Hin];
        [exact (Hin3 Hin)|].
      destruct Hids as [Hids | [Hids Hk]]; rewrite Hids in Hin.
      + apply elem_of_nil in Hin. exact Hin.
      + apply list_elem_of_singleton in Hin. subst k. congruence.
    - split; [exact Hp2|]. split; [exact Ha2|].
      exists []. split; [symmetry; apply app_nil_r|apply not_elem_of_nil]. }
  cbv zeta in H3. destruct H3 as (_ & Ha3 & l3 & Hl3 & Hin3).
  split; [exact Ha3|].
  exists (l2 ++ l3). split; [simpl; rewrite Hl3, Hl2; apply eq_sym, app_assoc|].
  rewrite conn_ids_app, Hids2. exact Hin3.
Qed.

Lemma test_sketch_tries_only_entries_heard_witness :
  Tester.adv 0 (Tester.loop tick_retry scan_hears_1 tester_seen0) = false /\
  exists l, Tester.radio (Tester.loop tick_retry scan_hears_1 tester_seen0)
              = Tester.radio tester_seen0 ++ l /\
            0%nat ∉ conn_ids l.
Proof.
  apply (test_sketch_tries_only_entries_heard tick_retry scan_hears_1
           tester_seen0 0 (mk_itag tag0_mac None true 0)).
  - vm_compute. reflexivity.
  - vm_compute. reflexivity.
  - vm_compute. reflexivity.
  - repeat constructor. discriminate.
  - intros k. constructor.
Defined.

(** ** An entry that is not advertised *)

Section FinderUnseen.
Import Finder.

Lemma onDisconnect_keeps_unseen mac s i :
  adv i s = false -> adv i (onDisconnect mac s) = false.
Proof.
  intros Hi. unfold onDisconnect.
  change (adv i (for_loop (onDisconnect_body mac)
                   (NITAGS (print (MsgDisconnected mac) s)) 0
                   (print (MsgDisconnected mac) s)) = false).
  apply (for_loop_inv (onDisconnect_body mac) (fun s1 => adv i s1 = false));
    [|exact Hi].
  intros k s1 Hs1. unfold onDisconnect_body.
  destruct (Itag s1 !! k) as [t|] eqn:Hk; [|exact Hs1].
  destruct (String.eqb (ItagAddress t) mac); [|exact Hs1]. simpl.
  unfold adv in *. simpl. destruct (decide (k = i)) as [->|Hne].
  - rewrite list_lookup_insert_eq by (eapply lookup_lt_Some, Hk). reflexivity.
  - rewrite list_lookup_insert_ne by exact Hne. exact Hs1.
Qed.

Lemma deliver_keeps_unseen e s i a :
  peer_mac i s = Some a -> adv i s = false -> unheard i a e ->
  adv i (deliver e s) = false.
Proof.
  intros Hp Ha Hne. destruct e as [p|j|h now]; simpl.
  - rewrite finder_onResult_state. unfold adv, peer_mac in *. simpl.
    unfold seen_all. rewrite list_lookup_imap.
    destruct (Itag s !! i) as [t|]; [|reflexivity].
    simpl in *. injection Hp as Hp. rewrite Ha. simpl.
    destruct (String.eqb_spec (ItagAddress t) (adv_read p i));
      [congruence|reflexivity].
  - destruct (peer_mac j s); [|exact Ha].
    destruct (isConnected j s); [|exact Ha].
    apply onDisconnect_keeps_unseen. exact Ha.
  - rewrite (proj2 (notifyCallback_flags h now s)). exact Ha.
Qed.

Lemma deliver_all_keeps_unseen es : forall s i a,
  peer_mac i s = Some a -> adv i s = false ->
  Forall (unheard i a) es ->
  adv i (deliver_all es s) = false.
Proof.
  induction es as [|e es IH]; intros s i a Hp Ha Hall; [exact Ha|].
  apply Forall_cons in Hall as [He Hes]. simpl.
  apply (IH _ i a); [|apply (deliver_keeps_unseen e s i a Hp Ha He)|exact Hes].
  destruct (cb_frame_deliver e s) as (_ & _ & _ & Hpeer & _).
  rewrite Hpeer. exact Hp.
Qed.

Lemma client_connect_keeps_unseen k c s i a :
  peer_mac i s = Some a -> adv i s = false ->
  Forall (unheard i a) (before c ++ after c) ->
  adv i (client_connect k c s) = false.
Proof.
  intros Hp Ha Hall. apply Forall_app in Hall as [Hb Haf].
  unfold client_connect.
  set (s0 := request (RConnect k) s).
  pose proof (deliver_all_keeps_unseen (before c) s0 i a Hp Ha Hb) as Ha1.
  assert (Hp1 : peer_mac i (deliver_all (before c) s0) = Some a).
  { destruct (cb_frame_deliver_all (before c) s0) as (_ & _ & _ & Hpeer & _).
    rewrite Hpeer. exact Hp. }
  set (s1 := deliver_all (before c) s0) in *.
  apply (deliver_all_keeps_unseen (after c) _ i a); [| |exact Haf];
    destruct (up c); try assumption;
    unfold peer_mac, adv; rewrite Itag_link_up; assumption.
Qed.

(** The pass for entry [k] keeps an entry unadvertised whose address no
    run of [onResult] reads, and asks for no connect of it. *)
Lemma loop_body_keeps_unseen env k s i a :
  peer_mac i s = Some a -> adv i s = false ->
  Forall (unheard i a)
         (before (answer env k) ++ after (answer env k)) ->
  adv i (loop_body env k s).1 = false /\
  exists l, radio (loop_body env k s).1 = radio s ++ l /\ i ∉ conn_ids l.
Proof.
  intros Hp Ha Hall.
  destruct (loop_body_cases env k s)
    as [-> | [-> | (t & Hk & Hadv & _ & ->)]].
  - split; [exact Ha|]. exists [].
    split; [symmetry; apply app_nil_r|apply not_elem_of_nil].
  - split; [exact Ha|]. exists [].
    split; [symmetry; apply app_nil_r|apply not_elem_of_nil].
  - set (s2 := print (MsgTry k (ItagAddress t)) (digitalWrite true s)).
    split.
    + change (adv i (connectToServer k (answer env k) s2) = false).
      rewrite adv_connectToServer.
      apply (client_connect_keeps_unseen k (answer env k) s2 i a Hp Ha Hall).
    + destruct (finder_connectToServer_radio k (answer env k) s2)
        as (g & Hg & Hgatt).
      exists (RConnect k :: g). split; [exact Hg|].
      simpl. rewrite (conn_ids_gatt g Hgatt). intros Hin.
      apply list_elem_of_singleton in Hin. subst k.
      unfold adv in Ha. rewrite Hk in Ha. congruence.
Qed.

Lemma step_keeps_unseen e s i a :
  peer_mac i s = Some a -> adv i s = false -> silent_for i a e ->
  peer_mac i (step e s) = Some a /\ adv i (step e s) = false /\
  exists l, radio (step e s) = radio s ++ l /\ i ∉ conn_ids l.
Proof.
  intros Hp Ha Hsilent. destruct e as [d|env]; simpl in *.
  - destruct (cb_frame_deliver d s) as (Hr & _ & _ & Hpeer & _).
    split; [rewrite Hpeer; exact Hp|].
    split; [apply (deliver_keeps_unseen d s i a Hp Ha Hsilent)|].
    exists []. split; [rewrite Hr; symmetry; apply app_nil_r|apply not_elem_of_nil].
  - assert (Hphase :
      peer_mac i (connect_phase env s) = Some a /\
      adv i (connect_phase env s) = false /\
      exists l, radio (connect_phase env s) = radio s ++ l /\ i ∉ conn_ids l).
    { unfold connect_phase.
      destruct (newcontime s <? wrap32 (t_begin env)).
      - cbv zeta.
        apply (for_loop_inv (loop_body env)
                 (fun s1 => peer_mac i s1 = Some a /\ adv i s1 = false /\
                            exists l, radio s1 = radio s ++ l /\ i ∉ conn_ids l)).
        + intros k s1 (Hp1 & Ha1 & l1 & Hl1 & Hin1).
          destruct (loop_body_keeps_unseen env k s1 i a Hp1 Ha1 (Hsilent k))
            as (Ha2 & l2 & Hl2 & Hin2).
          split; [|split; [exact Ha2|]].
          * destruct (loop_body_cases env k s1)
              as [-> | [-> | (t & _ & _ & _ & ->)]]; [exact Hp1|exact Hp1|].
            change (peer_mac i (connectToServer k (answer env k)
                      (print (MsgTry k (ItagAddress t)) (digitalWrite true s1)))
                    = Some a).
            rewrite peer_mac_connectToServer. exact Hp1.
          * exists (l1 ++ l2). split; [rewrite Hl2, Hl1; apply eq_sym, app_assoc|].
            rewrite conn_ids_app. intros Hin.
            apply elem_of_app in Hin as [Hin|Hin]; auto.
        + split; [exact Hp|]. split; [exact Ha|]. exists [].
          split; [symmetry; apply app_nil_r|apply not_elem_of_nil].
      - split; [exact Hp|]. split; [exact Ha|]. exists [].
        split; [symmetry; apply app_nil_r|apply not_elem_of_nil]. }
    destruct Hphase as (Hp1 & Ha1 & l & Hl & Hin).
    destruct (handle_beeptimer_fields (restart_phase (connect_phase env s)))
      as (Hi & _).
    assert (Hrs : Itag (restart_phase (connect_phase env s))
                  = Itag (connect_phase env s))
      by (unfold restart_phase; destruct (restartscan (connect_phase env s));
          reflexivity).
    unfold peer_mac, adv in *. unfold loop at 1 2. rewrite Hi, Hrs.
    split; [exact Hp1|]. split; [exact Ha1|].
    rewrite loop_radio, Hl.
    destruct (restartscan (connect_phase env s)).
    + exists (l ++ [RScanStop; RClearResults; RScanStart 0]).
      split; [apply eq_sym, app_assoc|].
      rewrite conn_ids_app. simpl. rewrite app_nil_r. exact Hin.
    + exists l. split; [apply app_nil_r|exact Hin].
Qed.

End FinderUnseen.

(** X17.  The finder connects only to an entry that [onResult] has marked
    since the last disconnect: once the flag of an entry is down, as
    [onDisconnect] leaves it, then through any passes of [loop()] and any
    callbacks among which no run of [onResult] reads the entry's address
    in its comparison with the entry, the flag stays down and no connect
    is asked for that entry. *)
Theorem unadvertised_entry_is_never_tried s evs i a :
  Finder.peer_mac i s = Some a -> Finder.adv i s = false ->
  Forall (Finder.silent_for i a) evs ->
  let s' := foldr Finder.step s evs in
  Finder.adv i s' = false /\
  exists l, Finder.radio s' = Finder.radio s ++ l /\ i ∉ conn_ids l.
Proof.
  intros Hp Ha Hall. cbv zeta.
  assert (H : Finder.peer_mac i (foldr Finder.step s evs) = Some a /\
              Finder.adv i (foldr Finder.step s evs) = false /\
              exists l, Finder.radio (foldr Finder.step s evs)
                          = Finder.radio s ++ l /\ i ∉ conn_ids l).
  { induction Hall as [|e evs He _ (Hp' & Ha' & l & Hl & Hin)]; simpl.
    - split; [exact Hp|]. split; [exact Ha|]. exists [].
      split; [symmetry; apply app_nil_r|apply not_elem_of_nil].
    - destruct (step_keeps_unseen e _ i a Hp' Ha' He)
        as (Hp2 & Ha2 & l2 & Hl2 & Hin2).
      split; [exact Hp2|]. split; [exact Ha2|].
      exists (l ++ l2). split; [rewrite Hl2, Hl; apply eq_sym, app_assoc|].
      rewrite conn_ids_app. intros Hin'.
      apply elem_of_app in Hin' as [Hin'|Hin']; auto. }
  destruct H as (_ & Ha' & Hl'). split; assumption.
Qed.

Lemma unadvertised_entry_is_never_tried_witness :
  let s' := foldr Finder.step finder_lost0
              [Finder.ETick tick_no_button;
               Finder.EDrv (DAdvert (heard "ff:ff:22:21:ab:11"));
               Finder.EDrv (DNotify 7 6000)] in
  Finder.adv 0 s' = false /\
  exists l, Finder.radio s' = Finder.radio finder_lost0 ++ l /\
            0%nat ∉ conn_ids l.
Proof.
  apply (unadvertised_entry_is_never_tried finder_lost0 _ 0 tag0_mac).
  - vm_compute. reflexivity.
  - vm_compute. reflexivity.
  - repeat constructor. discriminate.
Defined.

(** X16.  A notification has no bearing on the connections: whatever
    [notifyCallback] does with the event, the advertised flags, the
    handles and the addresses of all entries, the clients, the restart
    request, the connect timer, the LED and the requests to the radio are
    as before. *)
Theorem notification_leaves_connections h now s :
  let s' := Finder.notifyCallback h now s in
  (forall j, Finder.adv j s' = Finder.adv j s /\
             Finder.rem j s' = Finder.rem j s /\
             Finder.peer_mac j s' = Finder.peer_mac j s) /\
  Finder.connected s' = Finder.connected s /\
  Finder.restartscan s' = Finder.restartscan s /\
  Finder.newcontime s' = Finder.newcontime s /\
  Finder.actled s' = Finder.actled s /\
  Finder.radio s' = Finder.radio s.
Proof.
  cbv zeta.
  destruct (cb_frame_notifyCallback h now s)
    as (Hr & Hn & Hl & Hpeer & Hrem & _ & _).
  destruct (notifyCallback_flags h now s) as [Hc Hadv].
  split; [intros j; auto|]. split; [exact Hc|].
  split; [|split; [exact Hn|split; [exact Hl|exact Hr]]].
  apply (for_loop_inv (Finder.notifyCallback_body h (wrap32 now))
           (fun s1 => Finder.restartscan s1 = Finder.restartscan s));
    [|reflexivity].
  intros k s1 Hs1. unfold Finder.notifyCallback_body.
  destruct (Finder.Itag s1 !! k) as [t|]; [|exact Hs1].
  destruct (ptr_eqb (pRemChar t) h); [|exact Hs1]. simpl.
  destruct (wrap32 (oldmillis t + 500) <? wrap32 now); exact Hs1.
Qed.

(** ** From advertised to connected *)

Section FinderScenario.
Import Finder.




End FinderScenario.


